(** * Font atlas generator: grid geometry, rasterisation, style conversion

    A shallow embedding of [tools/fonts/generate_atlas.py] and the
    properties its design document states about it.

    Conventions of the embedding:
    - Python [int] is [Z]; Python [float] is a rational [Q] produced by a
      rounding operator (see [rounding]), so that the same code can be read
      over exact rational arithmetic and over IEEE binary64;
    - an exception is a value of [exn]; code that can raise returns a
      [result];
    - Pillow and the file system are outside the script: a font is a record
      of the answers Pillow gives for it, the file system is explicit state. *)

From stdpp Require Import gmap strings list.
From Stdlib Require Import ZArith QArith Qround Qabs Qpower Lqa Lia.
From Stdlib Require Import DecimalString Decimal DecimalZ.
From Stdlib Require Floats.SpecFloat.

Local Open Scope Z_scope.

(** ** Exceptions and results *)

(** The exceptions a run can end with.  The first group are Python
    built-ins raised by the script's own operations; [BackendError] stands
    for whatever Pillow or the operating system raises ([OSError] and the
    like), tagged with its message; the last group are the error kinds the
    design document names in its section 7. *)
Inductive exn : Type :=
  | ZeroDivisionError
  | OverflowError
  | ValueError
  | IndexError
  | BackendError (msg : string)
  | UnsupportedGlyph (cp : Z)
  | EmptyMeasurement
  | UnknownStyle (tag : string)
  | FontLoadFailure.

Inductive result (A : Type) : Type :=
  | Ok (a : A)
  | Raise (e : exn).
Arguments Ok {A} a.
Arguments Raise {A} e.

#[global] Instance result_ret : MRet result := fun _ a => Ok a.
#[global] Instance result_bind : MBind result := fun _ _ k r =>
  match r with
  | Ok a => k a
  | Raise e => Raise e
  end.

Definition is_ok {A : Type} (r : result A) : bool :=
  match r with Ok _ => true | Raise _ => false end.

(** ** Python numbers *)

(** A rounding operator sends the exact value of an operation to the float
    that represents it, or to [None] when the value overflows the format. *)
Definition rounding : Type := Q -> option Q.

(** Exact rational arithmetic: nothing is rounded, nothing overflows. *)
Definition exact : rounding := fun x => Some x.

(** [ilog2 x] is the integer [k] with [2^k <= x < 2^(k+1)], for [0 < x]. *)
Definition ilog2 (x : Q) : Z :=
  let k := Z.log2 (Qnum x) - Z.log2 (Zpos (Qden x)) in
  if Qle_bool (2 ^ k)%Q x then k else k - 1.

(** Round to the nearest integer, ties to even. *)
Definition Qrne (y : Q) : Z :=
  let f := Qfloor y in
  match (y - inject_Z f ?= 1 # 2)%Q with
  | Lt => f
  | Gt => f + 1
  | Eq => if Z.even f then f else f + 1
  end.

(** Round to nearest, ties to even, in a binary format with [prec] bits of
    precision, least exponent [emin] for the unit in the last place
    (gradual underflow) and overflow threshold [2^emax]. *)
Definition round_to (prec emin emax : Z) : rounding := fun x =>
  if Qeq_bool x 0 then Some 0%Q else
  let a := Qabs x in
  let e := Z.max (ilog2 a - (prec - 1)) emin in
  let r := (inject_Z (Qrne (a / 2 ^ e)) * 2 ^ e)%Q in
  if Qle_bool (2 ^ emax)%Q r then None
  else Some (Qred (if Qle_bool 0 x then r else - r)).

(** IEEE 754 binary64, the format of a Python [float]. *)
Definition binary64 : rounding := round_to 53 (-1074) 1024.

(** The unit roundoff of binary64, [2^-53]. *)
Definition u64 : Q := 1 # 9007199254740992.

(** [accurate fl u lo hi]: on zero and on the values between [lo] and [hi]
    the operator [fl] does not overflow and commits a relative error of at
    most [u]. *)
Definition accurate (fl : rounding) (u lo hi : Q) : Prop :=
  forall x : Q, (x == 0 \/ lo <= x <= hi)%Q ->
    exists r : Q, fl x = Some r /\ (Qabs (r - x) <= u * x)%Q.

(** The integer part of a finite float: truncation toward zero. *)
Definition py_int (x : Q) : Z := Z.quot (Qnum x) (Zpos (Qden x)).

Section PythonArithmetic.
Variable fl : rounding.

(** [a / b] on two [int]s: the correctly rounded quotient. *)
Definition int_truediv (a b : Z) : result Q :=
  if b =? 0 then Raise ZeroDivisionError
  else match fl (inject_Z a / inject_Z b)%Q with
       | Some q => Ok q
       | None => Raise OverflowError
       end.

(** [float(n)], the conversion Python applies to the [int] operand of a
    mixed product; [None] when [n] is beyond the format. *)
Definition float_of_int (n : Z) : option Q := fl (inject_Z n).

(** [n * x] for an [int] [n] and a finite [float] [x]; [None] stands for
    an infinity. *)
Definition float_mul_int (n : Z) (x : Q) : option Q :=
  match float_of_int n with
  | Some f => fl (f * x)%Q
  | None => None
  end.

(** [int(x)] of a float: truncation toward zero, [OverflowError] on an
    infinity. *)
Definition int_of_float (x : option Q) : result Z :=
  match x with
  | Some p => Ok (py_int p)
  | None => Raise OverflowError
  end.

(** *** GridGeometryCalculator *)

Definition calculate_dimensions
    (max_width max_above max_below target_size base_font_size : Z)
    : result (Z * Z * Z * Z * Q) :=
  let natural_height := max_above + max_below in
  let natural_baseline := max_above in
  scale ← int_truediv target_size (Z.max max_width natural_height);
  font_size ← int_of_float (float_mul_int base_font_size scale);
  glyph_width ← int_of_float (float_mul_int max_width scale);
  glyph_height ← int_of_float (float_mul_int natural_height scale);
  baseline_offset ← int_of_float (float_mul_int natural_baseline scale);
  Ok (font_size, glyph_width, glyph_height, baseline_offset, scale).
End PythonArithmetic.

(** IEEE 754 binary64 division and multiplication as the Standard Library
    specifies them, for comparison with [binary64]. *)
Module IEEE.
Import SpecFloat.

Definition of_Z (n : Z) : spec_float := binary_normalize 53 1024 n 0 false.

Definition to_Q (f : spec_float) : option Q :=
  match f with
  | S754_zero _ => Some 0%Q
  | S754_finite s m e =>
      Some (Qred (inject_Z (if s then Z.neg m else Z.pos m) * 2 ^ e)%Q)
  | _ => None
  end.

Definition div (a b : Z) : option Q := to_Q (SFdiv 53 1024 (of_Z a) (of_Z b)).

Definition scaled (n a b : Z) : option Q :=
  to_Q (SFmul 53 1024 (of_Z n) (SFdiv 53 1024 (of_Z a) (of_Z b))).
End IEEE.

(** The same two operations through [binary64]: the quotient [a / b] of
    two [int]s, and the product of an [int] [n] with that quotient. *)
Definition b64_div (a b : Z) : option Q := binary64 (inject_Z a / inject_Z b)%Q.
Definition b64_scaled (n a b : Z) : option Q :=
  match b64_div a b with
  | Some s => float_mul_int binary64 n s
  | None => None
  end.

Definition same_float (x y : option Q) : bool :=
  match x, y with
  | Some p, Some q => Qeq_bool p q
  | None, None => true
  | _, _ => false
  end.

(** [binary64] and the Standard Library's IEEE 754 operations give the
    same quotients [a / b] and the same products [b * (a / b)] and
    [(b - 1) * (a / b)], for all [a] and [b] from 1 to [k]. *)
Definition agrees_with_IEEE (k : Z) : bool :=
  forallb (fun a =>
    forallb (fun b =>
      same_float (IEEE.div a b) (b64_div a b) &&
      same_float (IEEE.scaled b a b) (b64_scaled b a b) &&
      same_float (IEEE.scaled (b - 1) a b) (b64_scaled (b - 1) a b))
      (seqZ 1 k)) (seqZ 1 k).

(** ** Loops *)

(** [for x in xs: body], threading the mutated state and stopping at the
    first exception. *)
Fixpoint for_each {A St : Type} (xs : list A) (body : A -> St -> result St)
    (s : St) : result St :=
  match xs with
  | [] => Ok s
  | x :: xs' => s' ← body x s; for_each xs' body s'
  end.

(** [range(n)]: empty when [n <= 0]. *)
Definition range (n : Z) : list Z := seqZ 0 n.

(** [enumerate(xs, start)] and [enumerate(xs)]. *)
Fixpoint enumerate_from {A : Type} (start : Z) (xs : list A) : list (Z * A) :=
  match xs with
  | [] => []
  | x :: xs' => (start, x) :: enumerate_from (start + 1) xs'
  end.

Definition enumerate {A : Type} (xs : list A) : list (Z * A) :=
  enumerate_from 0 xs.

(** ** Pillow images *)

(** An image is its size and its pixels in row-major order: pixel
    [(x, y)] is at index [y * width + x]. *)
Record image (P : Type) : Type := Image {
  width : Z;
  height : Z;
  pixels : list P
}.
Arguments Image {P} width height pixels.
Arguments width {P} i.
Arguments height {P} i.
Arguments pixels {P} i.

(** The buffers Pillow itself hands out satisfy this. *)
Definition wf_image {P : Type} (img : image P) : Prop :=
  0 <= width img /\ 0 <= height img /\
  length (pixels img) = Z.to_nat (width img * height img).

(** [Image.new(mode, (w, h), color)]. *)
Definition Image_new {P : Type} (w h : Z) (color : P) : result (image P) :=
  if (w <? 0) || (h <? 0) then Raise ValueError
  else Ok (Image w h (replicate (Z.to_nat (w * h)) color)).

Definition in_bounds {P : Type} (img : image P) (x y : Z) : bool :=
  (0 <=? x) && (x <? width img) && (0 <=? y) && (y <? height img).

Definition pixel_index {P : Type} (img : image P) (x y : Z) : nat :=
  Z.to_nat (y * width img + x).

(** [pixels[x, y]] on the access object returned by [load()]. *)
Definition getpixel {P : Type} (img : image P) (x y : Z) : result P :=
  if in_bounds img x y then
    match pixels img !! pixel_index img x y with
    | Some p => Ok p
    | None => Raise IndexError
    end
  else Raise IndexError.

(** [pixels[x, y] = v]. *)
Definition putpixel {P : Type} (img : image P) (x y : Z) (v : P)
    : result (image P) :=
  if in_bounds img x y then
    Ok (Image (width img) (height img)
          (<[pixel_index img x y := v]> (pixels img)))
  else Raise IndexError.

(** A pixel of an ["RGBA"] image. *)
Definition rgba : Type := Z * Z * Z * Z.

Definition alpha (p : rgba) : Z := snd p.

(** ** Python integers and strings *)

(** [a // b] and [a % b] on [int]s: floor division, remainder with the sign
    of the divisor, [ZeroDivisionError] on a zero divisor. *)
Definition py_floordiv (a b : Z) : result Z :=
  if b =? 0 then Raise ZeroDivisionError else Ok (a / b).

Definition py_mod (a b : Z) : result Z :=
  if b =? 0 then Raise ZeroDivisionError else Ok (a mod b).

(** [str(n)]: the decimal numeral of an [int]. *)
Definition str (n : Z) : string := NilZero.string_of_int (Z.to_int n).

(** [chr(cp)].  A one-character string is identified with its code
    point. *)
Definition chr (cp : Z) : result Z :=
  if (0 <=? cp) && (cp <? 1114112) then Ok cp else Raise ValueError.

(** ** Fonts *)

(** The bitmap FreeType renders for a text, with the offset of its
    top-left corner from the drawing origin. *)
Record glyph_mask : Type := GlyphMask {
  mask_left : Z;
  mask_top : Z;
  mask_image : image Z
}.

(** A loaded font is what Pillow answers for it: the bounding box
    [(left, top, right, bottom)] of a character drawn at the origin, and
    its rendered bitmap.  Either call may raise. *)
Record Font : Type := {
  textbbox : Z -> result (Z * Z * Z * Z);
  getmask : Z -> result glyph_mask
}.

(** ** GlyphMeasurer *)

(** The 100 x 100 scratch image of the script only carries the drawing
    context: [textbbox] does not read it, and it is left out. *)
Definition measure_font (font : Font) (codepoints : list Z)
    : result (Z * Z * Z) :=
  for_each codepoints (fun cp '(max_width, max_above, max_below) =>
    char ← chr cp;
    '(b0, b1, b2, b3) ← textbbox font char;
    let width := b2 - b0 in
    let above := - b1 in
    let below := b3 in
    Ok (Z.max max_width width, Z.max max_above above, Z.max max_below below))
    (0, 0, 0).

(** The body of the loop of [measure_font], named for the proofs. *)
Definition measure_glyph (font : Font)
    : Z -> Z * Z * Z -> result (Z * Z * Z) :=
  fun cp '(max_width, max_above, max_below) =>
    char ← chr cp;
    '(b0, b1, b2, b3) ← textbbox font char;
    let width := b2 - b0 in
    let above := - b1 in
    let below := b3 in
    Ok (Z.max max_width width, Z.max max_above above, Z.max max_below below).

(** ** AtlasRasterizer *)

Section Rasterizer.
(** Pillow's compositing of the ink 255 over a pixel through one mask
    value: [blend old m]. *)
Variable blend : Z -> Z -> Z.

(** [ImageDraw.draw_bitmap((X, Y), mask, 255)]: every pixel under the mask
    placed at [(X, Y)] is composited, the others are left alone. *)
Definition draw_bitmap (img : image Z) (X Y : Z) (mask : image Z) : image Z :=
  Image (width img) (height img)
    (imap (fun i old =>
             let px := Z.of_nat i mod width img in
             let py := Z.of_nat i / width img in
             match getpixel mask (px - X) (py - Y) with
             | Ok m => blend old m
             | Raise _ => old
             end) (pixels img)).

(** [draw.text((x, y), char, font=font, fill=255)]. *)
Definition draw_text (img : image Z) (x y : Z) (char : Z) (font : Font)
    : result (image Z) :=
  m ← getmask font char;
  Ok (draw_bitmap img (x + mask_left m) (y + mask_top m) (mask_image m)).

Definition create_atlas (font : Font) (codepoints : list Z)
    (glyph_width glyph_height baseline_offset columns : Z)
    : result (image Z * gmap string (Z * Z)) :=
  let glyph_count := Z.of_nat (length codepoints) in
  rows ← py_floordiv (glyph_count + columns - 1) columns;
  let atlas_width := columns * glyph_width in
  let atlas_height := rows * glyph_height in
  atlas ← Image_new atlas_width atlas_height 0;
  for_each (enumerate codepoints) (fun '(i, cp) '(atlas, metadata) =>
    row ← py_floordiv i columns;
    col ← py_mod i columns;
    let cell_x := col * glyph_width in
    let cell_y := row * glyph_height in
    char ← chr cp;
    '(b0, b1, b2, b3) ← textbbox font char;
    let offset_x := - b0 in
    let offset_y := cell_y + baseline_offset in
    atlas ← draw_text atlas (cell_x + offset_x) offset_y char font;
    Ok (atlas, <[str cp := (row, col)]> metadata))
    (atlas, ∅).

(** The body of the loop of [create_atlas], named for the proofs. *)
Definition place_glyph (font : Font)
    (glyph_width glyph_height baseline_offset columns : Z)
    : Z * Z -> image Z * gmap string (Z * Z) ->
      result (image Z * gmap string (Z * Z)) :=
  fun '(i, cp) '(atlas, metadata) =>
  row ← py_floordiv i columns;
  col ← py_mod i columns;
  let cell_x := col * glyph_width in
  let cell_y := row * glyph_height in
  char ← chr cp;
  '(b0, b1, b2, b3) ← textbbox font char;
  let offset_x := - b0 in
  let offset_y := cell_y + baseline_offset in
  atlas ← draw_text atlas (cell_x + offset_x) offset_y char font;
  Ok (atlas, <[str cp := (row, col)]> metadata).
End Rasterizer.

(** A font with two glyphs for the examples: [A] (65) is a 1 x 2 bar,
    [W] (87) a 3 x 2 block; it has no other glyph, and like FreeType it
    answers for a missing glyph with an empty box. *)
Definition demo_font : Font := {|
  textbbox := fun c =>
    if c =? 65 then Ok (0, 0, 1, 2)
    else if c =? 87 then Ok (0, 0, 3, 2)
    else Ok (0, 0, 0, 0);
  getmask := fun c =>
    if c =? 65 then Ok (GlyphMask 0 0 (Image 1 2 [255; 255]))
    else if c =? 87 then Ok (GlyphMask 0 0 (Image 3 2 [255; 255; 255; 255; 255; 255]))
    else Ok (GlyphMask 0 0 (Image 0 0 []))
|}.

(** A font whose backend raises on the character 12354. *)
Definition failing_font : Font := {|
  textbbox := fun c =>
    if c =? 12354 then Raise (BackendError "invalid glyph")
    else Ok (0, 0, 1, 2);
  getmask := fun c =>
    if c =? 12354 then Raise (BackendError "invalid glyph")
    else Ok (GlyphMask 0 0 (Image 1 2 [255; 255]))
|}.

(** A compositing rule for the examples: the mask value is added, up to
    255. *)
Definition demo_blend (old m : Z) : Z := Z.min 255 (old + m).

(** What Pillow is asked about one code point: first its bounding box,
    then (in [create_atlas]) its bitmap. *)
Definition glyph_bbox (font : Font) (cp : Z) : result (Z * Z * Z * Z) :=
  char ← chr cp; textbbox font char.

Definition render_glyph (font : Font) (cp : Z)
    : result (Z * Z * Z * Z * glyph_mask) :=
  char ← chr cp;
  bbox ← textbbox font char;
  m ← getmask font char;
  Ok (bbox, m).

(** [renders font cp]: the font answers both calls for the code point. *)
Definition renders (font : Font) (cp : Z) : Prop :=
  exists c bbox m,
    chr cp = Ok c /\ textbbox font c = Ok bbox /\ getmask font c = Ok m.

(** Where [create_atlas] puts the rendered bitmap of the glyph at input
    position [i]: the top-left corner of the bitmap in the atlas. *)
Definition bitmap_x (glyph_width columns i b0 : Z) (m : glyph_mask) : Z :=
  i mod columns * glyph_width + - b0 + mask_left m.

Definition bitmap_y (glyph_height baseline_offset columns i : Z)
    (m : glyph_mask) : Z :=
  i / columns * glyph_height + baseline_offset + mask_top m.

(** [outside_glyph ... i cp x y]: the pixel [(x, y)] of the atlas is not
    under the bitmap drawn for the code point [cp] at position [i]. *)
Definition outside_glyph (font : Font)
    (glyph_width glyph_height baseline_offset columns : Z)
    (i cp x y : Z) : Prop :=
  forall c b0 b1 b2 b3 m,
    chr cp = Ok c -> textbbox font c = Ok (b0, b1, b2, b3) ->
    getmask font c = Ok m ->
    in_bounds (mask_image m)
      (x - bitmap_x glyph_width columns i b0 m)
      (y - bitmap_y glyph_height baseline_offset columns i m) = false.

(** [glyph_in_cell ... cp]: drawn at the place [create_atlas] chooses, the
    bitmap of [cp] stays inside its own cell. *)
Definition glyph_in_cell (font : Font)
    (glyph_width glyph_height baseline_offset : Z) (cp : Z) : Prop :=
  forall c b0 b1 b2 b3 m,
    chr cp = Ok c -> textbbox font c = Ok (b0, b1, b2, b3) ->
    getmask font c = Ok m ->
    0 <= - b0 + mask_left m /\
    - b0 + mask_left m + width (mask_image m) <= glyph_width /\
    0 <= baseline_offset + mask_top m /\
    baseline_offset + mask_top m + height (mask_image m) <= glyph_height.

(** The glyph index built from the enumerated code points. *)
Definition index_of (columns : Z) (items : list (Z * Z))
    (metadata : gmap string (Z * Z)) : gmap string (Z * Z) :=
  foldl (fun md '(i, cp) => <[str cp := (i / columns, i mod columns)]> md)
    metadata items.

(** ** StyleConverter *)

Definition convert_to_rgba (grayscale_image : image Z) (style : string)
    : result (image rgba) :=
  let width := width grayscale_image in
  let height := height grayscale_image in
  rgba ← Image_new width height (0, 0, 0, 0);
  if String.eqb style "solid" then
    for_each (range height) (fun y rgba =>
      for_each (range width) (fun x rgba =>
        gray ← getpixel grayscale_image x y;
        if 0 <? gray then putpixel rgba x y (255, 255, 255, 255)
        else Ok rgba) rgba) rgba
  else
    for_each (range height) (fun y rgba =>
      for_each (range width) (fun x rgba =>
        gray ← getpixel grayscale_image x y;
        if 0 <? gray then putpixel rgba x y (255, 255, 255, gray)
        else Ok rgba) rgba) rgba.

(** What each style makes of one coverage value. *)
Definition solid_pixel (gray : Z) : rgba :=
  if 0 <? gray then (255, 255, 255, 255) else (0, 0, 0, 0).

Definition smooth_pixel (gray : Z) : rgba :=
  if 0 <? gray then (255, 255, 255, gray) else (0, 0, 0, 0).

(** A hard threshold on the alpha channel of one pixel. *)
Definition threshold_alpha (p : rgba) : rgba :=
  if 0 <? alpha p then (255, 255, 255, 255) else (0, 0, 0, 0).

(** The two nested loops of [convert_to_rgba], with the pixel written for
    a positive coverage left open. *)
Definition paint_loops (gray_image : image Z) (ink : Z -> rgba)
    (canvas : image rgba) : result (image rgba) :=
  for_each (range (height gray_image)) (fun y rgba =>
    for_each (range (width gray_image)) (fun x rgba =>
      gray ← getpixel gray_image x y;
      if 0 <? gray then putpixel rgba x y (ink gray) else Ok rgba) rgba)
    canvas.

(** After [k] pixels in row-major order: the first [k] are painted, the
    others are still transparent. *)
Definition painted (gray_image : image Z) (ink : Z -> rgba) (k : Z)
    (canvas : image rgba) : Prop :=
  let w := width gray_image in
  let h := height gray_image in
  0 <= k <= w * h /\
  canvas = Image w h
             (((fun g => if 0 <? g then ink g else (0, 0, 0, 0))
                 <$> take (Z.to_nat k) (pixels gray_image))
                ++ replicate (Z.to_nat (w * h - k)) (0, 0, 0, 0)).

(** ** Files *)

(** The metadata document written next to the atlas. *)
Record atlas_metrics : Type := {
  m_glyph_width : Z;
  m_glyph_height : Z;
  m_baseline_offset : Z;
  m_columns : Z;
  m_target_size : Z;
  m_font_size : Z;
  m_scale_factor : Q;
  m_style : string
}.

Record output_data : Type := {
  glyphs : gmap string (Z * Z);
  metrics : atlas_metrics
}.

(** What a file holds.  [Partial] is what a write that failed leaves
    behind: no data, or the data written up to the failure. *)
Inductive content : Type :=
  | PngImage (img : image rgba)
  | JsonDocument (doc : output_data)
  | EmptyFile
  | Partial
  | OtherData.

(** What a path holds: a directory, or a file with its write permission
    and content. *)
Inductive node : Type :=
  | Directory
  | File (writable : bool) (c : content).

(** *** Paths *)

(** A path as [pathlib] holds it on POSIX: the anchor ([""] for a relative
    path, ["/"] or ["//"]) and the components.  [Path(s)] drops the empty
    components and the components ["."]; it keeps [".."].  A path names a
    node by this spelling: [".."] and symbolic links are not resolved
    against the tree. *)
Definition path : Type := string * list string.

Definition is_slash (c : Ascii.ascii) : bool :=
  String.eqb (String c EmptyString) "/".

Fixpoint split_slash (s : string) : list string :=
  match s with
  | EmptyString => [EmptyString]
  | String c s' =>
      if is_slash c then EmptyString :: split_slash s'
      else match split_slash s' with
           | w :: ws => String c w :: ws
           | [] => [String c EmptyString]
           end
  end.

(** Exactly two leading slashes are kept, any other number is one. *)
Definition anchor_of (s : string) : string :=
  match s with
  | String a (String b rest) =>
      if is_slash a then
        if is_slash b then
          match rest with
          | String c _ => if is_slash c then "/" else "//"
          | EmptyString => "//"
          end
        else "/"
      else ""
  | String a EmptyString => if is_slash a then "/" else ""
  | EmptyString => ""
  end.

Definition is_component (w : string) : bool :=
  negb (String.eqb w "") && negb (String.eqb w ".").

(** [Path(s)]. *)
Definition Path (s : string) : path :=
  (anchor_of s, List.filter is_component (split_slash s)).

(** [p / s]: an absolute [s] replaces [p]. *)
Definition joinpath (p : path) (s : string) : path :=
  let q := Path s in
  if String.eqb q.1 "" then (p.1, p.2 ++ q.2) else q.

(** [p.parent]; a path without components is its own parent. *)
Definition parent (p : path) : path := (p.1, removelast p.2).

(** [str(p)]. *)
Definition path_str (p : path) : string :=
  match p.2 with
  | [] => if String.eqb p.1 "" then "." else p.1
  | w :: ws => p.1 +:+ w +:+ String.concat "" (map (fun x => "/" +:+ x) ws)
  end.

Abbreviation filesystem := (gmap path node).

(** The node at a path.  The working directory, the root and their
    ancestors ([".."], ["../.."], ...) are directories that exist. *)
Definition node_at (fs : filesystem) (p : path) : option node :=
  if forallb (String.eqb "..") p.2 then Some Directory else fs !! p.

(** [p.is_dir()]. *)
Definition is_dir (fs : filesystem) (p : path) : bool :=
  match node_at fs p with
  | Some Directory => true
  | _ => false
  end.

(** *** The environment of a run *)

(** The calls the script makes to the operating system. *)
Inductive syscall : Type :=
  | Mkdir (p : path)
  | Open (p : path)
  | Write (p : path) (c : content).

(** A printed line is a sequence of pieces: literal text, an [int], a
    [float] formatted with [.2f], or a single character given by its code
    point (the script prints U+00D7 and U+2713). *)
Inductive piece : Type :=
  | Text (s : string)
  | Num (n : Z)
  | Fixed2 (x : Q)
  | Chr (cp : Z).

(** What surrounds the script.  [os_error] is the error (the name of the
    [OSError] subclass) with which the operating system refuses a call for a
    reason outside the tree of files: permissions, a full disk, an I/O
    error.  [print_error] is the exception [print] raises on a line, if any:
    a character the encoding of [sys.stdout] lacks, a closed stream.
    [removes_failed_save] tells whether Pillow removes a file it has created
    when the save fails, as its recent versions do. *)
Record environment : Type := {
  os_error : syscall -> option string;
  print_error : list piece -> option exn;
  removes_failed_save : bool
}.

(** An environment in which nothing goes wrong. *)
Definition quiet : environment := {|
  os_error := fun _ => None;
  print_error := fun _ => None;
  removes_failed_save := true
|}.

(** A terminal whose encoding is Latin-1: it has U+00D7 and lacks
    U+2713. *)
Definition latin1_terminal : environment := {|
  os_error := fun _ => None;
  print_error := fun line =>
    if forallb (fun p => match p with Chr cp => cp <? 256 | _ => true end) line
    then None else Some (BackendError "UnicodeEncodeError");
  removes_failed_save := true
|}.

(** Code with access to the file system: it transforms the file system
    and returns or raises. *)
Record io (A : Type) : Type := IO { run : filesystem -> filesystem * result A }.
Arguments IO {A} run.
Arguments run {A} i fs.

#[global] Instance io_ret : MRet io := fun _ a => IO (fun fs => (fs, Ok a)).
#[global] Instance io_bind : MBind io := fun _ _ k m =>
  IO (fun fs =>
        match run m fs with
        | (fs', Ok a) => run (k a) fs'
        | (fs', Raise e) => (fs', Raise e)
        end).

(** A computation that does not touch the file system. *)
Definition lift {A : Type} (r : result A) : io A := IO (fun fs => (fs, r)).

Definition is_FileNotFoundError (e : exn) : bool :=
  match e with
  | BackendError msg => String.eqb msg "FileNotFoundError"
  | _ => false
  end.

Section Files.
Variable env : environment.

(** [print(line)]. *)
Definition say (line : list piece) : result () :=
  match print_error env line with
  | Some e => Raise e
  | None => Ok ()
  end.

Definition print (line : list piece) : io () := lift (say line).

(** [os.mkdir(p)]: one directory, in a parent that is a directory. *)
Definition os_mkdir (p : path) : io () :=
  IO (fun fs =>
        match os_error env (Mkdir p) with
        | Some e => (fs, Raise (BackendError e))
        | None =>
            match node_at fs (parent p) with
            | None => (fs, Raise (BackendError "FileNotFoundError"))
            | Some (File _ _) => (fs, Raise (BackendError "NotADirectoryError"))
            | Some Directory =>
                match node_at fs p with
                | Some _ => (fs, Raise (BackendError "FileExistsError"))
                | None => (<[p := Directory]> fs, Ok ())
                end
            end
        end).

(** [Path.mkdir(parents=False, exist_ok=True)]: any [OSError] other than
    [FileNotFoundError] is dropped when the path is a directory. *)
Definition mkdir_exist_ok (p : path) : io () :=
  IO (fun fs =>
        match run (os_mkdir p) fs with
        | (fs', Ok _) => (fs', Ok ())
        | (_, Raise e) =>
            if is_FileNotFoundError e then (fs, Raise e)
            else if is_dir fs p then (fs, Ok ()) else (fs, Raise e)
        end).

(** [Path.mkdir(parents=True, exist_ok=True)] on the path with the given
    anchor and components, the components in reverse: on
    [FileNotFoundError] the parent is created in the same way and the
    directory itself after it. *)
Fixpoint mkdir_parents (anchor : string) (reversed : list string) : io () :=
  let p := (anchor, List.rev reversed) in
  IO (fun fs =>
        match run (os_mkdir p) fs with
        | (fs', Ok _) => (fs', Ok ())
        | (_, Raise e) =>
            if is_FileNotFoundError e then
              match reversed with
              | [] => (fs, Raise e)
              | _ :: up =>
                  match run (mkdir_parents anchor up) fs with
                  | (fs1, Ok _) => run (mkdir_exist_ok p) fs1
                  | (fs1, Raise e1) => (fs1, Raise e1)
                  end
              end
            else if is_dir fs p then (fs, Ok ()) else (fs, Raise e)
        end).

Definition mkdir (p : path) : io () := mkdir_parents p.1 (List.rev p.2).

(** The error of opening [p] for writing, if any: refused by the
    operating system, no directory to hold the file, a directory or a
    read-only file in its place. *)
Definition open_error (fs : filesystem) (p : path) : option exn :=
  match os_error env (Open p) with
  | Some e => Some (BackendError e)
  | None =>
      match node_at fs (parent p) with
      | None => Some (BackendError "FileNotFoundError")
      | Some (File _ _) => Some (BackendError "NotADirectoryError")
      | Some Directory =>
          match node_at fs p with
          | Some Directory => Some (BackendError "IsADirectoryError")
          | Some (File false _) => Some (BackendError "PermissionError")
          | _ => None
          end
      end
  end.

(** [open(p, 'w')]: the file is created or truncated; the handle is the
    path. *)
Definition open_w (p : path) : io path :=
  IO (fun fs =>
        match open_error fs p with
        | Some e => (fs, Raise e)
        | None => (<[p := File true EmptyFile]> fs, Ok p)
        end).

(** What a failed save leaves at the path, after the file has been opened
    for writing: nothing when Pillow created the file and removes it, an
    incomplete file otherwise. *)
Definition after_failed_save (fs : filesystem) (p : path) : filesystem :=
  match fs !! p with
  | None => if removes_failed_save env then fs else <[p := File true Partial]> fs
  | Some _ => <[p := File true Partial]> fs
  end.

(** [image.save(p)]: the file is opened for writing, then the encoder
    refuses an image without pixels, then the data is written. *)
Definition Image_save (img : image rgba) (p : path) : io () :=
  IO (fun fs =>
        match open_error fs p with
        | Some e => (fs, Raise e)
        | None =>
            if (width img =? 0) || (height img =? 0) then
              (after_failed_save fs p, Raise ValueError)
            else
              match os_error env (Write p (PngImage img)) with
              | Some e => (after_failed_save fs p, Raise (BackendError e))
              | None => (<[p := File true (PngImage img)]> fs, Ok ())
              end
        end).

(** [json.dump(doc, f)] and the close of the [with] block: a write that
    fails leaves the file incomplete. *)
Definition json_dump (doc : output_data) (f : path) : io () :=
  IO (fun fs =>
        match os_error env (Write f (JsonDocument doc)) with
        | Some e => (<[f := File true Partial]> fs, Raise (BackendError e))
        | None => (<[f := File true (JsonDocument doc)]> fs, Ok ())
        end).
End Files.

(** ** The generation run *)

Definition ASCII_CHARS : list Z := seqZ 32 (127 - 32).
Definition CYRILLIC_UPPER : list Z := seqZ 1040 (1072 - 1040).
Definition CYRILLIC_LOWER : list Z := seqZ 1072 (1104 - 1072).
Definition SPECIAL_CYRILLIC : list Z := [1025; 1105].

Definition DEFAULT_CHARSET : list Z :=
  ASCII_CHARS ++ SPECIAL_CYRILLIC ++ CYRILLIC_UPPER ++ CYRILLIC_LOWER.
Definition DEFAULT_COLUMNS : Z := 16.

(** ['='*50]. *)
Definition rule : string :=
  "==================================================".

Section Pipeline.
(** The float arithmetic, Pillow's compositing rule,
    [ImageFont.truetype(path, size)] and the environment are given. *)
Variable fl : rounding.
Variable blend : Z -> Z -> Z.
Variable truetype : string -> Z -> result Font.
Variable env : environment.

Definition generate_atlas (font_path : string) (target_size : Z)
    (style : string) (output_dir : string) (columns : Z)
    (codepoints : option (list Z)) : io () :=
  let codepoints := default DEFAULT_CHARSET codepoints in
  let output_dir := Path output_dir in
  _ ← mkdir env output_dir;
  _ ← print env [Chr 10; Text rule];
  _ ← print env [Text "Generating "; Text style; Text " font atlas"];
  _ ← print env [Text "Font: "; Text font_path];
  _ ← print env [Text "Target size: "; Num target_size; Chr 215;
                 Num target_size];
  _ ← print env [Text "Characters: "; Num (Z.of_nat (length codepoints))];
  _ ← print env [Text rule; Chr 10];
  let base_font_size := 16 in
  font ← lift (truetype font_path base_font_size);
  '(max_width, max_above, max_below) ← lift (measure_font font codepoints);
  _ ← print env [Text "Natural dimensions:"];
  _ ← print env [Text "  Width: "; Num max_width; Text "px"];
  _ ← print env [Text "  Above baseline: "; Num max_above; Text "px"];
  _ ← print env [Text "  Below baseline: "; Num max_below; Text "px"];
  '(font_size, glyph_width, glyph_height, baseline_offset, scale) ←
    lift (calculate_dimensions fl max_width max_above max_below target_size
            base_font_size);
  _ ← print env [Chr 10; Text "Scaled dimensions:"];
  _ ← print env [Text "  Font size: "; Num font_size; Text "pt"];
  _ ← print env [Text "  Glyph box: "; Num glyph_width; Chr 215;
                 Num glyph_height; Text "px"];
  _ ← print env [Text "  Baseline offset: "; Num baseline_offset; Text "px"];
  _ ← print env [Text "  Scale factor: "; Fixed2 scale; Text "x"];
  font ← lift (truetype font_path font_size);
  _ ← print env [Chr 10; Text "Rendering atlas..."];
  '(atlas_gray, metadata) ←
    lift (create_atlas blend font codepoints glyph_width glyph_height
            baseline_offset columns);
  atlas_rgba ← lift (convert_to_rgba atlas_gray style);
  rows ← lift (py_floordiv (Z.of_nat (length codepoints) + columns - 1) columns);
  _ ← print env [Text "  Atlas size: "; Num (width atlas_rgba); Chr 215;
                 Num (height atlas_rgba); Text "px"];
  _ ← print env [Text "  Grid: "; Num columns; Text " columns "; Chr 215;
                 Text " "; Num rows; Text " rows"];
  let atlas_path := joinpath output_dir "atlas.png" in
  let metadata_path := joinpath output_dir "atlas.json" in
  _ ← Image_save env atlas_rgba atlas_path;
  let output_data := {|
    glyphs := metadata;
    metrics := {|
      m_glyph_width := glyph_width;
      m_glyph_height := glyph_height;
      m_baseline_offset := baseline_offset;
      m_columns := columns;
      m_target_size := target_size;
      m_font_size := font_size;
      m_scale_factor := scale;
      m_style := style
    |}
  |} in
  f ← open_w env metadata_path;
  _ ← json_dump env output_data f;
  _ ← print env [Chr 10; Text "Output:"];
  _ ← print env [Text "  Atlas: "; Text (path_str atlas_path)];
  _ ← print env [Text "  Metadata: "; Text (path_str metadata_path)];
  _ ← print env [Chr 10; Text rule];
  _ ← print env [Chr 10003; Text " Done!"];
  print env [Text rule; Chr 10].
End Pipeline.

(** A font loader for the examples: a size must be positive. *)
Definition demo_truetype (path : string) (size : Z) : result Font :=
  if size <=? 0 then Raise ValueError else Ok demo_font.

(** An output directory in which the name [atlas.json] is taken by a
    directory. *)
Definition blocked_fs : filesystem :=
  {[ Path "out" := Directory; Path "out/atlas.json" := Directory ]}.

(** ** The stages of a run *)

Section PipelineStages.
Variable fl : rounding.
Variable blend : Z -> Z -> Z.
Variable truetype : string -> Z -> result Font.
Variable env : environment.

(** Steps 1 to 5 of [generate_atlas] with their [print] calls, and the
    metadata document of step 6: everything the run does between creating
    the output directory and writing the two files. *)
Definition atlas_outputs (font_path : string) (target_size : Z)
    (style : string) (columns : Z) (codepoints : list Z)
    : result (image rgba * output_data) :=
  _ ← say env [Chr 10; Text rule];
  _ ← say env [Text "Generating "; Text style; Text " font atlas"];
  _ ← say env [Text "Font: "; Text font_path];
  _ ← say env [Text "Target size: "; Num target_size; Chr 215;
               Num target_size];
  _ ← say env [Text "Characters: "; Num (Z.of_nat (length codepoints))];
  _ ← say env [Text rule; Chr 10];
  let base_font_size := 16 in
  font ← truetype font_path base_font_size;
  '(max_width, max_above, max_below) ← measure_font font codepoints;
  _ ← say env [Text "Natural dimensions:"];
  _ ← say env [Text "  Width: "; Num max_width; Text "px"];
  _ ← say env [Text "  Above baseline: "; Num max_above; Text "px"];
  _ ← say env [Text "  Below baseline: "; Num max_below; Text "px"];
  '(font_size, glyph_width, glyph_height, baseline_offset, scale) ←
    calculate_dimensions fl max_width max_above max_below target_size
      base_font_size;
  _ ← say env [Chr 10; Text "Scaled dimensions:"];
  _ ← say env [Text "  Font size: "; Num font_size; Text "pt"];
  _ ← say env [Text "  Glyph box: "; Num glyph_width; Chr 215;
               Num glyph_height; Text "px"];
  _ ← say env [Text "  Baseline offset: "; Num baseline_offset; Text "px"];
  _ ← say env [Text "  Scale factor: "; Fixed2 scale; Text "x"];
  font ← truetype font_path font_size;
  _ ← say env [Chr 10; Text "Rendering atlas..."];
  '(atlas_gray, metadata) ←
    create_atlas blend font codepoints glyph_width glyph_height
      baseline_offset columns;
  atlas_rgba ← convert_to_rgba atlas_gray style;
  rows ← py_floordiv (Z.of_nat (length codepoints) + columns - 1) columns;
  _ ← say env [Text "  Atlas size: "; Num (width atlas_rgba); Chr 215;
               Num (height atlas_rgba); Text "px"];
  _ ← say env [Text "  Grid: "; Num columns; Text " columns "; Chr 215;
               Text " "; Num rows; Text " rows"];
  Ok (atlas_rgba,
      {| glyphs := metadata;
         metrics := {|
           m_glyph_width := glyph_width;
           m_glyph_height := glyph_height;
           m_baseline_offset := baseline_offset;
           m_columns := columns;
           m_target_size := target_size;
           m_font_size := font_size;
           m_scale_factor := scale;
           m_style := style
         |}
      |}).

(** The [print] calls that end a run, after both files are written. *)
Definition closing_lines (atlas_path metadata_path : path) : result () :=
  _ ← say env [Chr 10; Text "Output:"];
  _ ← say env [Text "  Atlas: "; Text (path_str atlas_path)];
  _ ← say env [Text "  Metadata: "; Text (path_str metadata_path)];
  _ ← say env [Chr 10; Text rule];
  _ ← say env [Chr 10003; Text " Done!"];
  say env [Text rule; Chr 10].
End PipelineStages.

(** ** The command line *)

(** [--style] accepts the two [choices] only. *)
Inductive style_choice : Type := style_solid | style_smooth.

Definition style_tag (s : style_choice) : string :=
  match s with
  | style_solid => "solid"
  | style_smooth => "smooth"
  end.

(** The namespace [parse_args()] returns. *)
Record cli_args : Type := {
  arg_font : string;
  arg_size : Z;
  arg_style : style_choice;
  arg_output : string;
  arg_columns : Z;
  arg_ascii_only : bool
}.

(** The namespace of a command line that gives [--font] only. *)
Definition default_args (font : string) : cli_args := {|
  arg_font := font;
  arg_size := 32;
  arg_style := style_solid;
  arg_output := ".";
  arg_columns := DEFAULT_COLUMNS;
  arg_ascii_only := false
|}.

Section CommandLine.
Variable fl : rounding.
Variable blend : Z -> Z -> Z.
Variable truetype : string -> Z -> result Font.
Variable env : environment.

(** [main()] from the parsed arguments on. *)
Definition main (args : cli_args) : io () :=
  let codepoints :=
    if arg_ascii_only args then ASCII_CHARS else DEFAULT_CHARSET in
  generate_atlas fl blend truetype env (arg_font args) (arg_size args)
    (style_tag (arg_style args)) (arg_output args) (arg_columns args)
    (Some codepoints).
End CommandLine.

(** ** The example script *)

Definition FONT_FILE : string := "NotoSansMono-Regular.ttf".
Definition OUTPUT_DIR : path := Path "../../assets/fonts".

Section ExampleScript.
Variable fl : rounding.
Variable blend : Z -> Z -> Z.
Variable truetype : string -> Z -> result Font.
Variable env : environment.

(** The three calls of [example.py], each with the default column count,
    and its [print] calls; an exception ends the script.  The script hands
    [generate_atlas] a [Path], which [Path(output_dir)] returns as it is. *)
Definition example : io () :=
  _ ← print env [Text "Generating font atlases for Wave engine..."; Chr 10];
  _ ← print env [Text "1. Low-res pixelated (16px)"];
  _ ← generate_atlas fl blend truetype env FONT_FILE 16 "solid"
        (path_str (joinpath OUTPUT_DIR "pixelated")) DEFAULT_COLUMNS
        (Some (seqZ 32 (127 - 32)));
  _ ← print env [Chr 10; Text "2. Medium-res clean (24px)"];
  _ ← generate_atlas fl blend truetype env FONT_FILE 24 "solid"
        (path_str (joinpath OUTPUT_DIR "clean")) DEFAULT_COLUMNS None;
  _ ← print env [Chr 10; Text "3. High-res smooth (32px)"];
  _ ← generate_atlas fl blend truetype env FONT_FILE 32 "smooth"
        (path_str (joinpath OUTPUT_DIR "smooth")) DEFAULT_COLUMNS None;
  _ ← print env [Chr 10; Text rule];
  _ ← print env [Chr 10003; Text " Generated 3 font atlases!"];
  _ ← print env [Text rule];
  _ ← print env [Chr 10; Text "Next steps:"];
  _ ← print env [Text "1. Check output in ../../assets/fonts/"];
  _ ← print env [Text "2. Use VoxelText class in TypeScript to render"];
  print env [Text "3. See wave/src/voxel-text.ts for API"].
End ExampleScript.

(** A font of glyphs one pixel wide that stand 16 pixels above the
    baseline, with its loader. *)
Definition slim_font : Font := {|
  textbbox := fun _ => Ok (0, -16, 1, 0);
  getmask := fun _ => Ok (GlyphMask 0 (-16) (Image 1 16 (replicate 16 255)))
|}.

Definition slim_truetype (path : string) (size : Z) : result Font :=
  Ok slim_font.

(** * Properties *)

(** ** Python numbers *)

Lemma py_int_floor (x : Q) : (0 <= x)%Q -> py_int x = Qfloor x.
Proof.
  destruct x as [n d]. unfold Qle, py_int, Qfloor. simpl. intros Hn.
  apply Z.quot_div_nonneg; lia.
Qed.

Lemma py_int_nonneg (x : Q) : (0 <= x)%Q -> 0 <= py_int x.
Proof.
  intros Hx. rewrite py_int_floor by assumption.
  change 0 with (Qfloor 0). now apply Qfloor_resp_le.
Qed.

Lemma inject_Z_nonneg (n : Z) : 0 <= n -> (0 <= inject_Z n)%Q.
Proof. intros Hn. change 0%Q with (inject_Z 0). now rewrite <- Zle_Qle. Qed.

Lemma inject_Z_pos (n : Z) : 0 < n -> (0 < inject_Z n)%Q.
Proof. intros Hn. change 0%Q with (inject_Z 0). now rewrite <- Zlt_Qlt. Qed.

Lemma scale_nonneg (t d : Z) : 0 <= t -> 0 < d -> (0 <= inject_Z t / inject_Z d)%Q.
Proof.
  intros Ht Hd. apply Qle_shift_div_l; [now apply inject_Z_pos|].
  rewrite Qmult_0_l. now apply inject_Z_nonneg.
Qed.

Lemma scale_pos (t d : Z) : 0 < t -> 0 < d -> (0 < inject_Z t / inject_Z d)%Q.
Proof.
  intros Ht Hd. apply Qlt_shift_div_l; [now apply inject_Z_pos|].
  rewrite Qmult_0_l. now apply inject_Z_pos.
Qed.

(** ** GridGeometryCalculator over exact arithmetic *)

(** What [calculate_dimensions] evaluates to when nothing is rounded. *)
Lemma calculate_dimensions_exact (mw ma mb t b : Z) :
  Z.max mw (ma + mb) <> 0 ->
  let scale := (inject_Z t / inject_Z (Z.max mw (ma + mb)))%Q in
  calculate_dimensions exact mw ma mb t b =
    Ok (py_int (inject_Z b * scale), py_int (inject_Z mw * scale),
        py_int (inject_Z (ma + mb) * scale), py_int (inject_Z ma * scale),
        scale).
Proof.
  intros Hd scale. unfold calculate_dimensions, int_truediv.
  destruct (Z.eqb_spec (Z.max mw (ma + mb)) 0) as [E|_]; [contradiction|].
  reflexivity.
Qed.


(** ** GridGeometryCalculator over a rounding arithmetic *)

(** Replace a rational expression by one equal to it as a fraction. *)
Ltac qreplace a b :=
  let E := fresh "E" in assert (E : Qeq a b) by ring; rewrite E; clear E.
Ltac qreplace_in a b H :=
  let E := fresh "E" in assert (E : Qeq a b) by ring; rewrite E in H; clear E.

Lemma Qmult_le_r' (x y z : Q) : (x <= y -> 0 <= z -> x * z <= y * z)%Q.
Proof. intros. now apply Qmult_le_compat_r. Qed.

Lemma accurate_interval fl u lo hi x :
  accurate fl u lo hi -> (x == 0 \/ lo <= x <= hi)%Q ->
  exists r, fl x = Some r /\ (x * (1 - u) <= r <= x * (1 + u))%Q.
Proof.
  intros Hacc Hx. destruct (Hacc x Hx) as (r & Hr & Hb).
  exists r. split; [assumption|].
  apply Qabs_Qle_condition in Hb. lra.
Qed.

Lemma exact_accurate lo hi : accurate exact 0 lo hi.
Proof.
  intros x _. exists x. split; [reflexivity|].
  apply Qabs_Qle_condition. lra.
Qed.

Lemma cube_up (u : Q) : (0 <= u <= 1 # 4 -> (1 + u) * (1 + u) * (1 + u) <= 1 + 4 * u)%Q.
Proof.
  intros Hu.
  assert (u * u <= (1 # 4) * u)%Q by (apply Qmult_le_r'; lra).
  assert (u * u * u <= (1 # 4) * u * u)%Q by (apply Qmult_le_r'; lra).
  qreplace ((1 + u) * (1 + u) * (1 + u))%Q (1 + 3 * u + 3 * (u * u) + u * u * u)%Q.
  lra.
Qed.

Lemma cube_down (u : Q) : (0 <= u <= 1 # 4 -> 1 - 3 * u <= (1 - u) * (1 - u) * (1 - u))%Q.
Proof.
  intros Hu.
  assert (u * u <= (1 # 4) * u)%Q by (apply Qmult_le_r'; lra).
  assert (u * u * u <= (1 # 4) * u * u)%Q by (apply Qmult_le_r'; lra).
  assert (0 <= u * u)%Q by (apply Qmult_le_0_compat; lra).
  qreplace ((1 - u) * (1 - u) * (1 - u))%Q (1 - 3 * u + 3 * (u * u) - u * u * u)%Q.
  lra.
Qed.

(** Three roundings in a row, each of relative error at most [u], stay
    within [4 u T] of the exact value [T]. *)
Lemma three_roundings_up (T M W S F R u : Q) :
  (0 <= u <= 1 # 4 -> 0 <= T -> 0 < M -> 0 <= W <= M ->
   S * M <= T * (1 + u) -> 0 <= S -> 0 <= F <= W * (1 + u) -> R <= F * S * (1 + u) ->
   R <= T + 4 * u * T)%Q.
Proof.
  intros Hu HT HM HW HS HS0 HF HR.
  assert (H1 : (F * S <= W * (1 + u) * S)%Q) by (apply Qmult_le_r'; lra).
  assert (H2 : (W * (1 + u) * S <= S * M * (1 + u))%Q).
  { qreplace (W * (1 + u) * S)%Q (W * (S * (1 + u)))%Q.
    qreplace (S * M * (1 + u))%Q (M * (S * (1 + u)))%Q.
    apply Qmult_le_r'; [lra|]. apply Qmult_le_0_compat; lra. }
  assert (H3 : (S * M * (1 + u) <= T * (1 + u) * (1 + u))%Q)
    by (apply Qmult_le_r'; lra).
  assert (H4 : (F * S * (1 + u) <= T * (1 + u) * (1 + u) * (1 + u))%Q)
    by (apply Qmult_le_r'; lra).
  assert (H5 : (T * (1 + u) * (1 + u) * (1 + u) <= T + 4 * u * T)%Q).
  { pose proof (cube_up u Hu) as Hc.
    qreplace (T * (1 + u) * (1 + u) * (1 + u))%Q ((1 + u) * (1 + u) * (1 + u) * T)%Q.
    qreplace (T + 4 * u * T)%Q ((1 + 4 * u) * T)%Q.
    apply Qmult_le_r'; lra. }
  lra.
Qed.

Lemma three_roundings_down (T M S F R u : Q) :
  (0 <= u <= 1 # 4 -> 0 <= T -> 0 < M ->
   T * (1 - u) <= S * M -> 0 <= S -> M * (1 - u) <= F -> F * S * (1 - u) <= R ->
   T - 3 * u * T <= R)%Q.
Proof.
  intros Hu HT HM HS HS0 HF HR.
  assert (H1 : (M * (1 - u) * S <= F * S)%Q) by (apply Qmult_le_r'; lra).
  assert (H2 : (T * (1 - u) * (1 - u) <= S * M * (1 - u))%Q)
    by (apply Qmult_le_r'; lra).
  assert (H3 : (T * (1 - u) * (1 - u) * (1 - u) <= F * S * (1 - u))%Q).
  { apply Qmult_le_r'; [|lra].
    qreplace_in (S * M * (1 - u))%Q (M * (1 - u) * S)%Q H2.
    lra. }
  assert (H5 : (T - 3 * u * T <= T * (1 - u) * (1 - u) * (1 - u))%Q).
  { pose proof (cube_down u Hu) as Hc.
    qreplace (T * (1 - u) * (1 - u) * (1 - u))%Q ((1 - u) * (1 - u) * (1 - u) * T)%Q.
    qreplace (T - 3 * u * T)%Q ((1 - 3 * u) * T)%Q.
    apply Qmult_le_r'; lra. }
  lra.
Qed.

Lemma Qmult_le_mono (a b c d : Q) :
  (0 <= a <= b -> 0 <= c <= d -> a * c <= b * d)%Q.
Proof.
  intros Hab Hcd.
  apply Qle_trans with (b * c)%Q.
  - apply Qmult_le_r'; lra.
  - rewrite !(Qmult_comm b). apply Qmult_le_r'; lra.
Qed.

Lemma Qfloor_lt_succ (x : Q) (t : Z) : (x < inject_Z t + 1)%Q -> Qfloor x <= t.
Proof.
  intros Hx. pose proof (Qfloor_le x) as Hf.
  assert (Hlt : (inject_Z (Qfloor x) < inject_Z (t + 1))%Q).
  { rewrite inject_Z_plus. change (inject_Z 1) with 1%Q. lra. }
  rewrite <- Zlt_Qlt in Hlt. lia.
Qed.

Lemma Qfloor_gt_pred (x : Q) (t : Z) : (inject_Z t - 1 < x)%Q -> t - 1 <= Qfloor x.
Proof.
  intros Hx. pose proof (Qlt_floor x) as Hf.
  assert (Hlt : (inject_Z (t - 1) < inject_Z (Qfloor x + 1))%Q).
  { unfold Z.sub. rewrite inject_Z_plus. change (inject_Z (- (1))) with (- (1))%Q. lra. }
  rewrite <- Zlt_Qlt in Hlt. lia.
Qed.

Section RoundedGeometry.
Variables (fl : rounding) (u lo hi : Q) (B : Z).
Hypothesis u_nonneg : (0 <= u)%Q.
Hypothesis B_pos : 1 <= B.
Hypothesis u_small : (4 * u * inject_Z B < 1)%Q.
Hypothesis lo_pos : (0 < lo)%Q.
Hypothesis lo_small : (2 * lo * inject_Z B <= 1)%Q.
Hypothesis hi_large : (2 * inject_Z B * inject_Z B <= hi)%Q.
Hypothesis fl_accurate : accurate fl u lo hi.

Local Lemma Bq_ge_1 : (1 <= inject_Z B)%Q.
Proof. change 1%Q with (inject_Z 1). now rewrite <- Zle_Qle. Qed.

Local Lemma u_quarter : (0 <= u <= 1 # 4)%Q.
Proof.
  pose proof Bq_ge_1. split; [assumption|].
  assert ((4 * u) * 1 <= (4 * u) * inject_Z B)%Q
    by (apply Qmult_le_mono; lra).
  lra.
Qed.

Local Lemma lo_le_1 : (2 * lo <= 1)%Q.
Proof.
  pose proof Bq_ge_1.
  assert ((2 * lo) * 1 <= (2 * lo) * inject_Z B)%Q
    by (apply Qmult_le_mono; lra).
  lra.
Qed.

Local Lemma hi_ge_B : (2 * inject_Z B <= hi)%Q.
Proof.
  pose proof Bq_ge_1.
  assert ((2 * inject_Z B) * 1 <= (2 * inject_Z B) * inject_Z B)%Q
    by (apply Qmult_le_mono; lra).
  lra.
Qed.

Local Lemma in_range (n : Z) : 1 <= n <= B -> (1 <= inject_Z n <= inject_Z B)%Q.
Proof.
  intros [H1 H2]. split.
  - change 1%Q with (inject_Z 1). now rewrite <- Zle_Qle.
  - now rewrite <- Zle_Qle.
Qed.

Ltac geometry_facts :=
  pose proof Bq_ge_1 as HBq; pose proof u_quarter as Huq;
  pose proof lo_le_1 as Hlo1; pose proof hi_ge_B as HhiB.

Lemma float_of_int_accurate (n : Z) :
  0 <= n <= B ->
  exists f, float_of_int fl n = Some f /\
    (inject_Z n * (1 - u) <= f <= inject_Z n * (1 + u))%Q.
Proof.
  intros Hn. geometry_facts. unfold float_of_int.
  destruct (accurate_interval fl u lo hi (inject_Z n) fl_accurate)
    as (f & Hf & Hb).
  { destruct (Z.eq_dec n 0) as [->|Hn0]; [left; reflexivity|right].
    pose proof (in_range n ltac:(lia)). lra. }
  exists f. split; assumption.
Qed.

(** The quotient [t / m] of two sizes in range is rounded to a positive
    scale [s] with [s * m] within a relative [u] of [t]. *)
Lemma int_truediv_accurate (t m : Z) :
  1 <= t <= B -> 1 <= m <= B ->
  exists s, int_truediv fl t m = Ok s /\
    (inject_Z t * (1 - u) <= s * inject_Z m <= inject_Z t * (1 + u))%Q /\
    (2 * lo * (1 - u) <= s <= inject_Z B * (1 + u))%Q.
Proof.
  intros Ht Hm. geometry_facts. unfold int_truediv.
  destruct (Z.eqb_spec m 0) as [E|_]; [lia|].
  pose proof (in_range t Ht) as HT. pose proof (in_range m Hm) as HM.
  set (X := (inject_Z t / inject_Z m)%Q).
  assert (HX : (X * inject_Z m == inject_Z t)%Q) by (unfold X; field; lra).
  assert (HX0 : (0 <= X)%Q).
  { unfold X. apply Qle_shift_div_l; lra. }
  assert (HXB : (X * inject_Z m <= X * inject_Z B)%Q)
    by (apply Qmult_le_mono; lra).
  assert (HX1 : (X * 1 <= X * inject_Z m)%Q)
    by (apply Qmult_le_mono; lra).
  assert (HXlo : (2 * lo <= X)%Q).
  { apply (Qmult_le_r _ _ (inject_Z B)); lra. }
  destruct (accurate_interval fl u lo hi X fl_accurate) as (s & Hs & Hb).
  { right. lra. }
  exists s. rewrite Hs. split; [reflexivity|].
  assert (Hlow : (X * (1 - u) * inject_Z m <= s * inject_Z m)%Q)
    by (apply Qmult_le_r'; lra).
  assert (Hup : (s * inject_Z m <= X * (1 + u) * inject_Z m)%Q)
    by (apply Qmult_le_r'; lra).
  qreplace_in (X * (1 - u) * inject_Z m)%Q (X * inject_Z m * (1 - u))%Q Hlow.
  qreplace_in (X * (1 + u) * inject_Z m)%Q (X * inject_Z m * (1 + u))%Q Hup.
  rewrite HX in Hlow, Hup.
  assert ((2 * lo) * (1 - u) <= X * (1 - u))%Q by (apply Qmult_le_r'; lra).
  assert (X * (1 + u) <= inject_Z B * (1 + u))%Q by (apply Qmult_le_r'; lra).
  repeat split; lra.
Qed.

(** [n * s] for a size [n] in range and a scale [s] as above. *)
Lemma float_mul_int_accurate (n : Z) (s : Q) :
  0 <= n <= B ->
  (2 * lo * (1 - u) <= s <= inject_Z B * (1 + u))%Q ->
  exists f p, float_mul_int fl n s = Some p /\
    (inject_Z n * (1 - u) <= f <= inject_Z n * (1 + u))%Q /\
    (f * s * (1 - u) <= p <= f * s * (1 + u))%Q /\ (0 <= p)%Q.
Proof.
  intros Hn Hs. geometry_facts. unfold float_mul_int.
  destruct (float_of_int_accurate n Hn) as (f & Hf & Hfb).
  rewrite Hf.
  assert (Hs0 : (0 < s)%Q).
  { assert (0 < (2 * lo) * (1 - u))%Q by (apply Qmult_lt_0_compat; lra). lra. }
  assert (Hrange : (f * s == 0 \/ lo <= f * s <= hi)%Q).
  { destruct (Z.eq_dec n 0) as [->|Hn0].
    - left. assert (Hz : (f == 0)%Q) by (change (inject_Z 0) with 0%Q in Hfb; lra).
      rewrite Hz. ring.
    - right. pose proof (in_range n ltac:(lia)) as HN.
      assert (Hf1 : (1 * (1 - u) <= inject_Z n * (1 - u))%Q)
        by (apply Qmult_le_r'; lra).
      assert (Hf2 : (inject_Z n * (1 + u) <= inject_Z B * (1 + u))%Q)
        by (apply Qmult_le_r'; lra).
      assert (Hlo2 : ((3 # 4) * ((3 # 2) * lo) <= f * s)%Q).
      { apply Qmult_le_mono; [lra|].
        assert ((2 * lo) * (3 # 4) <= (2 * lo) * (1 - u))%Q
          by (apply Qmult_le_mono; lra).
        lra. }
      assert (Hhi2 : (f * s <= (inject_Z B * (1 + u)) * (inject_Z B * (1 + u)))%Q)
        by (apply Qmult_le_mono; lra).
      assert (Hsq : ((1 + u) * (1 + u) <= 2)%Q).
      { assert ((1 + u) * (1 + u) <= (5 # 4) * (5 # 4))%Q
          by (apply Qmult_le_mono; lra).
        lra. }
      assert (Hbb : (0 <= inject_Z B * inject_Z B)%Q)
        by (apply Qmult_le_0_compat; lra).
      assert (Huu : (0 <= (1 + u) * (1 + u))%Q)
        by (apply Qmult_le_0_compat; lra).
      assert (Hhi3 : ((inject_Z B * inject_Z B) * ((1 + u) * (1 + u))
                      <= (inject_Z B * inject_Z B) * 2)%Q)
        by (apply Qmult_le_mono; lra).
      qreplace_in ((inject_Z B * (1 + u)) * (inject_Z B * (1 + u)))%Q
                  ((inject_Z B * inject_Z B) * ((1 + u) * (1 + u)))%Q Hhi2.
      lra. }
  destruct (accurate_interval fl u lo hi (f * s)%Q fl_accurate Hrange)
    as (p & Hp & Hpb).
  exists f, p. split; [exact Hp|].
  split; [assumption|]. split; [assumption|].
  assert (0 <= f)%Q.
  { assert (0 <= inject_Z n * (1 - u))%Q.
    { apply Qmult_le_0_compat; [apply inject_Z_nonneg; lia|lra]. }
    lra. }
  assert (0 <= f * s * (1 - u))%Q.
  { repeat apply Qmult_le_0_compat; lra. }
  lra.
Qed.
(** A size [n] no larger than the measured [m] is scaled to at most the
    target [t]; [m] itself is scaled to [t] or [t - 1]. *)
Lemma float_mul_int_within (t m n : Z) (s : Q) :
  1 <= t <= B -> 1 <= m <= B -> 0 <= n <= m ->
  (inject_Z t * (1 - u) <= s * inject_Z m <= inject_Z t * (1 + u))%Q ->
  (2 * lo * (1 - u) <= s <= inject_Z B * (1 + u))%Q ->
  exists p, float_mul_int fl n s = Some p /\ (0 <= p)%Q /\
    0 <= Qfloor p <= t /\ (n = m -> t - 1 <= Qfloor p).
Proof.
  intros Ht Hm Hn Hsm Hs. geometry_facts.
  destruct (float_mul_int_accurate n s ltac:(lia) Hs)
    as (f & p & Hg & Hf & Hp & Hp0).
  pose proof (in_range t Ht) as HT. pose proof (in_range m Hm) as HM.
  assert (HN : (0 <= inject_Z n <= inject_Z m)%Q).
  { split; [apply inject_Z_nonneg; lia|]. rewrite <- Zle_Qle. lia. }
  assert (Hs0 : (0 <= s)%Q).
  { assert (0 <= (2 * lo) * (1 - u))%Q by (apply Qmult_le_0_compat; lra). lra. }
  assert (Hf0 : (0 <= f)%Q).
  { assert (0 <= inject_Z n * (1 - u))%Q by (apply Qmult_le_0_compat; lra). lra. }
  assert (HuT : (4 * u * inject_Z t <= 4 * u * inject_Z B)%Q)
    by (apply Qmult_le_mono; lra).
  exists p. split; [assumption|]. split; [assumption|].
  split; [split|].
  - change 0 with (Qfloor 0). now apply Qfloor_resp_le.
  - apply Qfloor_lt_succ.
    pose proof (three_roundings_up (inject_Z t) (inject_Z m) (inject_Z n) s f p u)
      as Hup.
    lapply Hup; [clear Hup; intros Hup|lra].
    lapply Hup; [clear Hup; intros Hup|lra].
    lapply Hup; [clear Hup; intros Hup|lra].
    lapply Hup; [clear Hup; intros Hup|lra].
    lapply Hup; [clear Hup; intros Hup|lra].
    lapply Hup; [clear Hup; intros Hup|lra].
    lapply Hup; [clear Hup; intros Hup|lra].
    lapply Hup; [clear Hup; intros Hup|lra].
    lra.
  - intros ->. apply Qfloor_gt_pred.
    pose proof (three_roundings_down (inject_Z t) (inject_Z m) s f p u) as Hdn.
    lapply Hdn; [clear Hdn; intros Hdn|lra].
    lapply Hdn; [clear Hdn; intros Hdn|lra].
    lapply Hdn; [clear Hdn; intros Hdn|lra].
    lapply Hdn; [clear Hdn; intros Hdn|lra].
    lapply Hdn; [clear Hdn; intros Hdn|lra].
    lapply Hdn; [clear Hdn; intros Hdn|lra].
    lapply Hdn; [clear Hdn; intros Hdn|lra].
    lra.
Qed.

(** When [4 u n t < 1], the product [n * s] is so close to the exact
    [n t / m] that its integer part is the exact floor or one less. *)
Lemma float_mul_int_near_exact (t m n : Z) (s p : Q) :
  1 <= t <= B -> 1 <= m <= B -> 0 <= n <= m ->
  (inject_Z t * (1 - u) <= s * inject_Z m <= inject_Z t * (1 + u))%Q ->
  (2 * lo * (1 - u) <= s <= inject_Z B * (1 + u))%Q ->
  (4 * u * inject_Z (m * t) < 1)%Q ->
  float_mul_int fl n s = Some p ->
  n * t / m - 1 <= Qfloor p <= n * t / m.
Proof.
  intros Ht Hm Hn Hsm Hs Hsmall Hp. geometry_facts.
  destruct (float_mul_int_accurate n s ltac:(lia) Hs)
    as (f & p' & Hg & Hf & Hpb & Hp0).
  rewrite Hp in Hg. injection Hg as <-.
  pose proof (in_range t Ht) as HT. pose proof (in_range m Hm) as HM.
  assert (Hs0 : (0 <= s)%Q).
  { assert (0 <= (2 * lo) * (1 - u))%Q by (apply Qmult_le_0_compat; lra). lra. }
  set (q := n * t / m).
  assert (Hq : m * q <= n * t < m * q + m).
  { pose proof (Z.div_mod (n * t) m ltac:(lia)) as E.
    pose proof (Z.mod_pos_bound (n * t) m ltac:(lia)) as Hr. fold q in E. lia. }
  destruct (Z.eq_dec n 0) as [->|Hn0].
  { assert (Hf0 : (f == 0)%Q) by (change (inject_Z 0) with 0%Q in Hf; lra).
    assert (Hp00 : (p == 0)%Q).
    { rewrite Hf0 in Hpb. lra. }
    assert (Qfloor p = 0) as ->.
    { apply Z.le_antisymm.
      - change 0 with (Qfloor 0). apply Qfloor_resp_le. lra.
      - change 0 with (Qfloor 0). apply Qfloor_resp_le. lra. }
    subst q. rewrite Z.mul_0_l, Z.div_0_l by lia. lia. }
  assert (HN : (1 <= inject_Z n <= inject_Z m)%Q).
  { split; [change 1%Q with (inject_Z 1)|]; rewrite <- Zle_Qle; lia. }
  set (W := inject_Z n) in *. set (T := inject_Z t) in *.
  set (M := inject_Z m) in *.
  set (X := (W * T / M)%Q).
  assert (HX : (X * M == W * T)%Q) by (unfold X; field; lra).
  assert (HWT : (0 <= W * T)%Q) by (apply Qmult_le_0_compat; lra).
  assert (HX0 : (0 <= X)%Q) by (unfold X; apply Qle_shift_div_l; lra).
  assert (HsW1 : (s * W <= X * (1 + u))%Q).
  { apply (Qmult_le_r _ _ M); [lra|].
    assert ((s * M) * W <= (T * (1 + u)) * W)%Q by (apply Qmult_le_r'; lra).
    qreplace (s * W * M)%Q (s * M * W)%Q.
    qreplace (X * (1 + u) * M)%Q (X * M * (1 + u))%Q. rewrite HX. lra. }
  assert (HsW2 : (X * (1 - u) <= s * W)%Q).
  { apply (Qmult_le_r _ _ M); [lra|].
    assert ((T * (1 - u)) * W <= (s * M) * W)%Q by (apply Qmult_le_r'; lra).
    qreplace (s * W * M)%Q (s * M * W)%Q.
    qreplace (X * (1 - u) * M)%Q (X * M * (1 - u))%Q. rewrite HX. lra. }
  assert (Hf0 : (0 <= f)%Q).
  { assert (0 <= W * (1 - u))%Q by (apply Qmult_le_0_compat; lra). lra. }
  assert (Hup : (p <= X + 4 * u * X)%Q).
  { apply (three_roundings_up X W W s f p u); lra. }
  assert (Hdn : (X - 3 * u * X <= p)%Q).
  { apply (three_roundings_down X W s f p u); lra. }
  assert (HnT : (W * T <= inject_Z (m * t))%Q).
  { unfold W, T. rewrite <- inject_Z_mult, <- Zle_Qle. nia. }
  assert (HuX : (4 * u * (W * T) < 1)%Q).
  { assert ((4 * u) * (W * T) <= (4 * u) * inject_Z (m * t))%Q
      by (apply Qmult_le_mono; lra).
    lra. }
  assert (HpM1 : (p * M <= W * T + 4 * u * (W * T))%Q).
  { assert (p * M <= (X + 4 * u * X) * M)%Q by (apply Qmult_le_r'; lra).
    qreplace_in ((X + 4 * u * X) * M)%Q (X * M + 4 * u * (X * M))%Q H.
    rewrite HX in H. exact H. }
  assert (HpM2 : (W * T - 3 * u * (W * T) <= p * M)%Q).
  { assert ((X - 3 * u * X) * M <= p * M)%Q by (apply Qmult_le_r'; lra).
    qreplace_in ((X - 3 * u * X) * M)%Q (X * M - 3 * u * (X * M))%Q H.
    rewrite HX in H. exact H. }
  assert (HuX0 : (0 <= u * (W * T))%Q) by (apply Qmult_le_0_compat; lra).
  assert (Hq1 : (W * T + 1 <= (inject_Z q + 1) * M)%Q).
  { unfold W, T, M. change 1%Q with (inject_Z 1).
    rewrite <- inject_Z_mult, <- !inject_Z_plus, <- inject_Z_mult, <- Zle_Qle.
    lia. }
  assert (Hq2 : ((inject_Z q - 1) * M <= W * T - 1)%Q).
  { unfold W, T, M, Qminus. change (- (1))%Q with (inject_Z (- 1)).
    rewrite <- inject_Z_mult, <- !inject_Z_plus, <- inject_Z_mult, <- Zle_Qle.
    lia. }
  split.
  - apply Qfloor_gt_pred. apply (Qmult_lt_r _ _ M); lra.
  - apply Qfloor_lt_succ. apply (Qmult_lt_r _ _ M); lra.
Qed.

(** The geometry computed over a rounding arithmetic of relative error
    [u], for sizes up to [B]: the scale is the rounded quotient, each pixel
    quantity is the integer part of the rounded product, no cell side
    exceeds the target and the larger one is within a pixel of it. *)
Lemma calculate_dimensions_rounded (mw ma mb t b : Z) :
  0 <= mw -> 0 <= ma -> 0 <= mb ->
  1 <= Z.max mw (ma + mb) <= B -> 1 <= t <= B -> 0 <= b <= B ->
  let m := Z.max mw (ma + mb) in
  exists scale pb pw ph pa,
    fl (inject_Z t / inject_Z m)%Q = Some scale /\
    float_mul_int fl b scale = Some pb /\
    float_mul_int fl mw scale = Some pw /\
    float_mul_int fl (ma + mb) scale = Some ph /\
    float_mul_int fl ma scale = Some pa /\
    calculate_dimensions fl mw ma mb t b =
      Ok (py_int pb, Qfloor pw, Qfloor ph, Qfloor pa, scale) /\
    (0 < scale)%Q /\
    0 <= Qfloor pw <= t /\ 0 <= Qfloor ph <= t /\ 0 <= Qfloor pa <= t /\
    t - 1 <= Z.max (Qfloor pw) (Qfloor ph) /\
    ((4 * u * inject_Z (m * t) < 1)%Q ->
     mw * t / m - 1 <= Qfloor pw <= mw * t / m /\
     (ma + mb) * t / m - 1 <= Qfloor ph <= (ma + mb) * t / m /\
     ma * t / m - 1 <= Qfloor pa <= ma * t / m).
Proof.
  intros Hmw Hma Hmb Hm Ht Hb m. geometry_facts. unfold calculate_dimensions.
  fold m.
  destruct (int_truediv_accurate t m Ht Hm) as (s & Hs & Hsm & Hsb).
  rewrite Hs. cbn [mbind result_bind].
  destruct (float_mul_int_accurate b s Hb Hsb) as (fb & pb & Hpb & _).
  destruct (float_mul_int_within t m mw s Ht Hm ltac:(lia) Hsm Hsb)
    as (pw & Hpw & Hpw0 & Hgwb & Hgwm).
  destruct (float_mul_int_within t m (ma + mb) s Ht Hm ltac:(lia) Hsm Hsb)
    as (ph & Hph & Hph0 & Hghb & Hghm).
  destruct (float_mul_int_within t m ma s Ht Hm ltac:(lia) Hsm Hsb)
    as (pa & Hpa & Hpa0 & Hbob & _).
  rewrite Hpb, Hpw, Hph, Hpa. cbn [mbind result_bind int_of_float].
  rewrite !(py_int_floor pw), !(py_int_floor ph), !(py_int_floor pa)
    by assumption.
  exists s, pb, pw, ph, pa.
  assert (Hfl : fl (inject_Z t / inject_Z m)%Q = Some s).
  { unfold int_truediv in Hs. destruct (m =? 0); [discriminate|].
    destruct (fl (inject_Z t / inject_Z m)%Q); [|discriminate].
    now injection Hs as ->. }
  assert (Hs0 : (0 < s)%Q).
  { assert (0 < (2 * lo) * (1 - u))%Q by (apply Qmult_lt_0_compat; lra). lra. }
  assert (Hmax : t - 1 <= Z.max (Qfloor pw) (Qfloor ph)).
  { destruct (Z.max_spec mw (ma + mb)) as [[_ E]|[_ E]]; fold m in E.
    - specialize (Hghm (eq_sym E)). lia.
    - specialize (Hgwm (eq_sym E)). lia. }
  do 10 (split; [assumption || reflexivity|]).
  split; [exact Hmax|].
  intros Hsmall. repeat split.
  all: eapply (float_mul_int_near_exact t m _ s); eauto; lia.
Qed.
End RoundedGeometry.

(** ** The binary64 rounding operator *)

Lemma Qrne_half (y : Q) : (Qabs (inject_Z (Qrne y) - y) <= 1 # 2)%Q.
Proof.
  pose proof (Qfloor_le y) as Hl. pose proof (Qlt_floor y) as Hu.
  rewrite inject_Z_plus in Hu. change (inject_Z 1) with 1%Q in Hu.
  apply Qabs_Qle_condition. unfold Qrne.
  destruct (Qcompare_spec (y - inject_Z (Qfloor y)) (1 # 2)) as [E|E|E].
  - destruct (Z.even (Qfloor y)).
    + lra.
    + rewrite inject_Z_plus. change (inject_Z 1) with 1%Q. lra.
  - lra.
  - rewrite inject_Z_plus. change (inject_Z 1) with 1%Q. lra.
Qed.

Lemma two_neq_0 : ~ (2 == 0)%Q.
Proof. discriminate. Qed.

Lemma pow2_pos (k : Z) : (0 < 2 ^ k)%Q.
Proof. apply Qpower_0_lt. reflexivity. Qed.

Lemma pow2_succ (k : Z) : (2 ^ (k + 1) == 2 * 2 ^ k)%Q.
Proof. rewrite Qpower_plus by apply two_neq_0. change (2 ^ 1)%Q with 2%Q. ring. Qed.

Lemma pow2_log2 (n : positive) :
  (2 ^ Z.log2 (Z.pos n) <= inject_Z (Z.pos n) < 2 * 2 ^ Z.log2 (Z.pos n))%Q.
Proof.
  destruct (Z.log2_spec (Z.pos n)) as [Hl Hu]; [lia|].
  pose proof (Z.log2_nonneg (Z.pos n)) as Hk.
  rewrite <- pow2_succ.
  change 2%Q with (inject_Z 2).
  rewrite <- !Zpower_Qpower by lia.
  rewrite <- Zle_Qle, <- Zlt_Qlt. split; [assumption|].
  now rewrite <- Z.add_1_r in Hu.
Qed.

Lemma ilog2_spec (x : Q) :
  (0 < x)%Q -> (2 ^ ilog2 x <= x < 2 * 2 ^ ilog2 x)%Q.
Proof.
  destruct x as [[|p|p] q]; intros Hx; try (now compute in Hx).
  unfold ilog2. cbn [Qnum Qden].
  pose proof (pow2_log2 p) as [HpL HpU]. pose proof (pow2_log2 q) as [HqL HqU].
  set (a := Z.log2 (Z.pos p)) in *. set (b := Z.log2 (Z.pos q)) in *.
  pose proof (pow2_pos a) as HA. pose proof (pow2_pos b) as HB.
  assert (Hk : (2 ^ (a - b) == 2 ^ a / 2 ^ b)%Q)
    by (apply Qpower_minus, two_neq_0).
  assert (Hq0 : (0 < inject_Z (Z.pos q))%Q) by (apply inject_Z_pos; lia).
  assert (Hxd : (Z.pos p # q == inject_Z (Z.pos p) / inject_Z (Z.pos q))%Q)
    by apply Qmake_Qdiv.
  set (K := (2 ^ a / 2 ^ b)%Q) in *.
  assert (HK : (K * 2 ^ b == 2 ^ a)%Q) by (unfold K; field; lra).
  assert (HK0 : (0 < K)%Q) by (unfold K; apply Qlt_shift_div_l; lra).
  destruct (Qle_bool (2 ^ (a - b)) (Z.pos p # q)) eqn:Hc.
  - apply Qle_bool_iff in Hc. split; [assumption|].
    rewrite Hk, Hxd. apply Qlt_shift_div_r; [assumption|].
    assert (K * 2 ^ b <= K * inject_Z (Z.pos q))%Q
      by (apply Qmult_le_mono; lra).
    lra.
  - assert (Hlt : (Z.pos p # q < 2 ^ (a - b))%Q).
    { apply Qnot_le_lt. intros Hle. apply Qle_bool_iff in Hle. congruence. }
    assert (Hh : (2 * 2 ^ (a - b - 1) == 2 ^ (a - b))%Q).
    { rewrite <- pow2_succ. now replace (a - b - 1 + 1) with (a - b) by lia. }
    split; [|lra].
    assert (Hgoal : (2 ^ (a - b) <= 2 * (Z.pos p # q))%Q); [|lra].
    rewrite Hk, Hxd. 
    assert (Hd : (2 * (inject_Z (Z.pos p) / inject_Z (Z.pos q))
                  == (2 * inject_Z (Z.pos p)) / inject_Z (Z.pos q))%Q)
      by (field; lra).
    rewrite Hd. apply Qle_shift_div_l; [assumption|].
    assert (K * inject_Z (Z.pos q) <= K * (2 * 2 ^ b))%Q
      by (apply Qmult_le_mono; lra).
    lra.
Qed.

Lemma Qabs_pos_eq (x : Q) : (0 < x)%Q -> Qabs x = x.
Proof.
  destruct x as [[|p|p] q]; intros H;
    [now compute in H|reflexivity|now compute in H].
Qed.

(** On the normal range, [binary64] commits a relative error of at most
    [2^-53] and does not overflow. *)
Lemma binary64_accurate : accurate binary64 u64 (2 ^ (-1022)) (2 ^ 1023).
Proof.
  intros x [Hx|[Hlo Hhi]].
  - exists 0%Q. split.
    + unfold binary64, round_to. apply Qeq_bool_iff in Hx. now rewrite Hx.
    + apply Qabs_Qle_condition. unfold u64. lra.
  - pose proof (pow2_pos (-1022)) as Hlo0.
    assert (Hx0 : (0 < x)%Q) by lra.
    unfold binary64, round_to.
    destruct (Qeq_bool x 0) eqn:E; [apply Qeq_bool_iff in E; lra|].
    rewrite (Qabs_pos_eq x Hx0).
    destruct (ilog2_spec x Hx0) as [Hk1 Hk2]. set (k := ilog2 x) in *.
    rewrite <- pow2_succ in Hk2.
    assert (Hkl : -1022 < k + 1).
    { apply (Qpower_lt_compat_l_inv 2); [lra|reflexivity]. }
    assert (Hku : k <= 1023).
    { apply (Qpower_le_compat_l_inv 2); [lra|reflexivity]. }
    replace (Z.max (k - (53 - 1)) (-1074)) with (k - 52) by lia.
    set (e := k - 52).
    pose proof (pow2_pos e) as He0.
    assert (He : (2 ^ e * 4503599627370496 == 2 ^ k)%Q).
    { replace k with (e + 52) by (unfold e; lia).
      rewrite Qpower_plus by apply two_neq_0. reflexivity. }
    set (y := (x / 2 ^ e)%Q).
    assert (Hy : (y * 2 ^ e == x)%Q) by (unfold y; field; lra).
    pose proof (Qrne_half y) as Hn. apply Qabs_Qle_condition in Hn.
    set (n := inject_Z (Qrne y)) in *.
    assert (Hd1 : ((n - y) * 2 ^ e <= (1 # 2) * 2 ^ e)%Q)
      by (apply Qmult_le_r'; lra).
    assert (Hd2 : (- (1 # 2) * 2 ^ e <= (n - y) * 2 ^ e)%Q)
      by (apply Qmult_le_r'; lra).
    assert (Hr : (n * 2 ^ e - x == (n - y) * 2 ^ e)%Q) by (rewrite <- Hy; ring).
    assert (H1024 : (2 ^ 1024 == 2 * 2 ^ 1023)%Q) by apply (pow2_succ 1023).
    destruct (Qle_bool (2 ^ 1024) (n * 2 ^ e)) eqn:Ho.
    { apply Qle_bool_iff in Ho. unfold u64 in *. lra. }
    assert (Hs : Qle_bool 0 x = true) by (apply Qle_bool_iff; lra).
    rewrite Hs. eexists. split; [reflexivity|].
    rewrite Qred_correct. apply Qabs_Qle_condition. unfold u64. lra.
Qed.

Lemma binary64_sizes_accurate :
  accurate binary64 u64 (2 ^ (-1022)) (2 ^ 1023) /\
  (0 <= u64)%Q /\ 1 <= 2 ^ 50 /\ (4 * u64 * inject_Z (2 ^ 50) < 1)%Q /\
  (0 < 2 ^ (-1022))%Q /\ (2 * 2 ^ (-1022) * inject_Z (2 ^ 50) <= 1)%Q /\
  (2 * inject_Z (2 ^ 50) * inject_Z (2 ^ 50) <= 2 ^ 1023)%Q.
Proof.
  split; [apply binary64_accurate|].
  split; [discriminate|]. split; [lia|]. split; [reflexivity|].
  split; [reflexivity|]. split; discriminate.
Qed.

(** On sizes up to 64 the model of binary64 used here computes exactly
    what the Standard Library's specification of IEEE 754 computes. *)
Example binary64_agrees_with_IEEE : agrees_with_IEEE 64 = true.
Proof. vm_compute. reflexivity. Qed.

(** ** GridGeometryCalculator: bounds on the returned geometry *)

Lemma exact_scaled_within (t m n : Z) :
  0 <= t -> 0 < m -> 0 <= n <= m ->
  let g := py_int (inject_Z n * (inject_Z t / inject_Z m)) in
  0 <= g <= t /\ (n = m -> g = t).
Proof.
  intros Ht Hm Hn g.
  pose proof (inject_Z_pos m Hm) as HM. pose proof (inject_Z_nonneg t Ht) as HT.
  assert (HN : (0 <= inject_Z n <= inject_Z m)%Q).
  { split; [apply inject_Z_nonneg; lia|]. rewrite <- Zle_Qle. lia. }
  set (X := (inject_Z t / inject_Z m)%Q) in *.
  assert (HX : (inject_Z m * X == inject_Z t)%Q) by (unfold X; field; lra).
  assert (HX0 : (0 <= X)%Q) by (unfold X; apply Qle_shift_div_l; lra).
  assert (Hle : (inject_Z n * X <= inject_Z m * X)%Q)
    by (apply Qmult_le_r'; lra).
  assert (H0 : (0 <= inject_Z n * X)%Q) by (apply Qmult_le_0_compat; lra).
  unfold g. rewrite py_int_floor by assumption.
  split; [split|].
  - change 0 with (Qfloor 0). now apply Qfloor_resp_le.
  - rewrite <- (Qfloor_Z t). apply Qfloor_resp_le. lra.
  - intros ->. rewrite HX. apply Qfloor_Z.
Qed.

(** Over exact arithmetic no cell side exceeds the target and the larger
    one is the target. *)
Lemma calculate_dimensions_exact_bounds (mw ma mb t b : Z) :
  0 <= mw -> 0 <= ma -> 0 <= mb -> 0 < Z.max mw (ma + mb) -> 0 < t ->
  exists font_size glyph_width glyph_height baseline_offset scale,
    calculate_dimensions exact mw ma mb t b =
      Ok (font_size, glyph_width, glyph_height, baseline_offset, scale) /\
    (0 < scale)%Q /\
    0 <= glyph_width <= t /\ 0 <= glyph_height <= t /\
    0 <= baseline_offset <= t /\
    Z.max glyph_width glyph_height = t.
Proof.
  intros Hmw Hma Hmb Hm Ht.
  eexists _, _, _, _, _. split.
  { apply calculate_dimensions_exact. lia. }
  set (m := Z.max mw (ma + mb)) in *.
  destruct (exact_scaled_within t m mw ltac:(lia) Hm ltac:(lia)) as [Hw Hwm].
  destruct (exact_scaled_within t m (ma + mb) ltac:(lia) Hm ltac:(lia))
    as [Hh Hhm].
  destruct (exact_scaled_within t m ma ltac:(lia) Hm ltac:(lia)) as [Hb _].
  cbv zeta in Hw, Hwm, Hh, Hhm, Hb.
  split; [now apply scale_pos|].
  split; [assumption|]. split; [assumption|]. split; [assumption|].
  destruct (Z.max_spec mw (ma + mb)) as [[_ E]|[_ E]]; fold m in E.
  - rewrite (Hhm (eq_sym E)) in *. lia.
  - rewrite (Hwm (eq_sym E)) in *. lia.
Qed.

(** Over binary64, for sizes up to [2^50]: the scale is the binary64
    quotient, each pixel quantity is the floor of the binary64 product, no
    cell side exceeds the target and the larger one is within a pixel of
    it. *)
Lemma calculate_dimensions_binary64 (mw ma mb t b : Z) :
  0 <= mw -> 0 <= ma -> 0 <= mb ->
  0 < Z.max mw (ma + mb) <= 2 ^ 50 -> 0 < t <= 2 ^ 50 -> 0 <= b <= 2 ^ 50 ->
  let m := Z.max mw (ma + mb) in
  exists scale pb pw ph pa,
    binary64 (inject_Z t / inject_Z m)%Q = Some scale /\
    float_mul_int binary64 b scale = Some pb /\
    float_mul_int binary64 mw scale = Some pw /\
    float_mul_int binary64 (ma + mb) scale = Some ph /\
    float_mul_int binary64 ma scale = Some pa /\
    calculate_dimensions binary64 mw ma mb t b =
      Ok (py_int pb, Qfloor pw, Qfloor ph, Qfloor pa, scale) /\
    (0 < scale)%Q /\
    0 <= Qfloor pw <= t /\ 0 <= Qfloor ph <= t /\ 0 <= Qfloor pa <= t /\
    t - 1 <= Z.max (Qfloor pw) (Qfloor ph) /\
    ((4 * u64 * inject_Z (m * t) < 1)%Q ->
     mw * t / m - 1 <= Qfloor pw <= mw * t / m /\
     (ma + mb) * t / m - 1 <= Qfloor ph <= (ma + mb) * t / m /\
     ma * t / m - 1 <= Qfloor pa <= ma * t / m).
Proof.
  intros Hmw Hma Hmb Hm Ht Hb.
  destruct binary64_sizes_accurate as (H1 & H2 & H3 & H4 & H5 & H6 & H7).
  apply (calculate_dimensions_rounded binary64 u64 (2 ^ (-1022)) (2 ^ 1023)
           (2 ^ 50)); try assumption; lia.
Qed.

Lemma calculate_dimensions_binary64_bounds (mw ma mb t b : Z) :
  0 <= mw -> 0 <= ma -> 0 <= mb ->
  0 < Z.max mw (ma + mb) <= 2 ^ 50 -> 0 < t <= 2 ^ 50 -> 0 <= b <= 2 ^ 50 ->
  exists font_size glyph_width glyph_height baseline_offset scale,
    calculate_dimensions binary64 mw ma mb t b =
      Ok (font_size, glyph_width, glyph_height, baseline_offset, scale) /\
    (0 < scale)%Q /\
    0 <= glyph_width <= t /\ 0 <= glyph_height <= t /\
    0 <= baseline_offset <= t /\
    t - 1 <= Z.max glyph_width glyph_height.
Proof.
  intros Hmw Hma Hmb Hm Ht Hb.
  destruct (calculate_dimensions_binary64 mw ma mb t b Hmw Hma Hmb Hm Ht Hb)
    as (s & pb & pw & ph & pa & _ & _ & _ & _ & _ & E & Hs & Hw & Hh & Ha
        & Hx & _).
  exists (py_int pb), (Qfloor pw), (Qfloor ph), (Qfloor pa), s.
  repeat split; try assumption; lia.
Qed.

(** Over binary64, for sizes whose product is below [2^51], each cell
    quantity is the exact floor of [n * target_size / max] or one pixel
    less. *)
Lemma calculate_dimensions_binary64_near_exact (mw ma mb t b : Z) :
  0 <= mw -> 0 <= ma -> 0 <= mb ->
  0 < Z.max mw (ma + mb) <= 2 ^ 50 -> 0 < t <= 2 ^ 50 -> 0 <= b <= 2 ^ 50 ->
  Z.max mw (ma + mb) * t < 2 ^ 51 ->
  let m := Z.max mw (ma + mb) in
  exists font_size glyph_width glyph_height baseline_offset scale,
    calculate_dimensions binary64 mw ma mb t b =
      Ok (font_size, glyph_width, glyph_height, baseline_offset, scale) /\
    mw * t / m - 1 <= glyph_width <= mw * t / m /\
    (ma + mb) * t / m - 1 <= glyph_height <= (ma + mb) * t / m /\
    ma * t / m - 1 <= baseline_offset <= ma * t / m.
Proof.
  intros Hmw Hma Hmb Hm Ht Hb Hmt m.
  destruct (calculate_dimensions_binary64 mw ma mb t b Hmw Hma Hmb Hm Ht Hb)
    as (s & pb & pw & ph & pa & _ & _ & _ & _ & _ & E & _ & _ & _ & _ & _
        & Hnear).
  exists (py_int pb), (Qfloor pw), (Qfloor ph), (Qfloor pa), s.
  split; [exact E|]. apply Hnear. fold m in Hmt |- *.
  assert (Hlt : (inject_Z (m * t) < inject_Z (2 ^ 51))%Q)
    by (rewrite <- Zlt_Qlt; exact Hmt).
  unfold u64. change (inject_Z (2 ^ 51)) with (2251799813685248 # 1)%Q in Hlt.
  lra.
Qed.

(** C1. With measured maxima whose larger extent is positive, the scale is
    [target_size / max(max_width, natural_height)] and the cell width, the
    cell height and the baseline offset are the scaled maxima converted to
    integers by [int()], that is truncated, which for a non-negative target
    size is the floor: literally so over exact arithmetic, and with the
    quotient and the products rounded to binary64 in the arithmetic of
    Python floats. *)
Theorem calculate_dimensions_formula (mw ma mb t b : Z) :
  0 <= mw -> 0 <= ma -> 0 <= mb ->
  0 < Z.max mw (ma + mb) ->
  let natural_height := ma + mb in
  let m := Z.max mw natural_height in
  (exists font_size glyph_width glyph_height baseline_offset scale,
     calculate_dimensions exact mw ma mb t b =
       Ok (font_size, glyph_width, glyph_height, baseline_offset, scale) /\
     scale = (inject_Z t / inject_Z m)%Q /\
     glyph_width = py_int (inject_Z mw * scale) /\
     glyph_height = py_int (inject_Z natural_height * scale) /\
     baseline_offset = py_int (inject_Z ma * scale) /\
     (0 <= t ->
      glyph_width = Qfloor (inject_Z mw * scale) /\
      glyph_height = Qfloor (inject_Z natural_height * scale) /\
      baseline_offset = Qfloor (inject_Z ma * scale))) /\
  (m <= 2 ^ 50 -> 0 < t <= 2 ^ 50 -> 0 <= b <= 2 ^ 50 ->
   exists font_size scale pw ph pa,
     calculate_dimensions binary64 mw ma mb t b =
       Ok (font_size, Qfloor pw, Qfloor ph, Qfloor pa, scale) /\
     binary64 (inject_Z t / inject_Z m)%Q = Some scale /\
     float_mul_int binary64 mw scale = Some pw /\
     float_mul_int binary64 natural_height scale = Some ph /\
     float_mul_int binary64 ma scale = Some pa).
Proof.
  intros Hmw Hma Hmb Hd nh m. split.
  - eexists _, _, _, _, _. split.
    { apply calculate_dimensions_exact. lia. }
    do 4 (split; [reflexivity|]).
    intros Ht. pose proof (scale_nonneg t _ Ht Hd) as Hs.
    repeat split; apply py_int_floor; apply Qmult_le_0_compat;
      try assumption; apply inject_Z_nonneg; subst nh; lia.
  - intros HmB HtB Hb.
    destruct (calculate_dimensions_binary64 mw ma mb t b)
      as (s & pb & pw & ph & pa & Hs & _ & Hpw & Hph & Hpa & E & _);
      try assumption; try lia.
    exists (py_int pb), s, pw, ph, pa. repeat split; assumption.
Qed.

Lemma calculate_dimensions_formula_witness :
  (exists font_size glyph_width glyph_height baseline_offset scale,
     calculate_dimensions exact 10 15 5 32 16 =
       Ok (font_size, glyph_width, glyph_height, baseline_offset, scale) /\
     scale = (inject_Z 32 / inject_Z (Z.max 10 (15 + 5)))%Q /\
     glyph_width = py_int (inject_Z 10 * scale) /\
     glyph_height = py_int (inject_Z (15 + 5) * scale) /\
     baseline_offset = py_int (inject_Z 15 * scale) /\
     (0 <= 32 ->
      glyph_width = Qfloor (inject_Z 10 * scale) /\
      glyph_height = Qfloor (inject_Z (15 + 5) * scale) /\
      baseline_offset = Qfloor (inject_Z 15 * scale))) /\
  (exists font_size scale pw ph pa,
     calculate_dimensions binary64 10 15 5 32 16 =
       Ok (font_size, Qfloor pw, Qfloor ph, Qfloor pa, scale) /\
     binary64 (inject_Z 32 / inject_Z (Z.max 10 (15 + 5)))%Q = Some scale /\
     float_mul_int binary64 10 scale = Some pw /\
     float_mul_int binary64 (15 + 5) scale = Some ph /\
     float_mul_int binary64 15 scale = Some pa).
Proof.
  destruct (calculate_dimensions_formula 10 15 5 32 16) as [He Hb]; try lia.
  split; [exact He|]. apply Hb; lia.
Defined.

(** The conversion is the floor, not the nearest integer: a width of
    [2/3] pixel becomes [0]. *)
Example calculate_dimensions_truncates :
  calculate_dimensions exact 2 3 0 1 16 = Ok (5, 0, 1, 1, (1 / 3)%Q) /\
  Qrne (inject_Z 2 * (1 / 3)) = 1.
Proof. split; reflexivity. Qed.

(** One pixel can be lost to rounding: with the default target of 32 and a
    measured extent of 49, binary64 gives a cell of 31 where exact
    arithmetic gives 32.  The Standard Library's IEEE 754 operations agree
    with [binary64] on the numbers involved. *)
Example calculate_dimensions_one_below :
  calculate_dimensions binary64 49 30 10 32 16 =
    Ok (10, 31, 26, 19, (5882252574524729 # 9007199254740992)%Q) /\
  calculate_dimensions exact 49 30 10 32 16 = Ok (10, 32, 26, 19, (32 # 49)%Q) /\
  IEEE.div 32 49 = b64_div 32 49 /\
  IEEE.scaled 49 32 49 = b64_scaled 49 32 49 /\
  b64_scaled 49 32 49 = Some (9007199254740991 # 281474976710656)%Q.
Proof. repeat split; vm_compute; reflexivity. Qed.



(** C8 fails as stated: a charset whose widest glyph is one pixel wide and
    fifteen tall, scaled to a target of 8, gets cells of width 0. *)
Lemma calculate_dimensions_zero_width :
  calculate_dimensions binary64 1 12 3 8 16 =
    Ok (8, 0, 8, 6, (4803839602528529 # 9007199254740992)%Q) /\
  calculate_dimensions exact 1 12 3 8 16 = Ok (8, 0, 8, 6, (8 # 15)%Q) /\
  ~ 1 <= 0.
Proof. repeat split; try (vm_compute; reflexivity). lia. Qed.

(** C8, amended.  For measured maxima whose larger extent is positive and
    a positive target size (sizes up to [2^50]), the scale is positive, both
    cell sides are non-negative, and the larger side is the target or one
    pixel less; over exact arithmetic it is the target. *)
Theorem calculate_dimensions_positive (mw ma mb t b : Z) :
  0 <= mw -> 0 <= ma -> 0 <= mb ->
  0 < Z.max mw (ma + mb) <= 2 ^ 50 -> 0 < t <= 2 ^ 50 -> 0 <= b <= 2 ^ 50 ->
  (exists font_size glyph_width glyph_height baseline_offset scale,
     calculate_dimensions binary64 mw ma mb t b =
       Ok (font_size, glyph_width, glyph_height, baseline_offset, scale) /\
     (0 < scale)%Q /\ 0 <= glyph_width /\ 0 <= glyph_height /\
     t - 1 <= Z.max glyph_width glyph_height) /\
  (exists font_size glyph_width glyph_height baseline_offset scale,
     calculate_dimensions exact mw ma mb t b =
       Ok (font_size, glyph_width, glyph_height, baseline_offset, scale) /\
     (0 < scale)%Q /\ 0 <= glyph_width /\ 0 <= glyph_height /\
     1 <= Z.max glyph_width glyph_height).
Proof.
  intros Hmw Hma Hmb Hm Ht Hb. split.
  - destruct (calculate_dimensions_binary64_bounds mw ma mb t b)
      as (fs & gw & gh & bo & s & E & Hs & Hw & Hh & _ & Hx); try assumption.
    exists fs, gw, gh, bo, s. repeat split; try assumption; lia.
  - destruct (calculate_dimensions_exact_bounds mw ma mb t b)
      as (fs & gw & gh & bo & s & E & Hs & Hw & Hh & _ & Hx);
      try assumption; try lia.
    exists fs, gw, gh, bo, s. repeat split; try assumption; lia.
Qed.

Lemma calculate_dimensions_positive_witness :
  (exists font_size glyph_width glyph_height baseline_offset scale,
     calculate_dimensions binary64 1 12 3 8 16 =
       Ok (font_size, glyph_width, glyph_height, baseline_offset, scale) /\
     (0 < scale)%Q /\ 0 <= glyph_width /\ 0 <= glyph_height /\
     8 - 1 <= Z.max glyph_width glyph_height) /\
  (exists font_size glyph_width glyph_height baseline_offset scale,
     calculate_dimensions exact 1 12 3 8 16 =
       Ok (font_size, glyph_width, glyph_height, baseline_offset, scale) /\
     (0 < scale)%Q /\ 0 <= glyph_width /\ 0 <= glyph_height /\
     1 <= Z.max glyph_width glyph_height).
Proof. apply (calculate_dimensions_positive 1 12 3 8 16); lia. Defined.

(** With a target of 1 both sides can vanish over binary64, so the bound
    [target_size - 1] on the larger side cannot be improved. *)
Example calculate_dimensions_both_zero :
  calculate_dimensions binary64 49 49 0 1 16 =
    Ok (0, 0, 0, 0, (5882252574524729 # 288230376151711744)%Q).
Proof. vm_compute. reflexivity. Qed.

(** C6 fails as stated: the all-zero measurement ends in the division's
    [ZeroDivisionError], not in [EmptyMeasurement]; and a target size of 0
    yields a scale of 0 without any failure. *)
Lemma calculate_dimensions_no_empty_measurement :
  calculate_dimensions binary64 0 0 0 32 16 = Raise ZeroDivisionError /\
  calculate_dimensions binary64 0 0 0 32 16 <> Raise EmptyMeasurement /\
  calculate_dimensions binary64 10 15 5 0 16 = Ok (0, 0, 0, 0, 0%Q).
Proof. repeat split; try (vm_compute; reflexivity). discriminate. Qed.

(** In every arithmetic an all-zero measurement raises
    [ZeroDivisionError]. *)
Lemma calculate_dimensions_zero_division fl (mw ma mb t b : Z) :
  Z.max mw (ma + mb) = 0 ->
  calculate_dimensions fl mw ma mb t b = Raise ZeroDivisionError.
Proof.
  intros E. unfold calculate_dimensions, int_truediv. now rewrite E.
Qed.

(** C6, amended.  If [max_width] and the natural height are both zero,
    [calculate_dimensions] fails with [ZeroDivisionError]; otherwise, for a
    positive target size (sizes up to [2^50]), it does not fail and returns
    a positive scale. *)
Theorem calculate_dimensions_degenerate (mw ma mb t b : Z) :
  0 <= mw -> 0 <= ma -> 0 <= mb ->
  (mw = 0 /\ ma + mb = 0 ->
   forall fl, calculate_dimensions fl mw ma mb t b = Raise ZeroDivisionError) /\
  (~ (mw = 0 /\ ma + mb = 0) ->
   Z.max mw (ma + mb) <= 2 ^ 50 -> 0 < t <= 2 ^ 50 -> 0 <= b <= 2 ^ 50 ->
   exists font_size glyph_width glyph_height baseline_offset scale,
     calculate_dimensions binary64 mw ma mb t b =
       Ok (font_size, glyph_width, glyph_height, baseline_offset, scale) /\
     (0 < scale)%Q).
Proof.
  intros Hmw Hma Hmb. split.
  - intros [-> E] fl. apply calculate_dimensions_zero_division. lia.
  - intros Hnz Hm Ht Hb.
    destruct (calculate_dimensions_binary64_bounds mw ma mb t b)
      as (fs & gw & gh & bo & s & E & Hs & _); try assumption; try lia.
    exists fs, gw, gh, bo, s. split; assumption.
Qed.

Lemma calculate_dimensions_degenerate_witness :
  (forall fl, calculate_dimensions fl 0 0 0 32 16 = Raise ZeroDivisionError) /\
  (exists font_size glyph_width glyph_height baseline_offset scale,
     calculate_dimensions binary64 10 15 5 32 16 =
       Ok (font_size, glyph_width, glyph_height, baseline_offset, scale) /\
     (0 < scale)%Q).
Proof.
  split.
  - apply (calculate_dimensions_degenerate 0 0 0 32 16); lia.
  - apply (calculate_dimensions_degenerate 10 15 5 32 16); lia.
Defined.

(** ** Loops over a range *)

Lemma for_each_seqZ_inv {St : Type} (I : Z -> St -> Prop)
    (body : Z -> St -> result St) (k : nat) :
  forall (m : Z) (s : St),
    I m s ->
    (forall i s, m <= i < m + Z.of_nat k -> I i s ->
       exists s', body i s = Ok s' /\ I (i + 1) s') ->
    exists s', for_each (seqZ m (Z.of_nat k)) body s = Ok s' /\
               I (m + Z.of_nat k) s'.
Proof.
  induction k as [|k IH]; intros m s Hs Hstep.
  - exists s. split; [reflexivity|]. now rewrite Z.add_0_r.
  - rewrite seqZ_cons by lia. cbn [for_each].
    destruct (Hstep m s ltac:(lia) Hs) as (s1 & E1 & H1).
    rewrite E1. cbn.
    replace (Z.pred (Z.of_nat (S k))) with (Z.of_nat k) by lia.
    destruct (IH (Z.succ m) s1) as (s2 & E2 & H2).
    + now rewrite <- Z.add_1_r.
    + intros i s' Hi. apply Hstep. lia.
    + exists s2. split; [assumption|].
      now replace (m + Z.of_nat (S k)) with (Z.succ m + Z.of_nat k) by lia.
Qed.

(** A loop over [range(n)] that maintains [I] ends in a state where [I n]
    holds. *)
Lemma for_each_range_inv {St : Type} (I : Z -> St -> Prop)
    (body : Z -> St -> result St) (n : Z) (s : St) :
  0 <= n -> I 0 s ->
  (forall i s, 0 <= i < n -> I i s -> exists s', body i s = Ok s' /\ I (i + 1) s') ->
  exists s', for_each (range n) body s = Ok s' /\ I n s'.
Proof.
  intros Hn Hs Hstep. unfold range.
  destruct (for_each_seqZ_inv I body (Z.to_nat n) 0 s Hs) as (s' & E & H').
  - intros i s0 Hi. apply Hstep. lia.
  - rewrite Z2Nat.id in E, H' by assumption. exists s'. now split.
Qed.

(** ** StyleConverter *)

Section Painting.
Variable gray_image : image Z.
Variable ink : Z -> rgba.
Hypothesis gray_wf : wf_image gray_image.

Let w := width gray_image.
Let h := height gray_image.
Let paint (g : Z) : rgba := if 0 <? g then ink g else (0, 0, 0, 0).

Local Abbreviation paint_loops := (paint_loops gray_image ink).
Local Abbreviation painted := (painted gray_image ink).

Lemma paint_step (x y : Z) (canvas : image rgba) :
  0 <= x < w -> 0 <= y < h -> painted (y * w + x) canvas ->
  exists canvas',
    (gray ← getpixel gray_image x y;
     if 0 <? gray then putpixel canvas x y (ink gray) else Ok canvas)
      = Ok canvas' /\
    painted (y * w + x + 1) canvas'.
Proof.
  intros Hx Hy [Hk ->]. fold w h in Hk |- *. fold paint.
  destruct gray_wf as (Hw & Hh & Hlen).
  fold w h in Hw, Hh, Hlen.
  assert (Hlt : y * w + x < w * h) by nia.
  set (k := Z.to_nat (y * w + x)).
  assert (Hkn : (k < length (pixels gray_image))%nat) by (subst k; lia).
  destruct (lookup_lt_is_Some_2 _ _ Hkn) as [g Hg].
  assert (Hget : getpixel gray_image x y = Ok g).
  { unfold getpixel, in_bounds, pixel_index. fold w h.
    replace ((0 <=? x) && (x <? w) && (0 <=? y) && (y <? h)) with true
      by (symmetry; repeat (apply andb_true_intro; split); lia).
    fold k. now rewrite Hg. }
  rewrite Hget. cbn.
  assert (Hsplit : Z.to_nat (w * h - (y * w + x))
                   = S (Z.to_nat (w * h - (y * w + x + 1)))) by lia.
  assert (Hlen1 : length (paint <$> take k (pixels gray_image)) = k).
  { rewrite length_fmap, length_take. lia. }
  assert (Htake : paint <$> take (Z.to_nat (y * w + x + 1)) (pixels gray_image)
                  = (paint <$> take k (pixels gray_image)) ++ [paint g]).
  { replace (Z.to_nat (y * w + x + 1)) with (S k) by (subst k; lia).
    rewrite (take_S_r _ _ _ Hg), fmap_app. reflexivity. }
  assert (Hpaint : paint g = if 0 <? g then ink g else (0, 0, 0, 0))
    by reflexivity.
  destruct (0 <? g) eqn:Eg.
  - eexists. split.
    + unfold putpixel, in_bounds, pixel_index. cbn [width height pixels].
      fold w h.
      replace ((0 <=? x) && (x <? w) && (0 <=? y) && (y <? h)) with true
        by (symmetry; repeat (apply andb_true_intro; split); lia).
      reflexivity.
    + split; [fold w h; lia|]. fold w h. fold paint. f_equal. fold k.
      rewrite insert_app_r_alt by (rewrite Hlen1; lia).
      rewrite Htake, Hlen1, Nat.sub_diag, Hsplit, Hpaint, <- app_assoc.
      reflexivity.
  - eexists. split; [reflexivity|]. split; [fold w h; lia|].
    fold w h. fold paint.
    rewrite Htake, Hsplit, Hpaint, <- app_assoc. reflexivity.
Qed.

Lemma paint_loops_correct :
  paint_loops (Image w h (replicate (Z.to_nat (w * h)) (0, 0, 0, 0)))
    = Ok (Image w h (paint <$> pixels gray_image)).
Proof.
  destruct gray_wf as (Hw & Hh & Hlen). fold w h in Hw, Hh, Hlen.
  unfold paint_loops. fold w h.
  destruct (for_each_range_inv (fun y => painted (y * w))
              (fun y rgba =>
                 for_each (range w) (fun x rgba =>
                   gray ← getpixel gray_image x y;
                   if 0 <? gray then putpixel rgba x y (ink gray) else Ok rgba)
                   rgba)
              h (Image w h (replicate (Z.to_nat (w * h)) (0, 0, 0, 0))) Hh)
    as (final & E & [_ Hfinal]).
  - split; [fold w h; nia|]. cbn. rewrite Z.sub_0_r. reflexivity.
  - intros y canvas Hy Hinv.
    destruct (for_each_range_inv (fun x => painted (y * w + x))
                (fun x rgba =>
                   gray ← getpixel gray_image x y;
                   if 0 <? gray then putpixel rgba x y (ink gray) else Ok rgba)
                w canvas Hw) as (canvas' & E' & Hinv').
    + now rewrite Z.add_0_r.
    + intros x c Hx Hc. rewrite Z.add_assoc. now apply paint_step.
    + exists canvas'. split; [assumption|].
      now replace ((y + 1) * w) with (y * w + w) by lia.
  - rewrite E, Hfinal. fold w h. fold paint. f_equal. f_equal.
    rewrite take_ge by lia.
    replace (w * h - h * w) with 0 by lia. cbn. apply app_nil_r.
Qed.
End Painting.

Lemma Image_new_ok {P : Type} (w h : Z) (color : P) :
  0 <= w -> 0 <= h ->
  Image_new w h color = Ok (Image w h (replicate (Z.to_nat (w * h)) color)).
Proof.
  intros Hw Hh. unfold Image_new.
  destruct (Z.ltb_spec w 0); [lia|]. destruct (Z.ltb_spec h 0); [lia|].
  reflexivity.
Qed.

(** Under [solid] the converter maps [solid_pixel] over the buffer. *)
Lemma convert_to_rgba_solid (gray : image Z) :
  wf_image gray ->
  convert_to_rgba gray "solid"
    = Ok (Image (width gray) (height gray) (solid_pixel <$> pixels gray)).
Proof.
  intros Hwf. pose proof Hwf as (Hw & Hh & _).
  unfold convert_to_rgba. rewrite Image_new_ok by assumption. cbn.
  exact (paint_loops_correct gray (fun _ => (255, 255, 255, 255)) Hwf).
Qed.

(** Under any other style tag it maps [smooth_pixel] over the buffer. *)
Lemma convert_to_rgba_not_solid (gray : image Z) (style : string) :
  style <> "solid"%string -> wf_image gray ->
  convert_to_rgba gray style
    = Ok (Image (width gray) (height gray) (smooth_pixel <$> pixels gray)).
Proof.
  intros Hstyle Hwf. pose proof Hwf as (Hw & Hh & _).
  unfold convert_to_rgba. rewrite Image_new_ok by assumption. cbn.
  destruct (String.eqb_spec style "solid") as [E|_]; [contradiction|].
  exact (paint_loops_correct gray (fun g => (255, 255, 255, g)) Hwf).
Qed.

Lemma getpixel_wf {P : Type} (img : image P) (x y : Z) :
  wf_image img -> 0 <= x < width img -> 0 <= y < height img ->
  exists p, getpixel img x y = Ok p.
Proof.
  intros (Hw & Hh & Hlen) Hx Hy. unfold getpixel, in_bounds, pixel_index.
  replace ((0 <=? x) && (x <? width img) && (0 <=? y) && (y <? height img))
    with true by (symmetry; repeat (apply andb_true_intro; split); lia).
  destruct (lookup_lt_is_Some_2 (pixels img)
              (Z.to_nat (y * width img + x))) as [p Hp]; [nia|].
  exists p. now rewrite Hp.
Qed.

Lemma getpixel_fmap {P R : Type} (f : P -> R) (img : image P) (x y : Z) (p : P) :
  getpixel img x y = Ok p ->
  getpixel (Image (width img) (height img) (f <$> pixels img)) x y = Ok (f p).
Proof.
  unfold getpixel, in_bounds, pixel_index. cbn [width height pixels].
  destruct ((0 <=? x) && (x <? width img) && (0 <=? y) && (y <? height img));
    [|discriminate].
  rewrite list_lookup_fmap.
  destruct (pixels img !! Z.to_nat (y * width img + x)); [|discriminate].
  intros [= ->]. reflexivity.
Qed.

(** C3. Under [solid] the converter returns an image of the same size in
    which a pixel of positive coverage is opaque white and a pixel of
    coverage 0 is fully transparent; every output alpha is 0 or 255. *)
Theorem convert_to_rgba_solid_spec (gray : image Z) :
  wf_image gray ->
  exists out,
    convert_to_rgba gray "solid" = Ok out /\
    width out = width gray /\ height out = height gray /\
    forall x y, 0 <= x < width gray -> 0 <= y < height gray ->
      exists g p,
        getpixel gray x y = Ok g /\ getpixel out x y = Ok p /\
        (0 < g -> p = (255, 255, 255, 255)) /\
        (g = 0 -> p = (0, 0, 0, 0)) /\
        (alpha p = 0 \/ alpha p = 255).
Proof.
  intros Hwf. eexists. split; [now apply convert_to_rgba_solid|].
  split; [reflexivity|]. split; [reflexivity|].
  intros x y Hx Hy. destruct (getpixel_wf gray x y Hwf Hx Hy) as [g Hg].
  exists g, (solid_pixel g). split; [assumption|].
  split; [now apply getpixel_fmap|].
  unfold solid_pixel. destruct (Z.ltb_spec 0 g).
  - split; [reflexivity|]. split; [lia|]. now right.
  - split; [lia|]. split; [reflexivity|]. now left.
Qed.

Lemma convert_to_rgba_solid_spec_witness :
  exists out,
    convert_to_rgba (Image 2 2 [0; 128; 255; 0]) "solid" = Ok out /\
    width out = 2 /\ height out = 2 /\
    forall x y, 0 <= x < 2 -> 0 <= y < 2 ->
      exists g p,
        getpixel (Image 2 2 [0; 128; 255; 0]) x y = Ok g /\
        getpixel out x y = Ok p /\
        (0 < g -> p = (255, 255, 255, 255)) /\
        (g = 0 -> p = (0, 0, 0, 0)) /\
        (alpha p = 0 \/ alpha p = 255).
Proof.
  apply (convert_to_rgba_solid_spec (Image 2 2 [0; 128; 255; 0])).
  repeat split; cbn; lia.
Defined.

(** C4. Under [smooth] the converter returns an image of the same size in
    which a pixel of positive coverage [g] is white with alpha [g] and a
    pixel of coverage 0 is fully transparent; so alpha equals the coverage,
    and a higher coverage never gets a lower alpha. *)
Theorem convert_to_rgba_smooth_spec (gray : image Z) :
  wf_image gray ->
  exists out,
    convert_to_rgba gray "smooth" = Ok out /\
    width out = width gray /\ height out = height gray /\
    (forall x y, 0 <= x < width gray -> 0 <= y < height gray ->
       exists g p,
         getpixel gray x y = Ok g /\ getpixel out x y = Ok p /\
         (0 < g -> p = (255, 255, 255, g)) /\
         (g = 0 -> p = (0, 0, 0, 0)) /\
         (0 <= g -> alpha p = g)) /\
    (forall x1 y1 x2 y2 g1 g2 p1 p2,
       getpixel gray x1 y1 = Ok g1 -> getpixel gray x2 y2 = Ok g2 ->
       getpixel out x1 y1 = Ok p1 -> getpixel out x2 y2 = Ok p2 ->
       g1 <= g2 -> alpha p1 <= alpha p2).
Proof.
  intros Hwf. eexists. split.
  { apply convert_to_rgba_not_solid; [discriminate|assumption]. }
  split; [reflexivity|]. split; [reflexivity|]. split.
  - intros x y Hx Hy. destruct (getpixel_wf gray x y Hwf Hx Hy) as [g Hg].
    exists g, (smooth_pixel g). split; [assumption|].
    split; [now apply getpixel_fmap|].
    unfold smooth_pixel. destruct (Z.ltb_spec 0 g).
    + split; [reflexivity|]. split; [lia|]. reflexivity.
    + split; [lia|]. split; [reflexivity|]. intros Hg0. cbn. lia.
  - intros x1 y1 x2 y2 g1 g2 p1 p2 H1 H2 Ho1 Ho2 Hle.
    rewrite (getpixel_fmap smooth_pixel gray x1 y1 g1 H1) in Ho1.
    rewrite (getpixel_fmap smooth_pixel gray x2 y2 g2 H2) in Ho2.
    injection Ho1 as <-. injection Ho2 as <-.
    unfold smooth_pixel.
    destruct (Z.ltb_spec 0 g1), (Z.ltb_spec 0 g2); cbn; lia.
Qed.

Lemma convert_to_rgba_smooth_spec_witness :
  exists out,
    convert_to_rgba (Image 2 2 [0; 128; 255; 0]) "smooth" = Ok out /\
    width out = 2 /\ height out = 2 /\
    (forall x y, 0 <= x < 2 -> 0 <= y < 2 ->
       exists g p,
         getpixel (Image 2 2 [0; 128; 255; 0]) x y = Ok g /\
         getpixel out x y = Ok p /\
         (0 < g -> p = (255, 255, 255, g)) /\
         (g = 0 -> p = (0, 0, 0, 0)) /\
         (0 <= g -> alpha p = g)) /\
    (forall x1 y1 x2 y2 g1 g2 p1 p2,
       getpixel (Image 2 2 [0; 128; 255; 0]) x1 y1 = Ok g1 ->
       getpixel (Image 2 2 [0; 128; 255; 0]) x2 y2 = Ok g2 ->
       getpixel out x1 y1 = Ok p1 -> getpixel out x2 y2 = Ok p2 ->
       g1 <= g2 -> alpha p1 <= alpha p2).
Proof.
  apply (convert_to_rgba_smooth_spec (Image 2 2 [0; 128; 255; 0])).
  repeat split; cbn; lia.
Defined.

(** C5 fails as stated: an unrecognised style tag is converted like
    [smooth], not rejected. *)
Lemma convert_to_rgba_unknown_style_accepted :
  convert_to_rgba (Image 2 1 [0; 128]) "outline"
    = Ok (Image 2 1 [(0, 0, 0, 0); (255, 255, 255, 128)]) /\
  convert_to_rgba (Image 2 1 [0; 128]) "outline"
    <> Raise (UnknownStyle "outline").
Proof. split; [reflexivity|discriminate]. Qed.

(** C5, amended.  Every style tag other than [solid] is converted exactly
    like [smooth], and the conversion of a coverage buffer returns an image:
    there is no [UnknownStyle] failure. *)
Theorem convert_to_rgba_other_styles (gray : image Z) (style : string) :
  style <> "solid"%string ->
  convert_to_rgba gray style = convert_to_rgba gray "smooth" /\
  (wf_image gray ->
   exists out, convert_to_rgba gray style = Ok out /\
     forall tag, convert_to_rgba gray style <> Raise (UnknownStyle tag)).
Proof.
  intros Hstyle. split.
  - unfold convert_to_rgba.
    destruct (String.eqb_spec style "solid") as [E|_]; [contradiction|].
    reflexivity.
  - intros Hwf. rewrite (convert_to_rgba_not_solid gray style Hstyle Hwf).
    eexists. split; [reflexivity|]. discriminate.
Qed.

Lemma convert_to_rgba_other_styles_witness :
  convert_to_rgba (Image 2 1 [0; 128]) "outline"
    = convert_to_rgba (Image 2 1 [0; 128]) "smooth" /\
  exists out,
    convert_to_rgba (Image 2 1 [0; 128]) "outline" = Ok out /\
    forall tag,
      convert_to_rgba (Image 2 1 [0; 128]) "outline" <> Raise (UnknownStyle tag).
Proof.
  destruct (convert_to_rgba_other_styles (Image 2 1 [0; 128]) "outline")
    as [Hsame Hok]; [discriminate|].
  split; [exact Hsame|]. apply Hok. repeat split; cbn; lia.
Defined.

(** ** AtlasRasterizer *)

Lemma in_bounds_true {P : Type} (img : image P) (x y : Z) :
  in_bounds img x y = true <->
  0 <= x < width img /\ 0 <= y < height img.
Proof.
  unfold in_bounds. rewrite !andb_true_iff.
  rewrite !Z.leb_le, !Z.ltb_lt. lia.
Qed.

Lemma in_bounds_false {P : Type} (img : image P) (x y : Z) :
  in_bounds img x y = false <->
  ~ (0 <= x < width img /\ 0 <= y < height img).
Proof.
  rewrite <- in_bounds_true. destruct (in_bounds img x y).
  - split; [discriminate|]. intros H. now contradiction H.
  - split; [intros _ H; discriminate|reflexivity].
Qed.

Section RasterizerFacts.
Variable blend : Z -> Z -> Z.

(** A pixel that is not under the mask is left as it was. *)
Lemma draw_bitmap_outside (img : image Z) (X Y : Z) (mask : image Z) (x y : Z) :
  in_bounds mask (x - X) (y - Y) = false ->
  getpixel (draw_bitmap blend img X Y mask) x y = getpixel img x y.
Proof.
  intros Hout. unfold getpixel, draw_bitmap, pixel_index.
  change (in_bounds (Image (width img) (height img) _) x y)
    with (in_bounds img x y).
  cbn [width height pixels].
  destruct (in_bounds img x y) eqn:Hin; [|reflexivity].
  apply in_bounds_true in Hin. destruct Hin as [Hx Hy].
  rewrite list_lookup_imap.
  destruct (pixels img !! Z.to_nat (y * width img + x)) as [old|]; [|reflexivity].
  cbn. rewrite Z2Nat.id by nia.
  replace ((y * width img + x) mod width img) with x
    by (rewrite Z.add_comm, Z_mod_plus_full, Z.mod_small; lia).
  replace ((y * width img + x) / width img) with y
    by (rewrite Z.add_comm, Z.div_add by lia; rewrite Z.div_small; lia).
  unfold getpixel. now rewrite Hout.
Qed.

Lemma draw_bitmap_size (img : image Z) (X Y : Z) (mask : image Z) :
  width (draw_bitmap blend img X Y mask) = width img /\
  height (draw_bitmap blend img X Y mask) = height img /\
  length (pixels (draw_bitmap blend img X Y mask)) = length (pixels img).
Proof. unfold draw_bitmap. cbn. now rewrite length_imap. Qed.

Variable font : Font.
Variables glyph_width glyph_height baseline_offset columns : Z.
Hypothesis columns_nonzero : columns <> 0.

Local Abbreviation place_glyph :=
  (place_glyph blend font glyph_width glyph_height baseline_offset columns).

Lemma create_atlas_unfold (codepoints : list Z) :
  create_atlas blend font codepoints glyph_width glyph_height baseline_offset
    columns =
  (rows ← py_floordiv (Z.of_nat (length codepoints) + columns - 1) columns;
   atlas ← Image_new (columns * glyph_width) (rows * glyph_height) 0;
   for_each (enumerate codepoints) place_glyph (atlas, ∅)).
Proof. reflexivity. Qed.

Lemma place_glyph_ok (i cp c b0 b1 b2 b3 : Z) (m : glyph_mask)
    (atlas : image Z) (metadata : gmap string (Z * Z)) :
  chr cp = Ok c -> textbbox font c = Ok (b0, b1, b2, b3) ->
  getmask font c = Ok m ->
  place_glyph (i, cp) (atlas, metadata) =
    Ok (draw_bitmap blend atlas
          (bitmap_x glyph_width columns i b0 m)
          (bitmap_y glyph_height baseline_offset columns i m)
          (mask_image m),
        <[str cp := (i / columns, i mod columns)]> metadata).
Proof.
  intros Hc Hb Hm. unfold place_glyph, py_floordiv, py_mod, draw_text.
  destruct (Z.eqb_spec columns 0) as [E|_]; [contradiction|].
  cbn. rewrite Hc. cbn. rewrite Hb. cbn. rewrite Hm. cbn.
  unfold bitmap_x, bitmap_y. do 3 f_equal; lia.
Qed.

(** The loop of [create_atlas] from position [start] on: it builds the
    index, keeps the size of the atlas, and leaves alone every pixel that
    is under no drawn bitmap. *)
Lemma place_glyphs_ok (codepoints : list Z) :
  forall (start : Z) (atlas : image Z) (metadata : gmap string (Z * Z)),
    Forall (renders font) codepoints ->
    exists atlas',
      for_each (enumerate_from start codepoints) place_glyph (atlas, metadata)
        = Ok (atlas', index_of columns (enumerate_from start codepoints) metadata) /\
      width atlas' = width atlas /\ height atlas' = height atlas /\
      length (pixels atlas') = length (pixels atlas) /\
      forall x y,
        (forall i cp, (i, cp) ∈ enumerate_from start codepoints ->
           outside_glyph font glyph_width glyph_height baseline_offset columns
             i cp x y) ->
        getpixel atlas' x y = getpixel atlas x y.
Proof.
  induction codepoints as [|cp cps IH]; intros start atlas metadata Hall.
  - exists atlas. repeat split; reflexivity.
  - apply Forall_cons in Hall. destruct Hall as [(c & [[[b0 b1] b2] b3] & m & Hc & Hb & Hm) Hall].
    cbn [enumerate_from for_each].
    rewrite (place_glyph_ok start cp c b0 b1 b2 b3 m atlas metadata Hc Hb Hm).
    cbn.
    set (atlas1 := draw_bitmap blend atlas _ _ _).
    destruct (IH (start + 1) atlas1
                (<[str cp := (start / columns, start mod columns)]> metadata) Hall)
      as (atlas' & E & Hw & Hh & Hl & Hpix).
    destruct (draw_bitmap_size atlas
                (bitmap_x glyph_width columns start b0 m)
                (bitmap_y glyph_height baseline_offset columns start m)
                (mask_image m)) as (Hw1 & Hh1 & Hl1).
    exists atlas'. split; [exact E|].
    split; [now rewrite Hw|]. split; [now rewrite Hh|]. split; [now rewrite Hl|].
    intros x y Hout. rewrite Hpix.
    + apply draw_bitmap_outside.
      apply (Hout start cp (list_elem_of_here _ _) c b0 b1 b2 b3 m Hc Hb Hm).
    + intros i cp' Hin. apply Hout. now apply list_elem_of_further.
Qed.
End RasterizerFacts.

Lemma str_inj (a b : Z) : str a = str b -> a = b.
Proof.
  unfold str. intros E. apply DecimalZ.to_int_inj.
  assert (Hnn : forall z, Z.to_int z <> Pos Nil /\ Z.to_int z <> Neg Nil).
  { intros [|p|p]; cbn; split; try discriminate;
      intros [= H]; now apply DecimalPos.Unsigned.to_uint_nonnil in H. }
  destruct (Hnn a) as [Ha1 Ha2]. destruct (Hnn b) as [Hb1 Hb2].
  pose proof (NilZero.isi _ Ha1 Ha2) as Ia.
  pose proof (NilZero.isi _ Hb1 Hb2) as Ib.
  rewrite E in Ia. rewrite Ia in Ib. now injection Ib.
Qed.

Lemma enumerate_from_app {A : Type} (l1 l2 : list A) :
  forall start,
    enumerate_from start (l1 ++ l2)
    = enumerate_from start l1
        ++ enumerate_from (start + Z.of_nat (length l1)) l2.
Proof.
  induction l1 as [|a l1 IH]; intros start.
  - cbn. now rewrite Z.add_0_r.
  - rewrite <- app_comm_cons. cbn [enumerate_from length]. rewrite IH.
    rewrite <- app_comm_cons. do 3 f_equal. lia.
Qed.

Lemma elem_of_enumerate_from {A : Type} (l : list A) :
  forall start i a,
    (i, a) ∈ enumerate_from start l <->
    exists n : nat, i = start + Z.of_nat n /\ l !! n = Some a.
Proof.
  induction l as [|b l IH]; intros start i a; cbn [enumerate_from].
  - split; [intros H; inversion H|intros (n & _ & H); discriminate].
  - rewrite elem_of_cons, IH. split.
    + intros [[= -> ->]|(n & -> & Hn)].
      * exists 0%nat. split; [lia|reflexivity].
      * exists (S n). split; [lia|assumption].
    + intros ([|n] & -> & Hn).
      * left. injection Hn as ->. f_equal. lia.
      * right. exists n. split; [lia|assumption].
Qed.

Lemma index_of_app (columns : Z) (l1 l2 : list (Z * Z)) md :
  index_of columns (l1 ++ l2) md = index_of columns l2 (index_of columns l1 md).
Proof. unfold index_of. apply foldl_app. Qed.

(** Later code points with other keys leave an entry as it is. *)
Lemma index_of_keeps (columns : Z) (items : list (Z * Z)) (key : string) v :
  forall md : gmap string (Z * Z),
    (forall i cp, (i, cp) ∈ items -> str cp <> key) ->
    md !! key = Some v -> index_of columns items md !! key = Some v.
Proof.
  induction items as [|[i cp] items IH]; intros md Hne Hmd; [exact Hmd|].
  cbn. apply IH.
  - intros j cp' Hin. apply (Hne j). now apply list_elem_of_further.
  - rewrite lookup_insert_ne; [assumption|].
    apply (Hne i cp). apply list_elem_of_here.
Qed.

(** The index maps a code point to the cell of its last position. *)
Lemma index_of_last (columns : Z) (codepoints : list Z) (n : nat) (cp : Z) :
  codepoints !! n = Some cp ->
  (forall n', (n < n')%nat -> codepoints !! n' <> Some cp) ->
  index_of columns (enumerate codepoints) ∅ !! str cp
    = Some (Z.of_nat n / columns, Z.of_nat n mod columns).
Proof.
  intros Hn Hlast. unfold enumerate.
  rewrite <- (take_drop_middle codepoints n cp Hn).
  rewrite enumerate_from_app, index_of_app. cbn [enumerate_from].
  assert (Hlen : length (take n codepoints) = n).
  { rewrite length_take. apply lookup_lt_Some in Hn. lia. }
  rewrite Hlen, Z.add_0_l.
  change (index_of columns ((Z.of_nat n, cp) :: ?l) ?md)
    with (index_of columns l
            (<[str cp := (Z.of_nat n / columns, Z.of_nat n mod columns)]> md)).
  apply index_of_keeps; [|apply lookup_insert_eq].
  intros i cp' Hin Hstr. apply elem_of_enumerate_from in Hin.
  destruct Hin as (k & _ & Hk). apply str_inj in Hstr. subst cp'.
  rewrite lookup_drop in Hk. apply (Hlast (S n + k)%nat); [lia|assumption].
Qed.

Lemma cell_injective (columns i j : Z) :
  columns <> 0 ->
  (i / columns, i mod columns) = (j / columns, j mod columns) -> i = j.
Proof.
  intros HC [= Hd Hm].
  rewrite (Z.div_mod i columns HC), (Z.div_mod j columns HC). congruence.
Qed.

Lemma div_in_cell (g a x : Z) : a * g <= x < (a + 1) * g -> x / g = a.
Proof.
  intros H. symmetry. apply (Z.div_unique_pos x g a (x - a * g)); lia.
Qed.

(** A glyph that stays in its cell does not reach a pixel of another
    cell. *)
Lemma in_cell_outside (font : Font) (gw gh bo columns i cp x y : Z) :
  0 < columns -> 0 <= i ->
  glyph_in_cell font gw gh bo cp ->
  y / gh * columns + x / gw <> i ->
  outside_glyph font gw gh bo columns i cp x y.
Proof.
  intros HC Hi Hcell Hne c b0 b1 b2 b3 m Hc Hb Hm.
  destruct (Hcell c b0 b1 b2 b3 m Hc Hb Hm) as (H1 & H2 & H3 & H4).
  apply in_bounds_false. intros [Hx Hy]. apply Hne.
  unfold bitmap_x, bitmap_y in Hx, Hy.
  rewrite (div_in_cell gw (i mod columns) x) by lia.
  rewrite (div_in_cell gh (i / columns) y) by lia.
  rewrite (Z.div_mod i columns) at 3 by lia. lia.
Qed.

Lemma ceil_div (n c : Z) :
  0 < c -> (n + c - 1) / c = Qceiling (inject_Z n / inject_Z c).
Proof.
  intros Hc. unfold Qceiling.
  assert (E : (- (inject_Z n / inject_Z c) == inject_Z (- n) / inject_Z c)%Q).
  { rewrite inject_Z_opp. field. pose proof (inject_Z_pos c Hc). lra. }
  rewrite E, <- Zdiv_Qdiv.
  pose proof (Z.div_mod (- n) c ltac:(lia)) as Hq.
  pose proof (Z.mod_pos_bound (- n) c Hc) as Hr.
  symmetry. apply (Z.div_unique_pos _ c _ (n + c - 1 + c * (- n / c))); lia.
Qed.

Section AtlasGrid.
Variable blend : Z -> Z -> Z.
Variable font : Font.
Variable codepoints : list Z.
Variables glyph_width glyph_height baseline_offset columns : Z.
Hypothesis columns_pos : 0 < columns.
Hypothesis width_nonneg : 0 <= glyph_width.
Hypothesis height_nonneg : 0 <= glyph_height.
Hypothesis all_render : Forall (renders font) codepoints.

Let count := Z.of_nat (length codepoints).
Let rows := (count + columns - 1) / columns.

(** When every code point renders, [create_atlas] returns an atlas of
    [columns x rows] cells and the index of the enumerated code points;
    a pixel under no drawn bitmap is 0. *)
Lemma create_atlas_ok :
  exists atlas,
    create_atlas blend font codepoints glyph_width glyph_height
      baseline_offset columns
      = Ok (atlas, index_of columns (enumerate codepoints) ∅) /\
    width atlas = columns * glyph_width /\
    height atlas = rows * glyph_height /\
    forall x y,
      0 <= x < width atlas -> 0 <= y < height atlas ->
      (forall i cp, (i, cp) ∈ enumerate codepoints ->
         outside_glyph font glyph_width glyph_height baseline_offset columns
           i cp x y) ->
      getpixel atlas x y = Ok 0.
Proof.
  assert (Hrows : 0 <= rows) by (apply Z.div_pos; lia).
  rewrite create_atlas_unfold. fold count. unfold py_floordiv.
  destruct (Z.eqb_spec columns 0) as [E|_]; [lia|].
  cbn [mbind result_bind]. fold rows.
  rewrite Image_new_ok by nia. cbn [mbind result_bind].
  set (blank := Image (columns * glyph_width) (rows * glyph_height) _).
  destruct (place_glyphs_ok blend font glyph_width glyph_height baseline_offset
              columns ltac:(lia) codepoints 0 blank ∅ all_render)
    as (atlas & E & Hw & Hh & Hl & Hpix).
  exists atlas. split; [exact E|]. split; [exact Hw|]. split; [exact Hh|].
  intros x y Hx Hy Hout. rewrite (Hpix x y Hout).
  rewrite Hw in Hx. rewrite Hh in Hy. cbn [width height blank] in Hx, Hy.
  unfold getpixel, blank, pixel_index. cbn [width height pixels].
  replace (in_bounds _ x y) with true
    by (symmetry; apply in_bounds_true; cbn; lia).
  rewrite lookup_replicate_2 by nia. reflexivity.
Qed.
End AtlasGrid.

(** C2 fails as stated.  With a repeated code point the index holds the
    cell of the last occurrence: 65 at position 0 is recorded at (1, 0), not
    at (0, 0).  And a glyph wider than its cell reaches the unfilled cell
    next to it: with one glyph and two columns, pixel (1, 0) lies in cell 1
    and is inked. *)
Lemma create_atlas_last_wins_and_spills :
  (exists atlas index,
     create_atlas demo_blend demo_font [65; 87; 65] 3 2 0 2 = Ok (atlas, index) /\
     [65; 87; 65] !! 0%nat = Some 65 /\
     index !! str 65 = Some (1, 0) /\
     index !! str 65 <> Some (0 / 2, 0 mod 2)) /\
  (exists atlas index,
     create_atlas demo_blend demo_font [87] 1 2 0 2 = Ok (atlas, index) /\
     Z.of_nat (length [87]) <= 0 / 2 * 2 + 1 / 1 /\
     getpixel atlas 1 0 = Ok 255).
Proof.
  split.
  - eexists _, _. split; [vm_compute; reflexivity|].
    split; [reflexivity|]. split; [now vm_compute|]. now vm_compute.
  - eexists _, _. split; [vm_compute; reflexivity|].
    split; [now vm_compute|reflexivity].
Qed.

(** C2, amended.  For a positive column count, non-negative cell sides and
    code points that all render: the index maps each code point to the cell
    [(i div C, i mod C)] of its last input position [i], which is its only
    position when the code points are pairwise distinct; distinct positions
    have distinct cells; the image is [C] cells wide and [ceil(N / C)] cells
    high; and when every drawn glyph stays inside its own cell, the pixels
    of the cells of index [N] and above are 0. *)
Theorem create_atlas_grid (blend : Z -> Z -> Z) (font : Font)
    (codepoints : list Z) (glyph_width glyph_height baseline_offset columns : Z) :
  0 < columns -> 0 <= glyph_width -> 0 <= glyph_height ->
  Forall (renders font) codepoints ->
  let count := Z.of_nat (length codepoints) in
  exists atlas index,
    create_atlas blend font codepoints glyph_width glyph_height
      baseline_offset columns = Ok (atlas, index) /\
    width atlas = columns * glyph_width /\
    height atlas
      = Qceiling (inject_Z count / inject_Z columns) * glyph_height /\
    (forall (n : nat) cp,
       codepoints !! n = Some cp ->
       (forall n', (n < n')%nat -> codepoints !! n' <> Some cp) ->
       index !! str cp = Some (Z.of_nat n / columns, Z.of_nat n mod columns)) /\
    (NoDup codepoints ->
     forall (n : nat) cp,
       codepoints !! n = Some cp ->
       index !! str cp = Some (Z.of_nat n / columns, Z.of_nat n mod columns)) /\
    (forall i j,
       (i / columns, i mod columns) = (j / columns, j mod columns) -> i = j) /\
    (Forall (glyph_in_cell font glyph_width glyph_height baseline_offset)
       codepoints ->
     forall x y,
       0 <= x < width atlas -> 0 <= y < height atlas ->
       count <= y / glyph_height * columns + x / glyph_width ->
       getpixel atlas x y = Ok 0).
Proof.
  intros HC Hgw Hgh Hall count.
  destruct (create_atlas_ok blend font codepoints glyph_width glyph_height
              baseline_offset columns HC Hgw Hgh Hall)
    as (atlas & E & Hw & Hh & Hpix).
  exists atlas, (index_of columns (enumerate codepoints) ∅).
  split; [exact E|]. split; [exact Hw|].
  split; [now rewrite Hh, ceil_div|].
  split; [intros n cp; apply index_of_last|].
  split.
  { intros Hnd n cp Hn. apply index_of_last; [assumption|].
    intros n' Hlt Hn'. pose proof (NoDup_lookup _ _ _ _ Hnd Hn Hn'). lia. }
  split; [intros i j; apply cell_injective; lia|].
  intros Hcells x y Hx Hy Htrail. apply Hpix; try assumption.
  intros i cp Hin. apply elem_of_enumerate_from in Hin.
  destruct Hin as (n & -> & Hn).
  apply in_cell_outside; try lia.
  - rewrite Forall_forall in Hcells. apply Hcells.
    now apply list_elem_of_lookup_2 with n.
  - apply lookup_lt_Some in Hn. subst count. lia.
Qed.

Lemma create_atlas_grid_witness :
  exists atlas index,
    create_atlas demo_blend demo_font [65; 87; 65] 3 2 0 2 = Ok (atlas, index) /\
    width atlas = 2 * 3 /\
    height atlas = 2 * 2 /\
    index !! str 87 = Some (0, 1) /\
    index !! str 65 = Some (1, 0) /\
    getpixel atlas 4 3 = Ok 0.
Proof.
  assert (Hr : Forall (renders demo_font) [65; 87; 65]).
  { repeat constructor; eexists _, _, _; repeat split; reflexivity. }
  assert (Hc : Forall (glyph_in_cell demo_font 3 2 0) [65; 87; 65]).
  { apply Forall_forall. intros cp Hin c b0 b1 b2 b3 m.
    rewrite !elem_of_cons, elem_of_nil in Hin.
    destruct Hin as [->|[->|[->|[]]]]; intros [= <-] [= <- <- <- <-] [= <-];
      cbn; lia. }
  destruct (create_atlas_grid demo_blend demo_font [65; 87; 65] 3 2 0 2
              ltac:(lia) ltac:(lia) ltac:(lia) Hr)
    as (atlas & index & E & Hw & Hh & Hlast & _ & _ & Htrail).
  exists atlas, index. split; [exact E|]. split; [exact Hw|].
  split; [exact Hh|].
  split; [apply (Hlast 1%nat 87); [reflexivity|]|].
  { intros [|[|[|n']]] Hlt; try lia; discriminate. }
  split; [apply (Hlast 2%nat 65); [reflexivity|]|].
  { intros [|[|[|n']]] Hlt; try lia; discriminate. }
  assert (Hh' : height atlas = 4) by exact Hh.
  apply (Htrail Hc); [rewrite Hw; lia|rewrite Hh'; lia|now vm_compute].
Defined.

(** The scenario of the design document: the 95 ASCII code points in 16
    columns make 6 rows, and capital A, at position 33, is in cell (2, 1). *)
Example ascii_scenario :
  Z.of_nat (length ASCII_CHARS) = 95 /\
  Qceiling (inject_Z 95 / inject_Z 16) = 6 /\
  ASCII_CHARS !! 33%nat = Some 65 /\
  index_of 16 (enumerate ASCII_CHARS) ∅ !! "65"%string = Some (2, 1).
Proof. repeat split; vm_compute; reflexivity. Qed.

(** ** Errors of the font backend *)

Lemma for_each_app {A St : Type} (l1 l2 : list A) (body : A -> St -> result St) :
  forall s : St,
    for_each (l1 ++ l2) body s = (s' ← for_each l1 body s; for_each l2 body s').
Proof.
  induction l1 as [|a l1 IH]; intros s; [reflexivity|].
  rewrite <- app_comm_cons. cbn [for_each].
  destruct (body a s) as [s1|e]; [|reflexivity]. cbn. apply IH.
Qed.

Lemma renders_bbox (font : Font) (cp : Z) :
  renders font cp -> exists bbox, glyph_bbox font cp = Ok bbox.
Proof.
  intros (c & bbox & m & Hc & Hb & _). exists bbox.
  unfold glyph_bbox. rewrite Hc. exact Hb.
Qed.

Lemma measure_font_unfold (font : Font) (codepoints : list Z) :
  measure_font font codepoints
  = for_each codepoints (measure_glyph font) (0, 0, 0).
Proof. reflexivity. Qed.

Lemma measure_glyph_bbox (font : Font) (cp : Z) (st : Z * Z * Z) :
  measure_glyph font cp st
  = ('(b0, b1, b2, b3) ← glyph_bbox font cp;
     Ok (Z.max st.1.1 (b2 - b0), Z.max st.1.2 (- b1), Z.max st.2 b3)).
Proof.
  destruct st as [[mw ma] mb]. unfold measure_glyph, glyph_bbox.
  destruct (chr cp); reflexivity.
Qed.

Lemma measure_font_prefix (font : Font) (codepoints : list Z) :
  forall st : Z * Z * Z,
    Forall (renders font) codepoints ->
    exists st', for_each codepoints (measure_glyph font) st = Ok st'.
Proof.
  induction codepoints as [|cp cps IH]; intros st Hall.
  - exists st. reflexivity.
  - apply Forall_cons in Hall. destruct Hall as [Hcp Hall].
    destruct (renders_bbox font cp Hcp) as [[[[b0 b1] b2] b3] Hb].
    cbn [for_each]. rewrite measure_glyph_bbox, Hb. cbn. now apply IH.
Qed.

Lemma measure_font_raises (font : Font) (pre post : list Z) (cp : Z) (e : exn) :
  Forall (renders font) pre -> glyph_bbox font cp = Raise e ->
  measure_font font (pre ++ cp :: post) = Raise e.
Proof.
  intros Hpre Hcp. rewrite measure_font_unfold, for_each_app.
  destruct (measure_font_prefix font pre (0, 0, 0) Hpre) as [st ->].
  cbn [mbind result_bind for_each].
  rewrite measure_glyph_bbox, Hcp. reflexivity.
Qed.

Lemma place_glyph_raises blend (font : Font) (gw gh bo columns i cp : Z)
    (state : image Z * gmap string (Z * Z)) (e : exn) :
  columns <> 0 -> render_glyph font cp = Raise e ->
  place_glyph blend font gw gh bo columns (i, cp) state = Raise e.
Proof.
  intros HC Hr. destruct state as [atlas md].
  unfold place_glyph, py_floordiv, py_mod, draw_text.
  destruct (Z.eqb_spec columns 0) as [E|_]; [contradiction|].
  cbn. unfold render_glyph in Hr.
  destruct (chr cp) as [c|e1]; cbn in *; [|congruence].
  destruct (textbbox font c) as [[[[b0 b1] b2] b3]|e2]; cbn in *; [|congruence].
  destruct (getmask font c) as [m|e3]; cbn in *; congruence.
Qed.

Lemma create_atlas_raises blend (font : Font) (pre post : list Z)
    (gw gh bo columns cp : Z) (e : exn) :
  0 < columns -> 0 <= gw -> 0 <= gh ->
  Forall (renders font) pre -> render_glyph font cp = Raise e ->
  create_atlas blend font (pre ++ cp :: post) gw gh bo columns = Raise e.
Proof.
  intros HC Hgw Hgh Hpre Hcp.
  rewrite create_atlas_unfold. unfold py_floordiv.
  destruct (Z.eqb_spec columns 0) as [E|_]; [lia|].
  cbn [mbind result_bind].
  rewrite Image_new_ok; [|lia|].
  2: { apply Z.mul_nonneg_nonneg; [apply Z.div_pos|]; lia. }
  cbn [mbind result_bind].
  unfold enumerate. rewrite enumerate_from_app, for_each_app.
  destruct (place_glyphs_ok blend font gw gh bo columns ltac:(lia) pre 0
              (Image (columns * gw)
                 ((Z.of_nat (length (pre ++ cp :: post)) + columns - 1)
                    / columns * gh)
                 (replicate
                    (Z.to_nat
                       (columns * gw *
                        ((Z.of_nat (length (pre ++ cp :: post)) + columns - 1)
                           / columns * gh))) 0)) ∅ Hpre)
    as (atlas & -> & _).
  cbn [mbind result_bind enumerate_from for_each].
  rewrite (place_glyph_raises blend font gw gh bo columns _ cp _ e) by (lia || assumption).
  reflexivity.
Qed.

(** C7 fails as stated.  What the backend raises is passed on as it is,
    not as [UnsupportedGlyph]; a code point outside Unicode ends in the
    [ValueError] of [chr]; and a font that answers for a glyph it does not
    have, as FreeType does with its replacement glyph, is measured and
    drawn without any error. *)
Lemma measure_font_no_unsupported_glyph :
  measure_font failing_font [65; 12354] = Raise (BackendError "invalid glyph") /\
  measure_font failing_font [65; 12354] <> Raise (UnsupportedGlyph 12354) /\
  create_atlas demo_blend failing_font [65; 12354] 1 2 0 2
    = Raise (BackendError "invalid glyph") /\
  measure_font demo_font [65; 1114112] = Raise ValueError /\
  measure_font demo_font [65; 12354] = Ok (1, 0, 2) /\
  is_ok (create_atlas demo_blend demo_font [65; 12354] 1 2 0 2) = true.
Proof.
  repeat split; try (vm_compute; reflexivity). discriminate.
Qed.

(** C7, amended.  When [chr] or the font backend raises for a requested
    code point, all earlier ones having rendered, [measure_font] ends with
    that very exception instead of returning maxima, and so does
    [create_atlas]. *)
Theorem font_errors_propagate (font : Font) (pre post : list Z) (cp : Z)
    (e : exn) :
  Forall (renders font) pre ->
  (glyph_bbox font cp = Raise e ->
   measure_font font (pre ++ cp :: post) = Raise e) /\
  (render_glyph font cp = Raise e ->
   forall blend glyph_width glyph_height baseline_offset columns,
     0 < columns -> 0 <= glyph_width -> 0 <= glyph_height ->
     create_atlas blend font (pre ++ cp :: post) glyph_width glyph_height
       baseline_offset columns = Raise e).
Proof.
  intros Hpre. split.
  - now apply measure_font_raises.
  - intros Hcp blend gw gh bo columns HC Hgw Hgh.
    now apply create_atlas_raises.
Qed.

Lemma font_errors_propagate_witness :
  measure_font failing_font ([65] ++ 12354 :: [66])
    = Raise (BackendError "invalid glyph") /\
  create_atlas demo_blend failing_font ([65] ++ 12354 :: [66]) 1 2 0 2
    = Raise (BackendError "invalid glyph").
Proof.
  assert (Hpre : Forall (renders failing_font) [65]).
  { repeat constructor. eexists _, _, _. repeat split; reflexivity. }
  destruct (font_errors_propagate failing_font [65] [66] 12354
              (BackendError "invalid glyph") Hpre) as [Hm Hc].
  split; [now apply Hm|]. apply Hc; [reflexivity|lia..].
Defined.

(** ** The generation run and its two output files *)

Lemma run_bind {A B : Type} (m : io A) (k : A -> io B) (fs : filesystem) :
  run (m ≫= k) fs =
  match run m fs with
  | (fs', Ok a) => run (k a) fs'
  | (fs', Raise e) => (fs', Raise e)
  end.
Proof. reflexivity. Qed.

Lemma run_lift_bind {A B : Type} (r : result A) (k : A -> io B)
    (fs : filesystem) :
  run (lift r ≫= k) fs =
  match r with
  | Ok a => run (k a) fs
  | Raise e => (fs, Raise e)
  end.
Proof. destruct r; reflexivity. Qed.

(** *** Paths below the output directory *)

Lemma joinpath_atlas_png (d : path) :
  joinpath d "atlas.png" = (d.1, d.2 ++ ["atlas.png"%string]).
Proof. reflexivity. Qed.

Lemma joinpath_atlas_json (d : path) :
  joinpath d "atlas.json" = (d.1, d.2 ++ ["atlas.json"%string]).
Proof. reflexivity. Qed.

Lemma parent_child (a : string) (l : list string) (x : string) :
  parent (a, l ++ [x]) = (a, l).
Proof. unfold parent. cbn [fst snd]. now rewrite removelast_last. Qed.

Lemma node_at_child (fs : filesystem) (a : string) (l : list string)
    (x : string) :
  x <> ".."%string -> node_at fs (a, l ++ [x]) = fs !! (a, l ++ [x]).
Proof.
  intros Hx. unfold node_at. cbn [snd]. rewrite forallb_app. cbn [forallb].
  destruct (String.eqb_spec ".." x) as [E|_]; [now contradiction Hx|].
  now rewrite andb_false_r.
Qed.

Lemma child_not_above (l l' : list string) (x : string) :
  l' `prefix_of` l -> l ++ [x] <> l'.
Proof.
  intros Hp E. apply prefix_length in Hp. rewrite <- E, length_app in Hp.
  cbn in Hp. lia.
Qed.

Lemma output_paths_distinct (d : path) :
  joinpath d "atlas.png" <> joinpath d "atlas.json" /\
  joinpath d "atlas.png" <> d /\ joinpath d "atlas.json" <> d.
Proof.
  rewrite joinpath_atlas_png, joinpath_atlas_json. destruct d as [a l].
  cbn [fst snd]. split; [|split].
  - intros [= E]. apply app_inj_tail in E. destruct E as [_ E]. discriminate.
  - intros [= E]. now apply (child_not_above l l "atlas.png").
  - intros [= E]. now apply (child_not_above l l "atlas.json").
Qed.

(** *** Creating the output directory *)

Section FileFacts.
Variable env : environment.

Lemma os_mkdir_cases (p : path) (fs : filesystem) :
  (exists e, run (os_mkdir env p) fs = (fs, Raise e)) \/
  (run (os_mkdir env p) fs = (<[p := Directory]> fs, Ok ()) /\
   os_error env (Mkdir p) = None /\
   node_at fs (parent p) = Some Directory /\ node_at fs p = None).
Proof.
  unfold os_mkdir. cbn [run].
  destruct (os_error env (Mkdir p)) as [e|]; [left; now eexists|].
  destruct (node_at fs (parent p)) as [[|w c]|]; try (left; now eexists).
  destruct (node_at fs p) as [n|]; [left; now eexists|].
  right. now repeat split.
Qed.

Lemma is_dir_insert (fs : filesystem) (p : path) :
  is_dir (<[p := Directory]> fs) p = true.
Proof.
  unfold is_dir, node_at. destruct (forallb _ p.2); [reflexivity|].
  now rewrite lookup_insert_eq.
Qed.

Lemma mkdir_exist_ok_cases (p : path) (fs : filesystem) :
  (exists e, run (mkdir_exist_ok env p) fs = (fs, Raise e)) \/
  (run (mkdir_exist_ok env p) fs = (fs, Ok ()) /\ is_dir fs p = true) \/
  (run (mkdir_exist_ok env p) fs = (<[p := Directory]> fs, Ok ()) /\
   node_at fs p = None).
Proof.
  unfold mkdir_exist_ok. cbn [run].
  destruct (os_mkdir_cases p fs) as [[e ->]|(-> & _ & _ & Hn)].
  - destruct (is_FileNotFoundError e); [left; now eexists|].
    destruct (is_dir fs p) eqn:Hd; [right; left; now split|left; now eexists].
  - right. right. now split.
Qed.

(** [mkdir] touches only the path and the paths above it, and what it
    puts there is a directory; when it returns, the path is a directory. *)
Lemma mkdir_parents_spec (anchor : string) (reversed : list string) :
  forall fs : filesystem,
    let out := run (mkdir_parents env anchor reversed) fs in
    (forall q : path,
       ~ (q.1 = anchor /\ q.2 `prefix_of` List.rev reversed) ->
       out.1 !! q = fs !! q) /\
    (forall q : path,
       out.1 !! q = fs !! q \/
       (node_at fs q = None /\ out.1 !! q = Some Directory)) /\
    (out.2 = Ok () -> is_dir out.1 (anchor, List.rev reversed) = true).
Proof.
  induction reversed as [|x up IH]; intros fs out; subst out.
  - cbn [mkdir_parents run]. set (p := (anchor, List.rev [])).
    destruct (os_mkdir_cases p fs) as [[e ->]|(-> & _ & _ & Hn)].
    + destruct (is_FileNotFoundError e); cbn [fst snd];
        [split; [reflexivity|split; [now left|discriminate]]|].
      destruct (is_dir fs p) eqn:Hd; cbn [fst snd].
      * split; [reflexivity|split; [now left|now intros _]].
      * split; [reflexivity|split; [now left|discriminate]].
    + cbn [fst snd]. split; [|split].
      * intros q Hq. apply lookup_insert_ne. intros <-. apply Hq.
        split; reflexivity.
      * intros q. destruct (decide (p = q)) as [<-|Hne].
        -- right. split; [exact Hn|apply lookup_insert_eq].
        -- left. now apply lookup_insert_ne.
      * intros _. apply is_dir_insert.
  - cbn [mkdir_parents run]. set (p := (anchor, List.rev (x :: up))).
    assert (Hself : forall q : path,
              ~ (q.1 = anchor /\ q.2 `prefix_of` List.rev (x :: up)) -> p <> q).
    { intros q Hq <-. apply Hq. split; reflexivity. }
    destruct (os_mkdir_cases p fs) as [[e ->]|(-> & _ & _ & Hn)].
    + destruct (is_FileNotFoundError e).
      * specialize (IH fs). cbv zeta in IH.
        destruct (run (mkdir_parents env anchor up) fs) as [fs1 [[]|e1]];
          cbn [fst snd] in IH |- *; destruct IH as (IHf & IHa & _).
        -- assert (Hup : forall q : path,
                     ~ (q.1 = anchor /\ q.2 `prefix_of` List.rev (x :: up)) ->
                     ~ (q.1 = anchor /\ q.2 `prefix_of` List.rev up)).
           { intros q Hq [Ha Hp]. apply Hq. split; [exact Ha|].
             cbn [List.rev]. now apply prefix_app_r. }
           destruct (mkdir_exist_ok_cases p fs1)
             as [[e' ->]|[[-> Hd]|[-> Hn1]]]; cbn [fst snd].
           ++ split; [intros q Hq; apply IHf; now apply Hup|].
              split; [exact IHa|discriminate].
           ++ split; [intros q Hq; apply IHf; now apply Hup|].
              split; [exact IHa|now intros _].
           ++ split; [|split].
              ** intros q Hq. rewrite lookup_insert_ne by now apply Hself.
                 apply IHf. now apply Hup.
              ** intros q. destruct (decide (p = q)) as [<-|Hne].
                 --- rewrite lookup_insert_eq.
                     destruct (IHa p) as [E|[Hnone _]].
                     +++ right. split; [|reflexivity].
                         unfold node_at in Hn1 |- *.
                         destruct (forallb _ p.2); [discriminate|].
                         now rewrite <- E.
                     +++ right. now split.
                 --- rewrite lookup_insert_ne by assumption. apply IHa.
              ** intros _. apply is_dir_insert.
        -- split; [|split; [exact IHa|discriminate]].
           intros q Hq. apply IHf. intros [Ha Hp]. apply Hq.
           split; [exact Ha|]. cbn [List.rev]. now apply prefix_app_r.
      * destruct (is_dir fs p) eqn:Hd; cbn [fst snd].
        -- split; [reflexivity|split; [now left|now intros _]].
        -- split; [reflexivity|split; [now left|discriminate]].
    + cbn [fst snd]. split; [|split].
      * intros q Hq. apply lookup_insert_ne. now apply Hself.
      * intros q. destruct (decide (p = q)) as [<-|Hne].
        -- right. split; [exact Hn|apply lookup_insert_eq].
        -- left. now apply lookup_insert_ne.
      * intros _. apply is_dir_insert.
Qed.

(** Creating the output directory leaves the two output paths alone. *)
Lemma mkdir_keeps_outputs (d : path) (fs : filesystem) :
  (run (mkdir env d) fs).1 !! joinpath d "atlas.png"
    = fs !! joinpath d "atlas.png" /\
  (run (mkdir env d) fs).1 !! joinpath d "atlas.json"
    = fs !! joinpath d "atlas.json".
Proof.
  destruct (mkdir_parents_spec d.1 (List.rev d.2) fs) as (Hf & _).
  rewrite rev_involutive in Hf. unfold mkdir.
  rewrite joinpath_atlas_png, joinpath_atlas_json. split; apply Hf.
  - cbn [fst snd]. intros [_ Hp]. now apply (child_not_above d.2 _ "atlas.png") in Hp.
  - cbn [fst snd]. intros [_ Hp]. now apply (child_not_above d.2 _ "atlas.json") in Hp.
Qed.

(** *** Saving the image, then writing the metadata *)

Lemma after_failed_save_lookup (fs : filesystem) (p : path) :
  (after_failed_save env fs p !! p = fs !! p \/
   after_failed_save env fs p !! p = Some (File true Partial)) /\
  forall q, q <> p -> after_failed_save env fs p !! q = fs !! q.
Proof.
  unfold after_failed_save.
  destruct (fs !! p) as [n|] eqn:E; [|destruct (removes_failed_save env)].
  - split; [right; apply lookup_insert_eq|].
    intros q Hq. now apply lookup_insert_ne.
  - split; [now left|reflexivity].
  - split; [right; apply lookup_insert_eq|].
    intros q Hq. now apply lookup_insert_ne.
Qed.

(** The last stage of a run: save the image, write the metadata, print
    the closing lines.  The metadata file is not touched before the image is
    saved completely. *)
Lemma save_stage (img : image rgba) (doc : output_data) (a m : path)
    (closing : result ()) (fs : filesystem) :
  a <> m ->
  let out :=
    run (_ ← Image_save env img a; f ← open_w env m;
         _ ← json_dump env doc f; lift closing) fs in
  let saved := out.1 !! a = Some (File true (PngImage img)) in
  match out.2 with
  | Ok _ =>
      saved /\ out.1 !! m = Some (File true (JsonDocument doc)) /\
      width img <> 0 /\ height img <> 0
  | Raise e =>
      (out.1 !! m = fs !! m /\
       (out.1 !! a = fs !! a \/ out.1 !! a = Some (File true Partial) \/
        saved)) \/
      (saved /\
       (out.1 !! m = Some (File true Partial) \/
        out.1 !! m = Some (File true (JsonDocument doc))))
  end.
Proof.
  intros Ham out saved. subst out saved.
  cbn [run mbind io_bind Image_save open_w json_dump lift].
  destruct (after_failed_save_lookup fs a) as [Hfa Hfo].
  destruct (open_error env fs a) as [e|]; [left; split; [reflexivity|now left]|].
  destruct ((width img =? 0) || (height img =? 0)) eqn:Hempty.
  { cbn [fst snd]. left. split; [apply Hfo; congruence|].
    destruct Hfa as [->| ->]; [now left|right; now left]. }
  apply orb_false_elim in Hempty. destruct Hempty as [Hw Hh].
  apply Z.eqb_neq in Hw, Hh.
  destruct (os_error env (Write a (PngImage img))) as [e|].
  { cbn [fst snd]. left. split; [apply Hfo; congruence|].
    destruct Hfa as [->| ->]; [now left|right; now left]. }
  destruct (open_error env (<[a := File true (PngImage img)]> fs) m) as [e|].
  { cbn [fst snd]. left. split; [now apply lookup_insert_ne|].
    right. right. apply lookup_insert_eq. }
  assert (Hsaved : forall n n' : node,
            <[m := n]> (<[m := n']> (<[a := File true (PngImage img)]> fs)) !! a
            = Some (File true (PngImage img))).
  { intros n n'. now rewrite !lookup_insert_ne, lookup_insert_eq by congruence. }
  destruct (os_error env (Write m (JsonDocument doc))) as [e|].
  { cbn [fst snd]. right. split; [apply Hsaved|]. left. apply lookup_insert_eq. }
  destruct closing as [[]|e]; cbn [fst snd].
  - split; [apply Hsaved|]. split; [apply lookup_insert_eq|now split].
  - right. split; [apply Hsaved|]. right. apply lookup_insert_eq.
Qed.
End FileFacts.

(** *** The stages of a run *)

(** One step of a run that does not touch the file system: both sides
    go on when it returns and stop when it raises. *)
Ltac lift_step :=
  rewrite ?run_lift_bind; cbv beta iota;
  lazymatch goal with
  | |- match ?r with Ok _ => _ | Raise _ => _ end = _ =>
      destruct r as [?|?]; [|reflexivity];
      repeat match goal with
             | y : (_ * _)%type |- _ => destruct y
             | y : unit |- _ => destruct y
             end;
      cbn [mbind result_bind]
  end.

Section PipelineFacts.
Variable fl : rounding.
Variable blend : Z -> Z -> Z.
Variable truetype : string -> Z -> result Font.
Variable env : environment.

(** A run is: create the directory; compute and print, without touching
    the file system; save the image; write the metadata; print. *)
Lemma generate_atlas_stages (font_path : string) (target_size : Z)
    (style output_dir : string) (columns : Z) (codepoints : option (list Z))
    (fs : filesystem) :
  let atlas_path := joinpath (Path output_dir) "atlas.png" in
  let metadata_path := joinpath (Path output_dir) "atlas.json" in
  run (generate_atlas fl blend truetype env font_path target_size style
         output_dir columns codepoints) fs
  = run (_ ← mkdir env (Path output_dir);
         '(img, doc) ← lift (atlas_outputs fl blend truetype env font_path
                               target_size style columns
                               (default DEFAULT_CHARSET codepoints));
         _ ← Image_save env img atlas_path;
         f ← open_w env metadata_path;
         _ ← json_dump env doc f;
         lift (closing_lines env atlas_path metadata_path)) fs.
Proof.
  intros atlas_path metadata_path.
  unfold generate_atlas, atlas_outputs, closing_lines, print.
  fold atlas_path metadata_path.
  rewrite !(run_bind (mkdir env (Path output_dir))).
  destruct (run (mkdir env (Path output_dir)) fs) as [fs1 [[]|e]];
    [|reflexivity].
  cbn [mbind result_bind].
  repeat lift_step.
  rewrite !(run_bind (Image_save env _ atlas_path)).
  destruct (run (Image_save env _ atlas_path) fs1) as [fs2 [[]|e]];
    [|reflexivity].
  rewrite !(run_bind (open_w env metadata_path)).
  destruct (run (open_w env metadata_path) fs2) as [fs3 [f|e]]; [|reflexivity].
  rewrite !(run_bind (json_dump env _ f)).
  destruct (run (json_dump env _ f) fs3) as [fs4 [[]|e]]; [|reflexivity].
  repeat lift_step. rewrite ?run_lift_bind. reflexivity.
Qed.

(** C9, amended.  A run that returns has written both files completely,
    and the image has pixels.  A run that raises leaves one of these
    states: the metadata file as it was before the run, with the image file
    as it was, incomplete, or saved (the image without its metadata); or the
    image saved and the metadata file incomplete or complete.  The metadata
    file is never touched before the image has been saved completely, and
    nothing is rolled back. *)
Theorem generate_atlas_outputs (font_path : string) (target_size : Z)
    (style output_dir : string) (columns : Z) (codepoints : option (list Z))
    (fs : filesystem) :
  let atlas_path := joinpath (Path output_dir) "atlas.png" in
  let metadata_path := joinpath (Path output_dir) "atlas.json" in
  let out :=
    run (generate_atlas fl blend truetype env font_path target_size style
           output_dir columns codepoints) fs in
  match out.2 with
  | Ok _ =>
      exists img doc,
        out.1 !! atlas_path = Some (File true (PngImage img)) /\
        out.1 !! metadata_path = Some (File true (JsonDocument doc)) /\
        width img <> 0 /\ height img <> 0
  | Raise e =>
      (out.1 !! metadata_path = fs !! metadata_path /\
       (out.1 !! atlas_path = fs !! atlas_path \/
        out.1 !! atlas_path = Some (File true Partial) \/
        exists img, out.1 !! atlas_path = Some (File true (PngImage img)))) \/
      (exists img,
         out.1 !! atlas_path = Some (File true (PngImage img)) /\
         (out.1 !! metadata_path = Some (File true Partial) \/
          exists doc,
            out.1 !! metadata_path = Some (File true (JsonDocument doc))))
  end.
Proof.
  intros atlas_path metadata_path out.
  destruct (output_paths_distinct (Path output_dir)) as (Hpm & _ & _).
  fold atlas_path metadata_path in Hpm.
  destruct (mkdir_keeps_outputs env (Path output_dir) fs) as [Hka Hkm].
  fold atlas_path in Hka. fold metadata_path in Hkm.
  assert (Hout : out = run (generate_atlas fl blend truetype env font_path
                              target_size style output_dir columns codepoints)
                         fs) by reflexivity.
  clearbody out. rewrite generate_atlas_stages in Hout.
  fold atlas_path metadata_path in Hout.
  rewrite run_bind in Hout.
  destruct (run (mkdir env (Path output_dir)) fs) as [fs1 [[]|e]];
    cbn [fst snd] in *;
    [|subst out; left; split; [assumption|now left]].
  rewrite run_lift_bind in Hout.
  destruct (atlas_outputs fl blend truetype env font_path target_size style
              columns (default DEFAULT_CHARSET codepoints)) as [[img doc]|e];
    [|subst out; left; split; [assumption|now left]].
  pose proof (save_stage env img doc atlas_path metadata_path
                (closing_lines env atlas_path metadata_path) fs1 Hpm) as Hs.
  cbv zeta in Hs. rewrite <- Hout in Hs. clear Hout.
  destruct out as [fs' [[]|e]]; cbn [fst snd] in *.
  - exists img, doc. exact Hs.
  - rewrite Hka, Hkm in Hs.
    destruct Hs as [[Hm [Ha|[Ha|Ha]]]|[Ha [Hm|Hm]]].
    + left. split; [exact Hm|now left].
    + left. split; [exact Hm|right; now left].
    + left. split; [exact Hm|right; right; now exists img].
    + right. exists img. split; [exact Ha|now left].
    + right. exists img. split; [exact Ha|right; now exists doc].
Qed.
End PipelineFacts.

(** C9 fails as stated.  When the name [atlas.json] is taken by a
    directory, the run fails after the image has been saved: the image file
    exists, no metadata file does.  And on a terminal that cannot encode
    the check mark of the last lines, the run raises after both files have
    been written. *)
Lemma generate_atlas_image_without_metadata :
  let out :=
    run (generate_atlas binary64 demo_blend demo_truetype quiet "font.ttf" 2
           "solid" "out" 2 (Some [65; 87])) blocked_fs in
  let late :=
    run (generate_atlas binary64 demo_blend demo_truetype latin1_terminal
           "font.ttf" 2 "solid" "out" 2 (Some [65; 87])) ∅ in
  (out.2 = Raise (BackendError "IsADirectoryError") /\
   blocked_fs !! Path "out/atlas.png" = None /\
   out.1 !! Path "out/atlas.png"
     = Some (File true (PngImage
         (Image 4 1 [(255, 255, 255, 255); (0, 0, 0, 0);
                     (255, 255, 255, 255); (255, 255, 255, 255)]))) /\
   out.1 !! Path "out/atlas.json" = Some Directory) /\
  (late.2 = Raise (BackendError "UnicodeEncodeError") /\
   (exists img, late.1 !! Path "out/atlas.png"
                = Some (File true (PngImage img))) /\
   (exists doc, late.1 !! Path "out/atlas.json"
                = Some (File true (JsonDocument doc)))).
Proof.
  cbv zeta. split.
  - repeat split; vm_compute; reflexivity.
  - split; [vm_compute; reflexivity|].
    split; eexists; vm_compute; reflexivity.
Qed.

(** On an empty file system, in an environment in which nothing goes
    wrong, the same run returns and writes both files. *)
Example generate_atlas_success :
  let out :=
    run (generate_atlas binary64 demo_blend demo_truetype quiet "font.ttf" 2
           "solid" "out" 2 (Some [65; 87])) ∅ in
  out.2 = Ok () /\
  (exists img, out.1 !! Path "out/atlas.png"
               = Some (File true (PngImage img))) /\
  (exists doc, out.1 !! Path "out/atlas.json"
               = Some (File true (JsonDocument doc))).
Proof.
  cbv zeta. split; [vm_compute; reflexivity|].
  split; eexists; vm_compute; reflexivity.
Qed.

(** A run into a directory below a regular file raises as [Path.mkdir]
    does, and a run into the working directory writes [atlas.png] there. *)
Example generate_atlas_paths :
  (run (generate_atlas binary64 demo_blend demo_truetype quiet "font.ttf" 2
          "solid" "out/sub" 2 (Some [65; 87]))
       {[ Path "out" := File true OtherData ]}).2
  = Raise (BackendError "NotADirectoryError") /\
  (exists img,
     (run (generate_atlas binary64 demo_blend demo_truetype quiet "font.ttf" 2
             "solid" "." 2 (Some [65; 87]))
          {[ Path "atlas.png" := File true OtherData ]}).1 !! Path "atlas.png"
     = Some (File true (PngImage img))) /\
  (run (generate_atlas binary64 demo_blend demo_truetype quiet "font.ttf" 2
          "solid" "a/b/c" 2 (Some [65; 87])) ∅).1 !! Path "a/b"
  = Some Directory.
Proof.
  split; [vm_compute; reflexivity|].
  split; [eexists|]; vm_compute; reflexivity.
Qed.
(** * Further properties *)

(** ** GlyphMeasurer: the returned maxima *)

(** The loop of [measure_font] from any accumulator: each maximum only
    grows, bounds the extent of every measured glyph, and is the initial
    value or the extent of some glyph. *)
Lemma measure_glyphs_inv (font : Font) (codepoints : list Z) :
  forall w0 a0 d0 w a d,
    for_each codepoints (measure_glyph font) (w0, a0, d0) = Ok (w, a, d) ->
    (w0 <= w /\ a0 <= a /\ d0 <= d) /\
    (forall cp, cp ∈ codepoints ->
       exists b0 b1 b2 b3,
         glyph_bbox font cp = Ok (b0, b1, b2, b3) /\
         b2 - b0 <= w /\ - b1 <= a /\ b3 <= d) /\
    (w = w0 \/ exists cp b0 b1 b2 b3,
       cp ∈ codepoints /\ glyph_bbox font cp = Ok (b0, b1, b2, b3) /\
       w = b2 - b0) /\
    (a = a0 \/ exists cp b0 b1 b2 b3,
       cp ∈ codepoints /\ glyph_bbox font cp = Ok (b0, b1, b2, b3) /\
       a = - b1) /\
    (d = d0 \/ exists cp b0 b1 b2 b3,
       cp ∈ codepoints /\ glyph_bbox font cp = Ok (b0, b1, b2, b3) /\
       d = b3).
Proof.
  induction codepoints as [|cp cps IH]; intros w0 a0 d0 w a d Hrun.
  - injection Hrun as <- <- <-.
    split; [lia|]. split; [intros cp Hin; inversion Hin|].
    repeat split; now left.
  - cbn [for_each] in Hrun. rewrite measure_glyph_bbox in Hrun.
    destruct (glyph_bbox font cp) as [[[[b0 b1] b2] b3]|e] eqn:Hb;
      [|discriminate].
    cbn in Hrun. apply IH in Hrun.
    destruct Hrun as ((Hw & Ha & Hd) & Hall & Hwx & Hax & Hdx).
    split; [lia|]. split.
    { intros cp' Hin. apply elem_of_cons in Hin as [->|Hin].
      - exists b0, b1, b2, b3. split; [assumption|]. lia.
      - now apply Hall. }
    assert (Hlift : forall (v : Z) (P : Z -> Z -> Z -> Z -> Z),
              (exists cp' c0 c1 c2 c3, cp' ∈ cps /\
                 glyph_bbox font cp' = Ok (c0, c1, c2, c3) /\ v = P c0 c1 c2 c3) ->
              exists cp' c0 c1 c2 c3, cp' ∈ cp :: cps /\
                 glyph_bbox font cp' = Ok (c0, c1, c2, c3) /\ v = P c0 c1 c2 c3).
    { intros v P (cp' & c0 & c1 & c2 & c3 & Hin & Hc & Hv).
      exists cp', c0, c1, c2, c3. split; [now apply list_elem_of_further|].
      now split. }
    assert (Hhere : forall (v : Z) (P : Z -> Z -> Z -> Z -> Z),
              v = P b0 b1 b2 b3 ->
              exists cp' c0 c1 c2 c3, cp' ∈ cp :: cps /\
                 glyph_bbox font cp' = Ok (c0, c1, c2, c3) /\ v = P c0 c1 c2 c3).
    { intros v P Hv. exists cp, b0, b1, b2, b3.
      split; [apply list_elem_of_here|]. now split. }
    split; [|split].
    + destruct Hwx as [->|Hex];
        [|right; exact (Hlift w (fun c0 _ c2 _ => c2 - c0) Hex)].
      destruct (Z.max_spec w0 (b2 - b0)) as [[_ ->]|[_ ->]]; [|now left].
      right. exact (Hhere _ (fun c0 _ c2 _ => c2 - c0) eq_refl).
    + destruct Hax as [->|Hex];
        [|right; exact (Hlift a (fun _ c1 _ _ => - c1) Hex)].
      destruct (Z.max_spec a0 (- b1)) as [[_ ->]|[_ ->]]; [|now left].
      right. exact (Hhere _ (fun _ c1 _ _ => - c1) eq_refl).
    + destruct Hdx as [->|Hex];
        [|right; exact (Hlift d (fun _ _ _ c3 => c3) Hex)].
      destruct (Z.max_spec d0 b3) as [[_ ->]|[_ ->]]; [|now left].
      right. exact (Hhere _ (fun _ _ _ c3 => c3) eq_refl).
Qed.

(** X1. When [measure_font] returns, the three maxima are non-negative,
    each bounds the corresponding extent (width, height above, height below
    the origin) of every requested glyph, and each is 0 or the extent of
    one of the glyphs. *)
Theorem measure_font_maxima (font : Font) (codepoints : list Z)
    (max_width max_above max_below : Z) :
  measure_font font codepoints = Ok (max_width, max_above, max_below) ->
  (0 <= max_width /\ 0 <= max_above /\ 0 <= max_below) /\
  (forall cp, cp ∈ codepoints ->
     exists b0 b1 b2 b3,
       glyph_bbox font cp = Ok (b0, b1, b2, b3) /\
       b2 - b0 <= max_width /\ - b1 <= max_above /\ b3 <= max_below) /\
  (max_width = 0 \/ exists cp b0 b1 b2 b3,
     cp ∈ codepoints /\ glyph_bbox font cp = Ok (b0, b1, b2, b3) /\
     max_width = b2 - b0) /\
  (max_above = 0 \/ exists cp b0 b1 b2 b3,
     cp ∈ codepoints /\ glyph_bbox font cp = Ok (b0, b1, b2, b3) /\
     max_above = - b1) /\
  (max_below = 0 \/ exists cp b0 b1 b2 b3,
     cp ∈ codepoints /\ glyph_bbox font cp = Ok (b0, b1, b2, b3) /\
     max_below = b3).
Proof.
  intros Hrun. rewrite measure_font_unfold in Hrun.
  exact (measure_glyphs_inv font codepoints 0 0 0 _ _ _ Hrun).
Qed.

Lemma measure_font_maxima_witness :
  (0 <= 3 /\ 0 <= 0 /\ 0 <= 2) /\
  (forall cp, cp ∈ [65; 87] ->
     exists b0 b1 b2 b3,
       glyph_bbox demo_font cp = Ok (b0, b1, b2, b3) /\
       b2 - b0 <= 3 /\ - b1 <= 0 /\ b3 <= 2) /\
  (3 = 0 \/ exists cp b0 b1 b2 b3,
     cp ∈ [65; 87] /\ glyph_bbox demo_font cp = Ok (b0, b1, b2, b3) /\
     3 = b2 - b0) /\
  (0 = 0 \/ exists cp b0 b1 b2 b3,
     cp ∈ [65; 87] /\ glyph_bbox demo_font cp = Ok (b0, b1, b2, b3) /\
     0 = - b1) /\
  (2 = 0 \/ exists cp b0 b1 b2 b3,
     cp ∈ [65; 87] /\ glyph_bbox demo_font cp = Ok (b0, b1, b2, b3) /\
     2 = b3).
Proof. apply (measure_font_maxima demo_font [65; 87] 3 0 2). reflexivity. Defined.

(** The loop from an accumulator is the loop from zero, joined with the
    accumulator by [max]. *)
Lemma measure_glyphs_from (font : Font) (codepoints : list Z) :
  forall w0 a0 d0,
    0 <= w0 -> 0 <= a0 -> 0 <= d0 ->
    for_each codepoints (measure_glyph font) (w0, a0, d0)
    = ('(w, a, d) ← measure_font font codepoints;
       Ok (Z.max w0 w, Z.max a0 a, Z.max d0 d)).
Proof.
  rewrite measure_font_unfold.
  induction codepoints as [|cp cps IH]; intros w0 a0 d0 Hw Ha Hd.
  - cbn. do 2 f_equal; [f_equal|]; lia.
  - cbn [for_each]. rewrite !measure_glyph_bbox.
    destruct (glyph_bbox font cp) as [[[[b0 b1] b2] b3]|e]; [|reflexivity].
    cbn [mbind result_bind fst snd].
    rewrite (IH (Z.max w0 (b2 - b0)) (Z.max a0 (- b1)) (Z.max d0 b3))
      by lia.
    rewrite (IH (Z.max 0 (b2 - b0)) (Z.max 0 (- b1)) (Z.max 0 b3)) by lia.
    destruct (for_each cps (measure_glyph font) (0, 0, 0))
      as [[[w a] d]|e]; [|reflexivity].
    cbn. do 2 f_equal; [f_equal|]; lia.
Qed.

(** X2. Measuring a concatenation joins the two measurements: the maxima
    of [l1 ++ l2] are the larger of the maxima of [l1] and of [l2]; a
    failure in [l1] comes first. *)
Theorem measure_font_app (font : Font) (l1 l2 : list Z) :
  measure_font font (l1 ++ l2)
  = ('(w1, a1, d1) ← measure_font font l1;
     '(w2, a2, d2) ← measure_font font l2;
     Ok (Z.max w1 w2, Z.max a1 a2, Z.max d1 d2)).
Proof.
  rewrite (measure_font_unfold font (l1 ++ l2)), for_each_app.
  rewrite <- measure_font_unfold.
  destruct (measure_font font l1) as [[[w1 a1] d1]|e] eqn:H1; [|reflexivity].
  cbn [mbind result_bind].
  rewrite measure_font_unfold in H1.
  destruct (measure_glyphs_inv font l1 0 0 0 w1 a1 d1 H1) as ((Hw & Ha & Hd) & _).
  now apply measure_glyphs_from.
Qed.

Lemma measure_glyphs_perm (font : Font) (l l' : list Z) :
  l ≡ₚ l' ->
  (forall cp, cp ∈ l -> exists bbox, glyph_bbox font cp = Ok bbox) ->
  forall st, for_each l (measure_glyph font) st
             = for_each l' (measure_glyph font) st.
Proof.
  induction 1 as [|x l l' Hp IH|x y l|l l' l'' Hp1 IH1 Hp2 IH2];
    intros Hok st.
  - reflexivity.
  - cbn [for_each]. destruct (measure_glyph font x st); [|reflexivity].
    cbn. apply IH. intros cp Hin. apply Hok. now apply list_elem_of_further.
  - cbn [for_each]. rewrite !measure_glyph_bbox.
    destruct (Hok x) as [[[[x0 x1] x2] x3] Hx];
      [apply list_elem_of_further, list_elem_of_here|].
    destruct (Hok y) as [[[[y0 y1] y2] y3] Hy]; [apply list_elem_of_here|].
    rewrite Hx, Hy. cbn [mbind result_bind].
    rewrite !measure_glyph_bbox, Hx, Hy. cbn [mbind result_bind fst snd].
    match goal with
    | |- for_each _ _ ?s1 = for_each _ _ ?s2 =>
        replace s1 with s2; [reflexivity|]
    end.
    rewrite !pair_equal_spec. repeat split; lia.
  - rewrite IH1 by assumption. apply IH2.
    intros cp Hin. apply Hok. now rewrite Hp1.
Qed.

(** X3. The measurement does not depend on the order of the code points:
    when [measure_font] returns for a list, it returns the same maxima for
    every permutation of it. *)
Theorem measure_font_permutation (font : Font) (l l' : list Z)
    (maxima : Z * Z * Z) :
  l ≡ₚ l' -> measure_font font l = Ok maxima ->
  measure_font font l' = Ok maxima.
Proof.
  intros Hp Hrun. rewrite <- Hrun, !measure_font_unfold. symmetry.
  apply measure_glyphs_perm; [assumption|].
  destruct maxima as [[w a] d]. rewrite measure_font_unfold in Hrun.
  destruct (measure_glyphs_inv font l 0 0 0 w a d Hrun) as (_ & Hall & _).
  intros cp Hin. destruct (Hall cp Hin) as (b0 & b1 & b2 & b3 & Hb & _).
  now exists (b0, b1, b2, b3).
Qed.

Lemma measure_font_permutation_witness :
  measure_font demo_font [87; 65] = Ok (3, 0, 2).
Proof.
  apply (measure_font_permutation demo_font [65; 87] [87; 65]).
  - apply perm_swap.
  - reflexivity.
Defined.

(** ** StyleConverter: channels and the relation between the styles *)

Lemma getpixel_fmap_inv {P R : Type} (f : P -> R) (img : image P) (x y : Z)
    (r : R) :
  getpixel (Image (width img) (height img) (f <$> pixels img)) x y = Ok r ->
  exists p, getpixel img x y = Ok p /\ r = f p.
Proof.
  unfold getpixel, in_bounds, pixel_index. cbn [width height pixels].
  destruct ((0 <=? x) && (x <? width img) && (0 <=? y) && (y <? height img));
    [|discriminate].
  rewrite list_lookup_fmap.
  destruct (pixels img !! Z.to_nat (y * width img + x)) as [p|]; [|discriminate].
  intros [= <-]. now exists p.
Qed.

(** X4. In either style every output pixel has three equal colour
    channels: a pixel of positive coverage is white with a positive alpha,
    every other pixel is [(0, 0, 0, 0)]. *)
Theorem convert_to_rgba_channels (gray : image Z) (style : string)
    (out : image rgba) :
  wf_image gray -> convert_to_rgba gray style = Ok out ->
  forall x y r g b a,
    getpixel out x y = Ok (r, g, b, a) ->
    exists c,
      getpixel gray x y = Ok c /\ r = g /\ g = b /\
      ((0 < c /\ r = 255 /\ 0 < a) \/ (c <= 0 /\ r = 0 /\ a = 0)).
Proof.
  intros Hwf Hrun x y r g b a Hp.
  destruct (String.eqb_spec style "solid") as [->|Hstyle].
  - rewrite (convert_to_rgba_solid gray Hwf) in Hrun. injection Hrun as <-.
    apply getpixel_fmap_inv in Hp. destruct Hp as (c & Hc & E).
    exists c. split; [assumption|]. unfold solid_pixel in E.
    destruct (Z.ltb_spec 0 c); injection E as -> -> -> ->;
      (split; [reflexivity|]; split; [reflexivity|]); [left|right]; lia.
  - rewrite (convert_to_rgba_not_solid gray style Hstyle Hwf) in Hrun.
    injection Hrun as <-.
    apply getpixel_fmap_inv in Hp. destruct Hp as (c & Hc & E).
    exists c. split; [assumption|]. unfold smooth_pixel in E.
    destruct (Z.ltb_spec 0 c); injection E as -> -> -> ->;
      (split; [reflexivity|]; split; [reflexivity|]); [left|right]; lia.
Qed.

Lemma convert_to_rgba_channels_witness :
  exists c,
    getpixel (Image 2 1 [0; 128]) 1 0 = Ok c /\ 255 = 255 /\ 255 = 255 /\
    ((0 < c /\ 255 = 255 /\ 0 < 128) \/ (c <= 0 /\ 255 = 0 /\ 128 = 0)).
Proof.
  apply (convert_to_rgba_channels (Image 2 1 [0; 128]) "smooth"
           (Image 2 1 [(0, 0, 0, 0); (255, 255, 255, 128)])).
  - repeat split; cbn; lia.
  - reflexivity.
  - reflexivity.
Defined.

(** X5. The [solid] conversion is the [smooth] conversion with its alpha
    thresholded: a pixel of the smooth image with a positive alpha becomes
    opaque white, any other pixel stays transparent. *)
Theorem solid_is_thresholded_smooth (gray : image Z) (style : string) :
  wf_image gray -> style <> "solid"%string ->
  exists smooth_out solid_out,
    convert_to_rgba gray style = Ok smooth_out /\
    convert_to_rgba gray "solid" = Ok solid_out /\
    solid_out = Image (width smooth_out) (height smooth_out)
                  (threshold_alpha <$> pixels smooth_out).
Proof.
  intros Hwf Hstyle. eexists _, _.
  split; [now apply convert_to_rgba_not_solid|].
  split; [now apply convert_to_rgba_solid|].
  cbn [width height pixels]. f_equal.
  rewrite <- list_fmap_compose. apply list_fmap_ext. intros i c _.
  unfold compose, threshold_alpha, smooth_pixel, solid_pixel, alpha.
  destruct (Z.ltb_spec 0 c) as [Hc|Hc]; cbn.
  - destruct (Z.ltb_spec 0 c); [reflexivity|lia].
  - reflexivity.
Qed.

Lemma solid_is_thresholded_smooth_witness :
  exists smooth_out solid_out,
    convert_to_rgba (Image 2 1 [0; 128]) "smooth" = Ok smooth_out /\
    convert_to_rgba (Image 2 1 [0; 128]) "solid" = Ok solid_out /\
    solid_out = Image (width smooth_out) (height smooth_out)
                  (threshold_alpha <$> pixels smooth_out).
Proof.
  apply (solid_is_thresholded_smooth (Image 2 1 [0; 128]) "smooth").
  - repeat split; cbn; lia.
  - discriminate.
Defined.

(** ** AtlasRasterizer: what a returned atlas satisfies *)

Lemma place_glyph_inv blend (font : Font) (gw gh bo columns i cp : Z)
    (state state' : image Z * gmap string (Z * Z)) :
  place_glyph blend font gw gh bo columns (i, cp) state = Ok state' ->
  renders font cp.
Proof.
  destruct state as [atlas md]. unfold place_glyph, draw_text.
  destruct (py_floordiv i columns); [|discriminate]. cbn.
  destruct (py_mod i columns); [|discriminate]. cbn.
  destruct (chr cp) as [c|] eqn:Hc; [|discriminate]. cbn.
  destruct (textbbox font c) as [[[[b0 b1] b2] b3]|] eqn:Hb; [|discriminate].
  cbn.
  destruct (getmask font c) as [m|] eqn:Hm; [|discriminate].
  intros _. now exists c, (b0, b1, b2, b3), m.
Qed.

Lemma place_glyphs_inv blend (font : Font) (gw gh bo columns : Z)
    (codepoints : list Z) :
  forall start state state',
    for_each (enumerate_from start codepoints)
      (place_glyph blend font gw gh bo columns) state = Ok state' ->
    Forall (renders font) codepoints.
Proof.
  induction codepoints as [|cp cps IH]; intros start state state' Hrun;
    [constructor|].
  cbn [enumerate_from for_each] in Hrun.
  destruct (place_glyph blend font gw gh bo columns (start, cp) state)
    as [state1|] eqn:H1; [|discriminate].
  constructor; [now apply place_glyph_inv in H1|].
  exact (IH _ _ _ Hrun).
Qed.

(** A returned atlas: the column count was not zero, every code point
    rendered, the index is the one built from the enumeration and the image
    is a well-formed buffer of the computed size. *)
Lemma create_atlas_inv blend (font : Font) (codepoints : list Z)
    (gw gh bo columns : Z) (atlas : image Z) (index : gmap string (Z * Z)) :
  create_atlas blend font codepoints gw gh bo columns = Ok (atlas, index) ->
  let rows := (Z.of_nat (length codepoints) + columns - 1) / columns in
  columns <> 0 /\ Forall (renders font) codepoints /\
  index = index_of columns (enumerate codepoints) ∅ /\
  width atlas = columns * gw /\ height atlas = rows * gh /\
  wf_image atlas.
Proof.
  intros Hrun rows. rewrite create_atlas_unfold in Hrun.
  unfold py_floordiv in Hrun.
  destruct (Z.eqb_spec columns 0) as [E|HC]; [discriminate|].
  cbn [mbind result_bind] in Hrun. fold rows in Hrun.
  unfold Image_new in Hrun.
  destruct ((columns * gw <? 0) || (rows * gh <? 0)) eqn:Hneg; [discriminate|].
  apply orb_false_elim in Hneg. destruct Hneg as [Hw Hh].
  apply Z.ltb_ge in Hw, Hh.
  cbn [mbind result_bind] in Hrun.
  pose proof (place_glyphs_inv _ _ _ _ _ _ _ _ _ _ Hrun) as Hall.
  destruct (place_glyphs_ok blend font gw gh bo columns HC codepoints 0
              (Image (columns * gw) (rows * gh)
                 (replicate (Z.to_nat (columns * gw * (rows * gh))) 0)) ∅ Hall)
    as (atlas' & E & Hw' & Hh' & Hl' & _).
  unfold enumerate in Hrun. rewrite E in Hrun. injection Hrun as <- <-.
  cbn [width height pixels] in Hw', Hh', Hl'.
  repeat split; try assumption; try lia.
  rewrite Hl', length_replicate, Hw', Hh'. reflexivity.
Qed.

Lemma index_of_cons (columns i cp : Z) (items : list (Z * Z))
    (md : gmap string (Z * Z)) :
  index_of columns ((i, cp) :: items) md
  = index_of columns items (<[str cp := (i / columns, i mod columns)]> md).
Proof. reflexivity. Qed.

Lemma index_of_other (columns : Z) (items : list (Z * Z)) (key : string) :
  forall md : gmap string (Z * Z),
    (forall i cp, (i, cp) ∈ items -> str cp <> key) ->
    index_of columns items md !! key = md !! key.
Proof.
  induction items as [|[i cp] items IH]; intros md Hne; [reflexivity|].
  rewrite index_of_cons, IH.
  - apply lookup_insert_ne. apply (Hne i cp). apply list_elem_of_here.
  - intros j cp' Hin. apply (Hne j). now apply list_elem_of_further.
Qed.

Lemma index_of_lookup_inv (columns : Z) (items : list (Z * Z)) (key : string)
    (v : Z * Z) :
  forall md : gmap string (Z * Z),
    index_of columns items md !! key = Some v ->
    md !! key = Some v \/
    exists i cp, (i, cp) ∈ items /\ key = str cp /\
                 v = (i / columns, i mod columns).
Proof.
  induction items as [|[i cp] items IH]; intros md Hl; [now left|].
  rewrite index_of_cons in Hl. apply IH in Hl. destruct Hl as [Hl|(j & cp' & Hin & Hk & Hv)].
  - destruct (decide (str cp = key)) as [E|Hne].
    + rewrite E, lookup_insert_eq in Hl. injection Hl as <-.
      right. exists i, cp. split; [apply list_elem_of_here|]. now split.
    + rewrite lookup_insert_ne in Hl by assumption. now left.
  - right. exists j, cp'. split; [now apply list_elem_of_further|]. now split.
Qed.

Lemma index_of_dom (columns : Z) (items : list (Z * Z)) :
  forall md : gmap string (Z * Z),
    dom (index_of columns items md)
    = dom md ∪ list_to_set ((fun item => str item.2) <$> items).
Proof.
  induction items as [|[i cp] items IH]; intros md.
  - cbn. now rewrite union_empty_r_L.
  - rewrite index_of_cons, IH, dom_insert_L. cbn.
    rewrite (comm_L (∪) {[str cp]} (dom md)). now rewrite <- (assoc_L (∪)).
Qed.

Lemma enumerate_from_snd {A : Type} (l : list A) :
  forall start, (fun item => item.2) <$> enumerate_from start l = l.
Proof.
  induction l as [|a l IH]; intros start; [reflexivity|].
  cbn. now rewrite IH.
Qed.

Lemma create_atlas_dom blend (font : Font) (codepoints : list Z)
    (gw gh bo columns : Z) (atlas : image Z) (index : gmap string (Z * Z)) :
  create_atlas blend font codepoints gw gh bo columns = Ok (atlas, index) ->
  dom index = list_to_set (str <$> codepoints).
Proof.
  intros Hrun. apply create_atlas_inv in Hrun.
  destruct Hrun as (_ & _ & -> & _).
  rewrite index_of_dom, dom_empty_L, union_empty_l_L. unfold enumerate.
  rewrite <- (enumerate_from_snd codepoints 0) at 2.
  now rewrite <- list_fmap_compose.
Qed.

Lemma convert_to_rgba_size (gray : image Z) (style : string) (img : image rgba) :
  wf_image gray -> convert_to_rgba gray style = Ok img ->
  width img = width gray /\ height img = height gray /\ wf_image img.
Proof.
  intros Hwf H. pose proof Hwf as (Hw & Hh & Hlen).
  destruct (String.eqb_spec style "solid") as [->|Hstyle].
  - rewrite convert_to_rgba_solid in H by assumption. injection H as <-.
    unfold wf_image. cbn [width height pixels]. rewrite length_fmap.
    now repeat split.
  - rewrite convert_to_rgba_not_solid in H by assumption. injection H as <-.
    unfold wf_image. cbn [width height pixels]. rewrite length_fmap.
    now repeat split.
Qed.

(** The cell of an index entry of a returned atlas lies inside the
    image. *)
Lemma create_atlas_cells blend (font : Font) (codepoints : list Z)
    (gw gh bo columns : Z) (atlas : image Z) (index : gmap string (Z * Z)) :
  0 < columns ->
  create_atlas blend font codepoints gw gh bo columns = Ok (atlas, index) ->
  forall key row col,
    index !! key = Some (row, col) ->
    (exists (n : nat) cp,
       codepoints !! n = Some cp /\ key = str cp /\
       Z.of_nat n = row * columns + col) /\
    0 <= row /\ 0 <= col < columns /\
    0 <= col * gw /\ (col + 1) * gw <= width atlas /\
    0 <= row * gh /\ (row + 1) * gh <= height atlas.
Proof.
  intros HC Hrun key row col Hkey.
  apply create_atlas_inv in Hrun.
  destruct Hrun as (_ & _ & -> & Hw & Hh & (Hw0 & Hh0 & _)).
  apply index_of_lookup_inv in Hkey.
  destruct Hkey as [Hkey|(i & cp & Hin & -> & [= -> ->])];
    [now rewrite lookup_empty in Hkey|].
  apply elem_of_enumerate_from in Hin. destruct Hin as (n & -> & Hn).
  rewrite Z.add_0_l.
  pose proof (lookup_lt_Some _ _ _ Hn) as Hlt.
  pose proof (Z.div_mod (Z.of_nat n) columns ltac:(lia)) as Hdm.
  pose proof (Z.mod_pos_bound (Z.of_nat n) columns HC) as Hm.
  assert (Hrow : 0 <= Z.of_nat n / columns) by (apply Z.div_pos; lia).
  assert (Hrows : Z.of_nat n / columns + 1
                  <= (Z.of_nat (length codepoints) + columns - 1) / columns).
  { replace (Z.of_nat (length codepoints) + columns - 1)
      with (Z.of_nat (length codepoints) - 1 + 1 * columns) by lia.
    rewrite Z.div_add by lia.
    pose proof (Z.div_le_mono (Z.of_nat n) (Z.of_nat (length codepoints) - 1)
                  columns HC ltac:(lia)).
    lia. }
  rewrite Hw in *. rewrite Hh in *.
  set (rows := (Z.of_nat (length codepoints) + columns - 1) / columns) in *.
  assert (Hgw : 0 <= gw) by nia.
  assert (Hgh : 0 <= gh) by nia.
  split; [exists n, cp; split; [assumption|]; split; [reflexivity|lia]|].
  split; [assumption|]. split; [assumption|].
  split; [nia|]. split; [nia|]. split; [nia|nia].
Qed.

Lemma index_keys blend (font : Font) (codepoints : list Z)
    (gw gh bo columns : Z) (atlas : image Z) (index : gmap string (Z * Z)) :
  create_atlas blend font codepoints gw gh bo columns = Ok (atlas, index) ->
  forall key, is_Some (index !! key) <->
              exists cp, cp ∈ codepoints /\ key = str cp.
Proof.
  intros Hrun key.
  rewrite <- elem_of_dom, (create_atlas_dom _ _ _ _ _ _ _ _ _ Hrun).
  rewrite elem_of_list_to_set, list_elem_of_fmap. split.
  - intros (cp & -> & Hin). now exists cp.
  - intros (cp & Hin & ->). now exists cp.
Qed.

Lemma create_atlas_index_size blend (font : Font) (codepoints : list Z)
    (gw gh bo columns : Z) (atlas : image Z) (index : gmap string (Z * Z)) :
  create_atlas blend font codepoints gw gh bo columns = Ok (atlas, index) ->
  (size index <= length codepoints)%nat /\
  (NoDup codepoints -> size index = length codepoints).
Proof.
  intros Hrun. pose proof (create_atlas_dom _ _ _ _ _ _ _ _ _ Hrun) as Hdom.
  split.
  - rewrite <- size_dom, Hdom.
    rewrite <- (length_fmap str codepoints).
    generalize (str <$> codepoints). intros l.
    induction l as [|a l IH]; [cbn; rewrite size_empty; lia|].
    cbn [list_to_set length].
    pose proof (size_union_alt ({[a]} : gset string) (list_to_set l)) as Hu.
    rewrite Hu, size_singleton.
    pose proof (subseteq_size (list_to_set l ∖ {[a]} : gset string)
                  (list_to_set l)
                  ltac:(apply subseteq_difference_l; reflexivity)).
    lia.
  - intros Hnd. rewrite <- size_dom, Hdom.
    rewrite size_list_to_set, length_fmap; [reflexivity|].
    apply NoDup_fmap_2; [|assumption]. intros a b. apply str_inj.
Qed.

(** X6. The returned index has exactly one entry per distinct requested
    code point, under its decimal numeral: a key is present exactly when it
    is [str cp] for a requested [cp], so the index never has more entries
    than code points, and has as many when they are pairwise distinct. *)
Theorem create_atlas_index_keys blend (font : Font) (codepoints : list Z)
    (glyph_width glyph_height baseline_offset columns : Z)
    (atlas : image Z) (index : gmap string (Z * Z)) :
  create_atlas blend font codepoints glyph_width glyph_height baseline_offset
    columns = Ok (atlas, index) ->
  (forall key, is_Some (index !! key) <->
               exists cp, cp ∈ codepoints /\ key = str cp) /\
  (size index <= length codepoints)%nat /\
  (NoDup codepoints -> size index = length codepoints).
Proof.
  intros Hrun. split.
  - exact (index_keys _ _ _ _ _ _ _ _ _ Hrun).
  - exact (create_atlas_index_size _ _ _ _ _ _ _ _ _ Hrun).
Qed.

Lemma create_atlas_index_keys_witness :
  exists atlas index,
    create_atlas demo_blend demo_font [65; 87; 65] 3 2 0 2 = Ok (atlas, index) /\
    (forall key, is_Some (index !! key) <->
                 exists cp, cp ∈ [65; 87; 65] /\ key = str cp) /\
    (size index <= 3)%nat.
Proof.
  eexists _, _. split; [vm_compute; reflexivity|].
  destruct (create_atlas_index_keys demo_blend demo_font [65; 87; 65] 3 2 0 2
              _ _ eq_refl) as (Hk & Hs & _).
  split; [exact Hk|exact Hs].
Defined.

(** X7. On a returned atlas with a positive column count, every entry of
    the index is the cell of an input position holding that code point, the
    column is below the column count, and the rectangle of the cell lies
    inside the image: a reader of the metadata never addresses a pixel
    outside the atlas. *)
Theorem create_atlas_cells_in_image blend (font : Font) (codepoints : list Z)
    (glyph_width glyph_height baseline_offset columns : Z)
    (atlas : image Z) (index : gmap string (Z * Z)) :
  0 < columns ->
  create_atlas blend font codepoints glyph_width glyph_height baseline_offset
    columns = Ok (atlas, index) ->
  forall key row col,
    index !! key = Some (row, col) ->
    (exists (n : nat) cp,
       codepoints !! n = Some cp /\ key = str cp /\
       Z.of_nat n = row * columns + col) /\
    0 <= row /\ 0 <= col < columns /\
    0 <= col * glyph_width /\ (col + 1) * glyph_width <= width atlas /\
    0 <= row * glyph_height /\ (row + 1) * glyph_height <= height atlas.
Proof.
  intros HC Hrun. exact (create_atlas_cells _ _ _ _ _ _ _ _ _ HC Hrun).
Qed.

Lemma create_atlas_cells_in_image_witness :
  exists atlas index,
    create_atlas demo_blend demo_font [65; 87; 66] 3 2 0 2 = Ok (atlas, index) /\
    index !! str 66 = Some (1, 0) /\
    (1 + 1) * 2 <= height atlas.
Proof.
  eexists _, _. split; [vm_compute; reflexivity|].
  split; [now vm_compute|].
  refine (proj2 (proj2 (proj2 (proj2 (proj2 (proj2
    (create_atlas_cells_in_image demo_blend demo_font [65; 87; 66] 3 2 0 2 _ _
       _ eq_refl (str 66) 1 0 _))))))); [lia|now vm_compute].
Defined.

(** X8. Whatever [create_atlas] returns, [convert_to_rgba] accepts under
    every style tag, and the RGBA image has the size of the grid:
    [columns * glyph_width] by [rows * glyph_height] with
    [rows = (N + columns - 1) div columns], one pixel per grey pixel. *)
Theorem create_atlas_then_convert blend (font : Font) (codepoints : list Z)
    (glyph_width glyph_height baseline_offset columns : Z)
    (atlas : image Z) (index : gmap string (Z * Z)) (style : string) :
  create_atlas blend font codepoints glyph_width glyph_height baseline_offset
    columns = Ok (atlas, index) ->
  exists out,
    convert_to_rgba atlas style = Ok out /\
    width out = columns * glyph_width /\
    height out
      = (Z.of_nat (length codepoints) + columns - 1) / columns * glyph_height /\
    wf_image out /\
    length (pixels out) = length (pixels atlas).
Proof.
  intros Hrun. apply create_atlas_inv in Hrun.
  destruct Hrun as (_ & _ & _ & Hw & Hh & Hwf).
  pose proof Hwf as (Hw0 & Hh0 & Hlen).
  destruct (String.eqb_spec style "solid") as [->|Hstyle].
  - eexists. split; [now apply convert_to_rgba_solid|].
    unfold wf_image. cbn [width height pixels]. rewrite length_fmap.
    split; [exact Hw|]. split; [exact Hh|]. split; [|reflexivity].
    split; [exact Hw0|]. split; [exact Hh0|exact Hlen].
  - eexists. split; [now apply convert_to_rgba_not_solid|].
    unfold wf_image. cbn [width height pixels]. rewrite length_fmap.
    split; [exact Hw|]. split; [exact Hh|]. split; [|reflexivity].
    split; [exact Hw0|]. split; [exact Hh0|exact Hlen].
Qed.

Lemma create_atlas_then_convert_witness :
  exists out,
    convert_to_rgba
      (Image 6 4 [255; 0; 0; 255; 255; 255; 255; 0; 0; 255; 255; 255;
                  0; 0; 0; 0; 0; 0; 0; 0; 0; 0; 0; 0]) "smooth" = Ok out /\
    width out = 2 * 3.
Proof.
  destruct (create_atlas_then_convert demo_blend demo_font [65; 87; 66] 3 2 0 2
              (Image 6 4 [255; 0; 0; 255; 255; 255; 255; 0; 0; 255; 255; 255;
                          0; 0; 0; 0; 0; 0; 0; 0; 0; 0; 0; 0])
              (index_of 2 (enumerate [65; 87; 66]) ∅) "smooth")
    as (out & E & Hw & _).
  - vm_compute. reflexivity.
  - exists out. split; [exact E|exact Hw].
Defined.

(** X9. Appending code points to the request leaves the index entries of
    all other code points as they were: the entry of a code point that is
    not among the appended ones is the same in both atlases. *)
Theorem create_atlas_append_keeps_index blend (font : Font)
    (codepoints more : list Z)
    (glyph_width glyph_height baseline_offset columns : Z)
    (atlas atlas' : image Z) (index index' : gmap string (Z * Z)) :
  create_atlas blend font codepoints glyph_width glyph_height baseline_offset
    columns = Ok (atlas, index) ->
  create_atlas blend font (codepoints ++ more) glyph_width glyph_height
    baseline_offset columns = Ok (atlas', index') ->
  forall cp, cp ∉ more -> index' !! str cp = index !! str cp.
Proof.
  intros H1 H2 cp Hnot.
  apply create_atlas_inv in H1. destruct H1 as (_ & _ & -> & _).
  apply create_atlas_inv in H2. destruct H2 as (_ & _ & -> & _).
  unfold enumerate. rewrite enumerate_from_app, index_of_app.
  apply index_of_other. intros i cp' Hin E.
  apply elem_of_enumerate_from in Hin. destruct Hin as (n & _ & Hn).
  apply str_inj in E. subst cp'. apply Hnot.
  now apply list_elem_of_lookup_2 in Hn.
Qed.

Lemma create_atlas_append_keeps_index_witness :
  exists atlas index atlas' index',
    create_atlas demo_blend demo_font [65; 87] 3 2 0 2 = Ok (atlas, index) /\
    create_atlas demo_blend demo_font ([65; 87] ++ [66; 67]) 3 2 0 2
      = Ok (atlas', index') /\
    index' !! str 87 = index !! str 87.
Proof.
  eexists _, _, _, _. split; [vm_compute; reflexivity|].
  split; [vm_compute; reflexivity|].
  apply (create_atlas_append_keeps_index demo_blend demo_font [65; 87] [66; 67]
           3 2 0 2 _ _ _ _ eq_refl eq_refl 87).
  rewrite !elem_of_cons, elem_of_nil. intros [H|[H|[]]]; discriminate.
Defined.

(** A pixel of the image under the mask is blended with the mask value;
    any other pixel is kept. *)
Lemma draw_bitmap_at blend (img : image Z) (X Y : Z) (mask : image Z)
    (x y old : Z) :
  getpixel img x y = Ok old ->
  getpixel (draw_bitmap blend img X Y mask) x y
  = Ok (match getpixel mask (x - X) (y - Y) with
        | Ok m => blend old m
        | Raise _ => old
        end).
Proof.
  unfold getpixel at 1. unfold pixel_index.
  destruct (in_bounds img x y) eqn:Hin; [|discriminate].
  destruct (pixels img !! Z.to_nat (y * width img + x)) as [old'|] eqn:Hold;
    [|discriminate].
  intros [= ->].
  unfold getpixel at 1. unfold draw_bitmap, pixel_index.
  change (in_bounds (Image (width img) (height img) _) x y)
    with (in_bounds img x y).
  cbn [width height pixels]. rewrite Hin.
  apply in_bounds_true in Hin. destruct Hin as [Hx Hy].
  rewrite list_lookup_imap, Hold. cbn. rewrite Z2Nat.id by nia.
  replace ((y * width img + x) mod width img) with x
    by (rewrite Z.add_comm, Z_mod_plus_full, Z.mod_small; lia).
  replace ((y * width img + x) / width img) with y
    by (rewrite Z.add_comm, Z.div_add by lia; rewrite Z.div_small; lia).
  reflexivity.
Qed.

Lemma create_atlas_loop blend (font : Font) (codepoints : list Z)
    (gw gh bo columns : Z) (atlas : image Z) (index : gmap string (Z * Z)) :
  create_atlas blend font codepoints gw gh bo columns = Ok (atlas, index) ->
  let rows := (Z.of_nat (length codepoints) + columns - 1) / columns in
  0 <= columns * gw /\ 0 <= rows * gh /\
  for_each (enumerate codepoints) (place_glyph blend font gw gh bo columns)
    (Image (columns * gw) (rows * gh)
       (replicate (Z.to_nat (columns * gw * (rows * gh))) 0), ∅)
  = Ok (atlas, index).
Proof.
  intros Hrun rows. rewrite create_atlas_unfold in Hrun.
  unfold py_floordiv in Hrun.
  destruct (Z.eqb_spec columns 0) as [E|HC]; [discriminate|].
  cbn [mbind result_bind] in Hrun. fold rows in Hrun.
  unfold Image_new in Hrun.
  destruct ((columns * gw <? 0) || (rows * gh <? 0)) eqn:Hneg; [discriminate|].
  apply orb_false_elim in Hneg. destruct Hneg as [Hw Hh].
  apply Z.ltb_ge in Hw, Hh.
  split; [assumption|]. split; [assumption|]. exact Hrun.
Qed.

(** X10. When every glyph stays inside its own cell, a returned atlas is
    the glyph bitmaps laid out on the grid and nothing else: the pixel
    [(x, y)] of the cell of input position [n] is the bitmap pixel of that
    position's glyph composited over 0 where the bitmap covers it (the
    bitmap is drawn with its bounding-box left edge on the left edge of the
    cell and its origin [baseline_offset] below the top edge), and 0 where
    it does not. *)
Theorem create_atlas_pixels blend (font : Font) (codepoints : list Z)
    (glyph_width glyph_height baseline_offset columns : Z)
    (atlas : image Z) (index : gmap string (Z * Z)) :
  0 < columns ->
  Forall (glyph_in_cell font glyph_width glyph_height baseline_offset)
    codepoints ->
  create_atlas blend font codepoints glyph_width glyph_height baseline_offset
    columns = Ok (atlas, index) ->
  forall (n : nat) cp c b0 b1 b2 b3 m x y,
    codepoints !! n = Some cp ->
    chr cp = Ok c -> textbbox font c = Ok (b0, b1, b2, b3) ->
    getmask font c = Ok m ->
    0 <= x < width atlas -> 0 <= y < height atlas ->
    y / glyph_height * columns + x / glyph_width = Z.of_nat n ->
    getpixel atlas x y
    = Ok (match getpixel (mask_image m)
                  (x - (Z.of_nat n mod columns * glyph_width - b0 + mask_left m))
                  (y - (Z.of_nat n / columns * glyph_height + baseline_offset
                        + mask_top m)) with
          | Ok v => blend 0 v
          | Raise _ => 0
          end).
Proof.
  intros HC Hcells Hrun n cp c b0 b1 b2 b3 m x y Hn Hc Hb Hm Hx Hy Hcell.
  pose proof (create_atlas_inv _ _ _ _ _ _ _ _ _ Hrun)
    as (_ & Hall & _ & Hw & Hh & _).
  apply create_atlas_loop in Hrun. destruct Hrun as (Hw0 & Hh0 & Hrun).
  set (rows := (Z.of_nat (length codepoints) + columns - 1) / columns) in *.
  set (blank := Image (columns * glyph_width) (rows * glyph_height) _) in Hrun.
  assert (Hblank : getpixel blank x y = Ok 0).
  { rewrite Hw in Hx. rewrite Hh in Hy.
    unfold getpixel, blank, pixel_index. cbn [width height pixels].
    replace (in_bounds _ x y) with true
      by (symmetry; apply in_bounds_true; cbn; lia).
    rewrite lookup_replicate_2 by nia. reflexivity. }
  assert (HCnz : columns <> 0) by lia.
  assert (Hlen : length (take n codepoints) = n).
  { rewrite length_take. apply lookup_lt_Some in Hn. lia. }
  rewrite <- (take_drop_middle codepoints n cp Hn) in Hrun, Hall, Hcells.
  apply Forall_app in Hall. destruct Hall as [Hall1 Hall2].
  apply Forall_cons in Hall2. destruct Hall2 as [_ Hall2].
  apply Forall_app in Hcells. destruct Hcells as [Hcells1 Hcells2].
  apply Forall_cons in Hcells2. destruct Hcells2 as [_ Hcells2].
  unfold enumerate in Hrun. rewrite enumerate_from_app in Hrun.
  cbn [enumerate_from] in Hrun. rewrite Hlen, Z.add_0_l in Hrun.
  rewrite for_each_app in Hrun.
  destruct (place_glyphs_ok blend font glyph_width glyph_height baseline_offset
              columns HCnz (take n codepoints) 0 blank ∅ Hall1)
    as (atlas1 & E1 & _ & _ & _ & Hpix1).
  rewrite E1 in Hrun. cbn [mbind result_bind for_each] in Hrun.
  rewrite (place_glyph_ok blend font glyph_width glyph_height baseline_offset
             columns HCnz (Z.of_nat n) cp c b0 b1 b2 b3 m _ _ Hc Hb Hm) in Hrun.
  cbn [mbind result_bind] in Hrun.
  match type of Hrun with
  | for_each _ _ (?a, ?md) = _ =>
      destruct (place_glyphs_ok blend font glyph_width glyph_height
                  baseline_offset columns HCnz (drop (S n) codepoints)
                  (Z.of_nat n + 1) a md Hall2)
        as (atlas2 & E2 & _ & _ & _ & Hpix2)
  end.
  rewrite E2 in Hrun. injection Hrun as <- _.
  rewrite Hpix2.
  - unfold bitmap_x, bitmap_y.
    replace (Z.of_nat n mod columns * glyph_width - b0 + mask_left m)
      with (Z.of_nat n mod columns * glyph_width + - b0 + mask_left m) by lia.
    apply draw_bitmap_at. rewrite Hpix1; [exact Hblank|].
    intros i cp' Hin. apply elem_of_enumerate_from in Hin.
    destruct Hin as (k & -> & Hk).
    pose proof (lookup_lt_Some _ _ _ Hk) as Hlt. rewrite Hlen in Hlt.
    apply in_cell_outside; [assumption|lia| |lia].
    rewrite Forall_forall in Hcells1. apply Hcells1.
    now apply list_elem_of_lookup_2 in Hk.
  - intros i cp' Hin. apply elem_of_enumerate_from in Hin.
    destruct Hin as (k & -> & Hk).
    apply in_cell_outside; [assumption|lia| |lia].
    rewrite Forall_forall in Hcells2. apply Hcells2.
    now apply list_elem_of_lookup_2 in Hk.
Qed.

Lemma create_atlas_pixels_witness :
  exists atlas index,
    create_atlas demo_blend demo_font [65; 87; 66] 3 2 0 2 = Ok (atlas, index) /\
    getpixel atlas 4 1 = Ok (demo_blend 0 255).
Proof.
  eexists _, _. split; [vm_compute; reflexivity|].
  refine (create_atlas_pixels demo_blend demo_font [65; 87; 66] 3 2 0 2 _ _
            _ _ eq_refl 1%nat 87 87 0 0 3 2
            (GlyphMask 0 0 (Image 3 2 [255; 255; 255; 255; 255; 255])) 4 1
            eq_refl eq_refl eq_refl eq_refl _ _ eq_refl);
    [lia| |now vm_compute|now vm_compute].
  apply Forall_forall. intros cp Hin.
  rewrite !elem_of_cons, elem_of_nil in Hin.
  destruct Hin as [->|[->|[->|[]]]];
    intros c b0 b1 b2 b3 m [= <-] Hb Hm; vm_compute in Hb, Hm;
    injection Hb as <- <- <- <-; injection Hm as <-; vm_compute;
    repeat split; discriminate.
Defined.

(** X20. [create_atlas] returns exactly when the column count is not
    zero, the computed image size is not negative and the font renders
    every requested code point.  A zero column count raises
    [ZeroDivisionError] and a negative image size raises [ValueError], both
    before the font is asked for any glyph. *)
Theorem create_atlas_succeeds_iff blend (font : Font) (codepoints : list Z)
    (glyph_width glyph_height baseline_offset columns : Z) :
  let rows := (Z.of_nat (length codepoints) + columns - 1) / columns in
  let outcome :=
    create_atlas blend font codepoints glyph_width glyph_height baseline_offset
      columns in
  (columns = 0 -> outcome = Raise ZeroDivisionError) /\
  (columns <> 0 -> columns * glyph_width < 0 \/ rows * glyph_height < 0 ->
   outcome = Raise ValueError) /\
  ((exists atlas index, outcome = Ok (atlas, index)) <->
   columns <> 0 /\ 0 <= columns * glyph_width /\ 0 <= rows * glyph_height /\
   Forall (renders font) codepoints).
Proof.
  intros rows outcome. split; [|split].
  - intros ->. reflexivity.
  - intros HC Hneg. subst outcome. rewrite create_atlas_unfold.
    unfold py_floordiv. destruct (Z.eqb_spec columns 0) as [E|_]; [lia|].
    cbn [mbind result_bind]. fold rows. unfold Image_new.
    replace ((columns * glyph_width <? 0) || (rows * glyph_height <? 0))
      with true; [reflexivity|].
    symmetry. apply orb_true_iff. rewrite !Z.ltb_lt. exact Hneg.
  - split.
    + intros (atlas & index & Hrun).
      pose proof (create_atlas_inv _ _ _ _ _ _ _ _ _ Hrun)
        as (HC & Hall & _ & Hw & Hh & (Hw0 & Hh0 & _)).
      rewrite Hw in Hw0. rewrite Hh in Hh0. now repeat split.
    + intros (HC & Hw & Hh & Hall). subst outcome.
      rewrite create_atlas_unfold. unfold py_floordiv.
      destruct (Z.eqb_spec columns 0) as [E|_]; [lia|].
      cbn [mbind result_bind]. fold rows.
      rewrite Image_new_ok by assumption. cbn [mbind result_bind].
      destruct (place_glyphs_ok blend font glyph_width glyph_height
                  baseline_offset columns HC codepoints 0
                  (Image (columns * glyph_width) (rows * glyph_height)
                     (replicate
                        (Z.to_nat (columns * glyph_width * (rows * glyph_height)))
                        0)) ∅ Hall) as (atlas & E & _).
      now exists atlas, (index_of columns (enumerate codepoints) ∅).
Qed.

(** ** The generation run: what a finished run leaves behind *)

(** One step of a computation known to return. *)
Ltac ok_step H :=
  lazymatch type of H with
  | (?r ≫= _) = Ok _ =>
      let E := fresh "E" in
      destruct r eqn:E; [|discriminate H];
      repeat match goal with
             | y : (_ * _)%type |- _ => destruct y
             | y : unit |- _ => destruct y
             end;
      cbn [mbind result_bind] in H; cbv beta iota in H
  end.

Lemma node_at_insert_ne (fs : filesystem) (p q : path) (n : node) :
  p <> q -> node_at (<[p := n]> fs) q = node_at fs q.
Proof.
  intros Hne. unfold node_at. destruct (forallb _ q.2); [reflexivity|].
  now apply lookup_insert_ne.
Qed.


Section RunFacts.
Variable fl : rounding.
Variable blend : Z -> Z -> Z.
Variable truetype : string -> Z -> result Font.
Variable env : environment.



(** What [atlas_outputs] has computed when it returns: the metadata is
    the geometry computed from the measurement at size 16, the index is
    the one of the grey atlas rendered at the scaled font size, and the
    image is the conversion of that atlas. *)
Lemma atlas_outputs_inv (font_path : string) (target_size : Z)
    (style : string) (columns : Z) (codepoints : list Z)
    (img : image rgba) (doc : output_data) :
  atlas_outputs fl blend truetype env font_path target_size style columns
    codepoints = Ok (img, doc) ->
  exists font mw ma mb font' gray,
    truetype font_path 16 = Ok font /\
    measure_font font codepoints = Ok (mw, ma, mb) /\
    calculate_dimensions fl mw ma mb target_size 16
      = Ok (m_font_size (metrics doc), m_glyph_width (metrics doc),
            m_glyph_height (metrics doc), m_baseline_offset (metrics doc),
            m_scale_factor (metrics doc)) /\
    truetype font_path (m_font_size (metrics doc)) = Ok font' /\
    create_atlas blend font' codepoints (m_glyph_width (metrics doc))
      (m_glyph_height (metrics doc)) (m_baseline_offset (metrics doc)) columns
      = Ok (gray, glyphs doc) /\
    convert_to_rgba gray style = Ok img /\
    m_columns (metrics doc) = columns /\
    m_target_size (metrics doc) = target_size /\
    m_style (metrics doc) = style.
Proof.
  unfold atlas_outputs. intros H.
  do 6 ok_step H.
  destruct (truetype font_path 16) as [font|] eqn:Hf; [|discriminate].
  cbn [mbind result_bind] in H.
  destruct (measure_font font codepoints) as [[[mw ma] mb]|] eqn:Hm;
    [|discriminate].
  cbn [mbind result_bind] in H.
  do 4 ok_step H.
  destruct (calculate_dimensions fl mw ma mb target_size 16)
    as [[[[[fsz gw] gh] bo] sc]|] eqn:Hc; [|discriminate].
  cbn [mbind result_bind] in H.
  do 5 ok_step H.
  destruct (truetype font_path fsz) as [font2|] eqn:Hf2; [|discriminate].
  cbn [mbind result_bind] in H.
  ok_step H.
  destruct (create_atlas blend font2 codepoints gw gh bo columns)
    as [[gray md]|] eqn:Ha; [|discriminate].
  cbn [mbind result_bind] in H.
  destruct (convert_to_rgba gray style) as [rgba|] eqn:Hr; [|discriminate].
  cbn [mbind result_bind] in H.
  destruct (py_floordiv _ columns) as [rows|]; [|discriminate].
  cbn [mbind result_bind] in H.
  do 2 ok_step H.
  injection H as <- <-.
  exists font, mw, ma, mb, font2, gray. cbn [metrics glyphs m_font_size
    m_glyph_width m_glyph_height m_baseline_offset m_scale_factor m_columns
    m_target_size m_style].
  repeat split; assumption || reflexivity.
Qed.

(** The metadata [atlas_outputs] returns describes the image it returns. *)
Lemma atlas_outputs_summary (font_path : string) (target_size : Z)
    (style : string) (columns : Z) (codepoints : list Z)
    (img : image rgba) (doc : output_data) :
  atlas_outputs fl blend truetype env font_path target_size style columns
    codepoints = Ok (img, doc) ->
  m_columns (metrics doc) = columns /\
  m_target_size (metrics doc) = target_size /\
  m_style (metrics doc) = style /\
  columns <> 0 /\ wf_image img /\
  width img = columns * m_glyph_width (metrics doc) /\
  height img = (Z.of_nat (length codepoints) + columns - 1) / columns
               * m_glyph_height (metrics doc) /\
  glyphs doc = index_of columns (enumerate codepoints) ∅ /\
  (NoDup codepoints -> size (glyphs doc) = length codepoints) /\
  (forall key, is_Some (glyphs doc !! key) <->
               exists cp, cp ∈ codepoints /\ key = str cp) /\
  (0 < columns ->
   forall key row col,
     glyphs doc !! key = Some (row, col) ->
     0 <= row /\ 0 <= col < columns /\
     (col + 1) * m_glyph_width (metrics doc) <= width img /\
     (row + 1) * m_glyph_height (metrics doc) <= height img).
Proof.
  intros Hout. apply atlas_outputs_inv in Hout.
  destruct Hout as (font & mw & ma & mb & font' & gray & Hf & Hm & Hc & Hf'
                    & Ha & Hr & Hcol & Htgt & Hsty).
  pose proof (create_atlas_inv _ _ _ _ _ _ _ _ _ Ha)
    as (HC & _ & Hidx & Hw & Hh & Hwf).
  destruct (convert_to_rgba_size gray style img Hwf Hr) as (Hiw & Hih & Hiwf).
  split; [exact Hcol|]. split; [exact Htgt|]. split; [exact Hsty|].
  split; [exact HC|]. split; [exact Hiwf|].
  split; [now rewrite Hiw|]. split; [now rewrite Hih|].
  split; [exact Hidx|].
  split; [exact (proj2 (create_atlas_index_size _ _ _ _ _ _ _ _ _ Ha))|].
  split; [exact (index_keys _ _ _ _ _ _ _ _ _ Ha)|].
  intros Hpos key row col Hkey.
  destruct (create_atlas_cells _ _ _ _ _ _ _ _ _ Hpos Ha key row col Hkey)
    as (_ & Hrow & Hcolb & _ & Hx & _ & Hy).
  rewrite Hiw, Hih. now repeat split.
Qed.

(** What a finished run has computed and written, and what let it
    through. *)
Lemma generate_atlas_success_inv (font_path : string) (target_size : Z)
    (style output_dir : string) (columns : Z) (codepoints : option (list Z))
    (fs fs' : filesystem) :
  let d := Path output_dir in
  let atlas_path := joinpath d "atlas.png" in
  let metadata_path := joinpath d "atlas.json" in
  run (generate_atlas fl blend truetype env font_path target_size style
         output_dir columns codepoints) fs = (fs', Ok ()) ->
  exists fs1 img doc,
    run (mkdir env d) fs = (fs1, Ok ()) /\
    atlas_outputs fl blend truetype env font_path target_size style columns
      (default DEFAULT_CHARSET codepoints) = Ok (img, doc) /\
    fs' = <[metadata_path := File true (JsonDocument doc)]>
            (<[atlas_path := File true (PngImage img)]> fs1) /\
    width img <> 0 /\ height img <> 0 /\
    open_error env fs1 atlas_path = None /\
    os_error env (Write atlas_path (PngImage img)) = None /\
    open_error env (<[atlas_path := File true (PngImage img)]> fs1)
      metadata_path = None /\
    os_error env (Write metadata_path (JsonDocument doc)) = None /\
    closing_lines env atlas_path metadata_path = Ok ().
Proof.
  intros d atlas_path metadata_path Hrun.
  rewrite generate_atlas_stages in Hrun. fold d atlas_path metadata_path in Hrun.
  rewrite run_bind in Hrun.
  destruct (run (mkdir env d) fs) as [fs1 [[]|e]]; [|discriminate].
  rewrite run_lift_bind in Hrun.
  destruct (atlas_outputs _ _ _ _ _ _ _ _ _) as [[img doc]|e]; [|discriminate].
  cbn [run mbind io_bind Image_save open_w json_dump lift] in Hrun.
  destruct (open_error env fs1 atlas_path) eqn:Ho1; [discriminate|].
  destruct ((width img =? 0) || (height img =? 0)) eqn:Hempty; [discriminate|].
  apply orb_false_elim in Hempty. destruct Hempty as [Hw Hh].
  apply Z.eqb_neq in Hw, Hh.
  destruct (os_error env (Write atlas_path (PngImage img))) eqn:Hw1;
    [discriminate|].
  destruct (open_error env _ metadata_path) eqn:Ho2; [discriminate|].
  destruct (os_error env (Write metadata_path (JsonDocument doc))) eqn:Hw2;
    [discriminate|].
  destruct (closing_lines env atlas_path metadata_path) as [[]|e] eqn:Hcl;
    [|discriminate].
  injection Hrun as <-. exists fs1, img, doc.
  rewrite insert_insert_eq. now repeat split.
Qed.

(** A run changes only the paths from the output directory upwards and
    its two files. *)
Lemma generate_atlas_elsewhere (font_path : string) (target_size : Z)
    (style output_dir : string) (columns : Z) (codepoints : option (list Z))
    (fs : filesystem) (q : path) :
  let d := Path output_dir in
  ~ (q.1 = d.1 /\ q.2 `prefix_of` d.2) ->
  q <> joinpath d "atlas.png" -> q <> joinpath d "atlas.json" ->
  (run (generate_atlas fl blend truetype env font_path target_size style
          output_dir columns codepoints) fs).1 !! q = fs !! q.
Proof.
  intros d Hq Hpng Hjson.
  rewrite generate_atlas_stages. fold d. rewrite run_bind.
  pose proof (mkdir_parents_spec env d.1 (List.rev d.2) fs) as (Hf & _).
  rewrite rev_involutive in Hf. specialize (Hf q Hq). fold (mkdir env d) in Hf.
  destruct (run (mkdir env d) fs) as [fs1 [[]|e]]; cbn [fst] in Hf;
    [|exact Hf].
  rewrite run_lift_bind.
  destruct (atlas_outputs _ _ _ _ _ _ _ _ _) as [[img doc]|e]; [|exact Hf].
  cbn [run mbind io_bind Image_save open_w json_dump lift].
  destruct (after_failed_save_lookup env fs1 (joinpath d "atlas.png"))
    as [_ Hfo].
  destruct (open_error env fs1 _); [exact Hf|].
  destruct ((width img =? 0) || (height img =? 0)).
  { cbn [fst]. now rewrite Hfo. }
  destruct (os_error env (Write _ (PngImage img))).
  { cbn [fst]. now rewrite Hfo. }
  destruct (open_error env _ _).
  { cbn [fst]. now rewrite lookup_insert_ne by congruence. }
  destruct (os_error env (Write _ (JsonDocument doc))).
  { cbn [fst]. now rewrite !lookup_insert_ne by congruence. }
  destruct (closing_lines env _ _) as [[]|e]; cbn [fst];
    now rewrite !lookup_insert_ne by congruence.
Qed.
End RunFacts.

Section RunProperties.
Variable fl : rounding.
Variable blend : Z -> Z -> Z.
Variable truetype : string -> Z -> result Font.
Variable env : environment.

(** X11. After a run that returns, the metadata file describes the image
    file next to it: the metrics record the arguments of the run and the
    geometry computed from the measurement at size 16, the image is
    [columns] cells wide and [(N + columns - 1) div columns] cells high with
    the cell size of the metrics, the index has an entry for exactly the
    requested code points, and for a positive column count the cell of every
    entry lies inside the image.  The image has pixels. *)
Theorem generate_atlas_metadata_describes_image (font_path : string)
    (target_size : Z) (style output_dir : string) (columns : Z)
    (codepoints : option (list Z)) (fs fs' : filesystem) :
  run (generate_atlas fl blend truetype env font_path target_size style
         output_dir columns codepoints) fs = (fs', Ok ()) ->
  let requested := default DEFAULT_CHARSET codepoints in
  exists img doc,
    fs' !! joinpath (Path output_dir) "atlas.png"
      = Some (File true (PngImage img)) /\
    fs' !! joinpath (Path output_dir) "atlas.json"
      = Some (File true (JsonDocument doc)) /\
    is_dir fs' (Path output_dir) = true /\
    m_columns (metrics doc) = columns /\
    m_target_size (metrics doc) = target_size /\
    m_style (metrics doc) = style /\
    (exists font mw ma mb,
       truetype font_path 16 = Ok font /\
       measure_font font requested = Ok (mw, ma, mb) /\
       calculate_dimensions fl mw ma mb target_size 16
         = Ok (m_font_size (metrics doc), m_glyph_width (metrics doc),
               m_glyph_height (metrics doc), m_baseline_offset (metrics doc),
               m_scale_factor (metrics doc))) /\
    columns <> 0 /\ wf_image img /\
    width img = columns * m_glyph_width (metrics doc) /\
    height img = (Z.of_nat (length requested) + columns - 1) / columns
                 * m_glyph_height (metrics doc) /\
    (forall key, is_Some (glyphs doc !! key) <->
                 exists cp, cp ∈ requested /\ key = str cp) /\
    (0 < columns ->
     forall key row col,
       glyphs doc !! key = Some (row, col) ->
       0 <= row /\ 0 <= col < columns /\
       (col + 1) * m_glyph_width (metrics doc) <= width img /\
       (row + 1) * m_glyph_height (metrics doc) <= height img) /\
    0 < width img /\ 0 < height img.
Proof.
  intros Hrun requested.
  destruct (output_paths_distinct (Path output_dir)) as (Hpm & Hpd & Hmd).
  apply generate_atlas_success_inv in Hrun.
  destruct Hrun as (fs1 & img & doc & Hmk & Hout & -> & Hw0 & Hh0 & _).
  fold requested in Hout.
  destruct (atlas_outputs_summary _ _ _ _ _ _ _ _ _ _ _ Hout)
    as (Hcol & Htgt & Hsty & HC & Hwf & Hw & Hh & _ & _ & Hkeys & Hcells).
  apply atlas_outputs_inv in Hout.
  destruct Hout as (font & mw & ma & mb & _ & _ & Hf & Hm & Hc & _).
  pose proof (mkdir_parents_spec env (Path output_dir).1
                (List.rev (Path output_dir).2) fs) as (_ & _ & Hdir).
  fold (mkdir env (Path output_dir)) in Hdir. rewrite Hmk in Hdir.
  specialize (Hdir eq_refl). rewrite rev_involutive in Hdir. cbn [fst] in Hdir.
  replace ((Path output_dir).1, (Path output_dir).2) with (Path output_dir)
    in Hdir by now destruct (Path output_dir).
  exists img, doc.
  split; [now rewrite lookup_insert_ne, lookup_insert_eq by congruence|].
  split; [now rewrite lookup_insert_eq|].
  split.
  { unfold is_dir in *. now rewrite !node_at_insert_ne by assumption. }
  split; [exact Hcol|]. split; [exact Htgt|]. split; [exact Hsty|].
  split; [now exists font, mw, ma, mb|].
  split; [exact HC|]. split; [exact Hwf|].
  split; [exact Hw|]. split; [exact Hh|].
  split; [exact Hkeys|]. split; [exact Hcells|].
  destruct Hwf as (Hwn & Hhn & _). lia.
Qed.


(** X14. With an empty list of code points a run never returns and never
    touches [atlas.png] or [atlas.json]: whatever it has changed, creating
    the output directory has changed.  When the directory can be created,
    every line can be printed and the font loads, the exception is
    [ZeroDivisionError]. *)
Theorem generate_atlas_empty_charset (font_path : string)
    (target_size : Z) (style output_dir : string) (columns : Z)
    (fs : filesystem) :
  let d := Path output_dir in
  let out :=
    run (generate_atlas fl blend truetype env font_path target_size style
           output_dir columns (Some [])) fs in
  (exists e, out.2 = Raise e) /\
  out.1 = (run (mkdir env d) fs).1 /\
  out.1 !! joinpath d "atlas.png" = fs !! joinpath d "atlas.png" /\
  out.1 !! joinpath d "atlas.json" = fs !! joinpath d "atlas.json" /\
  ((run (mkdir env d) fs).2 = Ok () ->
   (forall line, print_error env line = None) ->
   (exists font, truetype font_path 16 = Ok font) ->
   out.2 = Raise ZeroDivisionError).
Proof.
  intros d out.
  assert (Hstage :
    (exists e, atlas_outputs fl blend truetype env font_path target_size style
                 columns [] = Raise e) /\
    ((forall line, print_error env line = None) ->
     (exists font, truetype font_path 16 = Ok font) ->
     atlas_outputs fl blend truetype env font_path target_size style
       columns [] = Raise ZeroDivisionError)).
  { unfold atlas_outputs, say. split.
    - repeat match goal with
             | |- context [print_error env ?line] =>
                 destruct (print_error env line);
                 [eexists; reflexivity|cbn [mbind result_bind]]
             end.
      destruct (truetype font_path 16) as [font|e]; [|now eexists].
      cbn [mbind result_bind measure_font for_each].
      repeat match goal with
             | |- context [print_error env ?line] =>
                 destruct (print_error env line);
                 [eexists; reflexivity|cbn [mbind result_bind]]
             end.
      now eexists.
    - intros Hquiet [font Hf]. rewrite Hf.
      repeat (rewrite Hquiet; cbn [mbind result_bind measure_font for_each]).
      reflexivity. }
  destruct Hstage as [[e He] Hzero].
  destruct (mkdir_keeps_outputs env d fs) as [Hka Hkm].
  subst out. rewrite generate_atlas_stages. cbv zeta. fold d.
  change (default DEFAULT_CHARSET (Some [])) with (@nil Z).
  rewrite run_bind.
  destruct (run (mkdir env d) fs) as [fs1 [[]|e1]]; cbn [fst snd] in *.
  - rewrite run_lift_bind, He. cbn [fst snd].
    split; [now exists e|]. split; [reflexivity|].
    split; [exact Hka|]. split; [exact Hkm|].
    intros _ Hquiet Hfont. specialize (Hzero Hquiet Hfont). congruence.
  - split; [now exists e1|]. split; [reflexivity|].
    split; [exact Hka|]. split; [exact Hkm|discriminate].
Qed.
End RunProperties.

Lemma generate_atlas_metadata_describes_image_witness :
  exists (img : image rgba) doc,
    (run (generate_atlas binary64 demo_blend demo_truetype quiet "font.ttf" 2
            "solid" "out" 2 (Some [65; 87])) ∅).1 !! Path "out/atlas.json"
      = Some (File true (JsonDocument doc)) /\
    width img = 2 * m_glyph_width (metrics doc) /\ 0 < width img.
Proof.
  assert (Hok : (run (generate_atlas binary64 demo_blend demo_truetype quiet
                        "font.ttf" 2 "solid" "out" 2 (Some [65; 87])) ∅).2
                = Ok ()) by (vm_compute; reflexivity).
  destruct (generate_atlas_metadata_describes_image binary64 demo_blend
              demo_truetype quiet "font.ttf" 2 "solid" "out" 2
              (Some [65; 87]) ∅
              (run (generate_atlas binary64 demo_blend demo_truetype quiet
                      "font.ttf" 2 "solid" "out" 2 (Some [65; 87])) ∅).1)
    as (img & doc & _ & Hj & _ & _ & _ & _ & _ & _ & _ & Hw & _ & _ & _ & Hpos
        & _).
  - rewrite <- Hok. apply surjective_pairing.
  - exists img, doc. split; [exact Hj|]. split; [exact Hw|exact Hpos].
Defined.


Section RunFrame.
Variable fl : rounding.
Variable blend : Z -> Z -> Z.
Variable truetype : string -> Z -> result Font.
Variable env : environment.


End RunFrame.


Lemma generate_atlas_empty_charset_witness :
  (run (generate_atlas binary64 demo_blend demo_truetype quiet "font.ttf" 32
          "solid" "a/b" 16 (Some [])) ∅).2 = Raise ZeroDivisionError /\
  (run (generate_atlas binary64 demo_blend demo_truetype quiet "font.ttf" 32
          "solid" "a/b" 16 (Some [])) ∅).1
  = {[ Path "a" := Directory; Path "a/b" := Directory ]}.
Proof.
  destruct (generate_atlas_empty_charset binary64 demo_blend demo_truetype
              quiet "font.ttf" 32 "solid" "a/b" 16 ∅)
    as (_ & Hfs & _ & _ & Hzero).
  split.
  - apply Hzero; [reflexivity|reflexivity|now exists demo_font].
  - rewrite Hfs. vm_compute. reflexivity.
Defined.

(** ** The character sets and the command line *)

Lemma DEFAULT_CHARSET_flat :
  DEFAULT_CHARSET = seqZ 32 95 ++ [1025; 1105] ++ seqZ 1040 64.
Proof. vm_compute. reflexivity. Qed.

Lemma NoDup_ASCII_CHARS : NoDup ASCII_CHARS.
Proof. apply NoDup_seqZ. Qed.

Lemma NoDup_DEFAULT_CHARSET : NoDup DEFAULT_CHARSET.
Proof. apply (bool_decide_unpack (NoDup DEFAULT_CHARSET)). vm_compute. exact I. Qed.

Lemma ASCII_CHARS_lookup (cp : Z) :
  32 <= cp < 127 -> ASCII_CHARS !! Z.to_nat (cp - 32) = Some cp.
Proof.
  intros Hcp. unfold ASCII_CHARS. rewrite lookup_seqZ. split; lia.
Qed.

Lemma DEFAULT_CHARSET_ascii (cp : Z) :
  32 <= cp < 127 -> DEFAULT_CHARSET !! Z.to_nat (cp - 32) = Some cp.
Proof.
  intros Hcp. unfold DEFAULT_CHARSET. rewrite lookup_app_l.
  - now apply ASCII_CHARS_lookup.
  - unfold ASCII_CHARS. rewrite length_seqZ. lia.
Qed.

Lemma DEFAULT_CHARSET_cyrillic (cp : Z) :
  1040 <= cp < 1104 -> DEFAULT_CHARSET !! Z.to_nat (cp - 943) = Some cp.
Proof.
  intros Hcp. rewrite DEFAULT_CHARSET_flat.
  rewrite lookup_app_r by (rewrite length_seqZ; lia).
  rewrite length_seqZ.
  rewrite lookup_app_r by (cbn [length]; lia). cbn [length].
  rewrite lookup_seqZ. split; lia.
Qed.

(** In the index of a list without repetition a code point has the cell
    of its position. *)
Lemma index_of_nodup (columns : Z) (codepoints : list Z) (n : Z) (cp : Z) :
  NoDup codepoints -> 0 <= n -> codepoints !! Z.to_nat n = Some cp ->
  index_of columns (enumerate codepoints) ∅ !! str cp
    = Some (n / columns, n mod columns).
Proof.
  intros Hnd Hn Hcp.
  rewrite (index_of_last columns codepoints (Z.to_nat n) cp Hcp).
  - now rewrite Z2Nat.id by assumption.
  - intros n' Hlt Hn'. pose proof (NoDup_lookup _ _ _ _ Hnd Hcp Hn'). lia.
Qed.

(** The example script's three output directories, as [generate_atlas]
    reads them back. *)
Lemma example_directories :
  Path (path_str (joinpath OUTPUT_DIR "pixelated"))
    = joinpath OUTPUT_DIR "pixelated" /\
  Path (path_str (joinpath OUTPUT_DIR "clean")) = joinpath OUTPUT_DIR "clean" /\
  Path (path_str (joinpath OUTPUT_DIR "smooth")) = joinpath OUTPUT_DIR "smooth".
Proof. repeat split; vm_compute; reflexivity. Qed.

(** A closed path that is neither above a closed directory nor one of its
    two output files. *)
Ltac elsewhere :=
  first [ intros [_ Hp]; apply prefix_length in Hp; vm_compute in Hp; lia
        | let E := fresh in intros E; vm_compute in E; discriminate E ].

Section CommandLineFacts.
Variable fl : rounding.
Variable blend : Z -> Z -> Z.
Variable truetype : string -> Z -> result Font.
Variable env : environment.

(** What a run that returned has computed is what its two files hold. *)
Lemma generate_atlas_files (font_path : string) (target_size : Z)
    (style output_dir : string) (columns : Z) (codepoints : option (list Z))
    (fs fs' : filesystem) :
  run (generate_atlas fl blend truetype env font_path target_size style
         output_dir columns codepoints) fs = (fs', Ok ()) ->
  exists img doc,
    atlas_outputs fl blend truetype env font_path target_size style columns
      (default DEFAULT_CHARSET codepoints) = Ok (img, doc) /\
    fs' !! joinpath (Path output_dir) "atlas.png"
      = Some (File true (PngImage img)) /\
    fs' !! joinpath (Path output_dir) "atlas.json"
      = Some (File true (JsonDocument doc)).
Proof.
  intros Hrun.
  destruct (output_paths_distinct (Path output_dir)) as (Hpm & Hpd & Hmd).
  apply generate_atlas_success_inv in Hrun.
  destruct Hrun as (fs1 & img & doc & _ & Hout & -> & _).
  exists img, doc. split; [exact Hout|].
  split; [now rewrite lookup_insert_ne, lookup_insert_eq by congruence|].
  now rewrite lookup_insert_eq.
Qed.

(** X15. An atlas generated from the command line always has the ASCII
    code point [cp] in the cell of index [cp - 32], with or without
    [--ascii-only]; with the flag the index has 95 entries, without it 161,
    with the two special Cyrillic letters at the indices 95 and 96 and the
    Cyrillic code point [cp] from 1040 to 1103 at index [cp - 943].  The
    metrics record the size and column arguments and one of the two style
    choices. *)
Theorem main_glyph_layout (args : cli_args) (fs fs' : filesystem) :
  run (main fl blend truetype env args) fs = (fs', Ok ()) ->
  let columns := arg_columns args in
  let cell (i : Z) := Some (i / columns, i mod columns) in
  exists img doc,
    fs' !! joinpath (Path (arg_output args)) "atlas.png"
      = Some (File true (PngImage img)) /\
    fs' !! joinpath (Path (arg_output args)) "atlas.json"
      = Some (File true (JsonDocument doc)) /\
    m_target_size (metrics doc) = arg_size args /\
    m_columns (metrics doc) = columns /\
    (m_style (metrics doc) = "solid"%string \/
     m_style (metrics doc) = "smooth"%string) /\
    (forall cp, 32 <= cp < 127 -> glyphs doc !! str cp = cell (cp - 32)) /\
    if arg_ascii_only args then
      size (glyphs doc) = 95%nat /\
      (forall cp, ~ 32 <= cp < 127 -> glyphs doc !! str cp = None)
    else
      size (glyphs doc) = 161%nat /\
      glyphs doc !! str 1025 = cell 95 /\
      glyphs doc !! str 1105 = cell 96 /\
      (forall cp, 1040 <= cp < 1104 -> glyphs doc !! str cp = cell (cp - 943)).
Proof.
  intros Hrun columns cell. unfold main in Hrun.
  apply generate_atlas_files in Hrun.
  destruct Hrun as (img & doc & Hout & Hpng & Hjson).
  cbn [default] in Hout. fold columns in Hout.
  destruct (atlas_outputs_summary _ _ _ _ _ _ _ _ _ _ _ Hout)
    as (Hcol & Htgt & Hsty & _ & _ & _ & _ & Hidx & Hsize & Hkeys & _).
  exists img, doc.
  split; [exact Hpng|]. split; [exact Hjson|].
  split; [exact Htgt|]. split; [exact Hcol|].
  split; [rewrite Hsty; destruct (arg_style args); [now left|now right]|].
  clear Hout.
  assert (Hat : forall codepoints n cp,
            glyphs doc = index_of columns (enumerate codepoints) ∅ ->
            NoDup codepoints -> 0 <= n ->
            codepoints !! Z.to_nat n = Some cp ->
            glyphs doc !! str cp = cell n).
  { intros cps n cp -> Hnd Hn Hcp. now apply index_of_nodup. }
  destruct (arg_ascii_only args).
  - split; [|split].
    + intros cp Hcp. apply (Hat _ _ _ Hidx NoDup_ASCII_CHARS); [lia|].
      now apply ASCII_CHARS_lookup.
    + rewrite (Hsize NoDup_ASCII_CHARS). reflexivity.
    + intros cp Hcp. apply eq_None_not_Some. intros Hsome.
      apply Hkeys in Hsome. destruct Hsome as (cp' & Hin & E).
      apply str_inj in E. subst cp'. unfold ASCII_CHARS in Hin.
      apply elem_of_seqZ in Hin. lia.
  - split; [|split; [|split; [|split]]].
    + intros cp Hcp. apply (Hat _ _ _ Hidx NoDup_DEFAULT_CHARSET); [lia|].
      now apply DEFAULT_CHARSET_ascii.
    + rewrite (Hsize NoDup_DEFAULT_CHARSET). reflexivity.
    + apply (Hat _ _ _ Hidx NoDup_DEFAULT_CHARSET); [lia|reflexivity].
    + apply (Hat _ _ _ Hidx NoDup_DEFAULT_CHARSET); [lia|reflexivity].
    + intros cp Hcp. apply (Hat _ _ _ Hidx NoDup_DEFAULT_CHARSET); [lia|].
      now apply DEFAULT_CHARSET_cyrillic.
Qed.

(** X16. When the example script runs to its end, the three atlases are
    all there, none overwritten by a later call: the 16-pixel solid atlas
    of the 95 ASCII code points on 16 columns and 6 rows, and the 24-pixel
    solid and 32-pixel smooth atlases of the 161 default code points on 16
    columns and 11 rows. *)
Theorem example_outputs (fs fs' : filesystem) :
  run (example fl blend truetype env) fs = (fs', Ok ()) ->
  let outputs (name : string) (target_size : Z) (style : string)
      (count : nat) (rows : Z) :=
    exists img doc,
      fs' !! joinpath (joinpath OUTPUT_DIR name) "atlas.png"
        = Some (File true (PngImage img)) /\
      fs' !! joinpath (joinpath OUTPUT_DIR name) "atlas.json"
        = Some (File true (JsonDocument doc)) /\
      m_target_size (metrics doc) = target_size /\
      m_style (metrics doc) = style /\
      m_columns (metrics doc) = 16 /\
      size (glyphs doc) = count /\
      width img = 16 * m_glyph_width (metrics doc) /\
      height img = rows * m_glyph_height (metrics doc) in
  outputs "pixelated"%string 16 "solid"%string 95%nat 6 /\
  outputs "clean"%string 24 "solid"%string 161%nat 11 /\
  outputs "smooth"%string 32 "smooth"%string 161%nat 11.
Proof.
  intros H outputs. unfold example, print in H.
  destruct example_directories as (Ed1 & Ed2 & Ed3).
  rewrite run_lift_bind in H.
  destruct (say env _) as [[]|?] in H; [|discriminate].
  rewrite run_lift_bind in H.
  destruct (say env _) as [[]|?] in H; [|discriminate].
  rewrite run_bind in H.
  destruct (run (generate_atlas _ _ _ _ _ 16 _ _ _ _) fs) as [fs1 [[]|e]] eqn:H1;
    [|discriminate].
  rewrite run_lift_bind in H.
  destruct (say env _) as [[]|?] in H; [|discriminate].
  rewrite run_bind in H.
  destruct (run (generate_atlas _ _ _ _ _ 24 _ _ _ _) fs1) as [fs2 [[]|e]] eqn:H2;
    [|discriminate].
  rewrite run_lift_bind in H.
  destruct (say env _) as [[]|?] in H; [|discriminate].
  rewrite run_bind in H.
  destruct (run (generate_atlas _ _ _ _ _ 32 _ _ _ _) fs2) as [fs3 [[]|e]] eqn:H3;
    [|discriminate].
  assert (fs' = fs3) as ->.
  { repeat (rewrite run_lift_bind in H;
            destruct (say env _) as [[]|?] in H; [|discriminate H]).
    cbn [run lift] in H. congruence. }
  clear H.
  pose proof (generate_atlas_elsewhere fl blend truetype env FONT_FILE 24
                "solid" (path_str (joinpath OUTPUT_DIR "clean"))
                DEFAULT_COLUMNS None fs1) as K2.
  pose proof (generate_atlas_elsewhere fl blend truetype env FONT_FILE 32
                "smooth" (path_str (joinpath OUTPUT_DIR "smooth"))
                DEFAULT_COLUMNS None fs2) as K3.
  rewrite H2 in K2. rewrite H3 in K3. cbn [fst] in K2, K3. cbv zeta in K2, K3.
  apply generate_atlas_files in H1, H2, H3.
  destruct H1 as (img1 & doc1 & Hout1 & Hp1 & Hj1).
  destruct H2 as (img2 & doc2 & Hout2 & Hp2 & Hj2).
  destruct H3 as (img3 & doc3 & Hout3 & Hp3 & Hj3).
  cbn [default] in Hout1, Hout2, Hout3.
  destruct (atlas_outputs_summary _ _ _ _ _ _ _ _ _ _ _ Hout1)
    as (Hc1 & Ht1 & Hs1 & _ & _ & Hw1 & Hh1 & _ & Hn1 & _).
  destruct (atlas_outputs_summary _ _ _ _ _ _ _ _ _ _ _ Hout2)
    as (Hc2 & Ht2 & Hs2 & _ & _ & Hw2 & Hh2 & _ & Hn2 & _).
  destruct (atlas_outputs_summary _ _ _ _ _ _ _ _ _ _ _ Hout3)
    as (Hc3 & Ht3 & Hs3 & _ & _ & Hw3 & Hh3 & _ & Hn3 & _).
  specialize (Hn1 (NoDup_seqZ _ _)).
  specialize (Hn2 NoDup_DEFAULT_CHARSET).
  specialize (Hn3 NoDup_DEFAULT_CHARSET).
  clear Hout1 Hout2 Hout3.
  rewrite Ed1 in Hp1, Hj1. rewrite Ed2 in Hp2, Hj2, K2.
  rewrite Ed3 in Hp3, Hj3, K3.
  subst outputs. cbv beta.
  split; [|split].
  - exists img1, doc1.
    split; [rewrite K3, K2 by elsewhere; exact Hp1|].
    split; [rewrite K3, K2 by elsewhere; exact Hj1|].
    repeat split; assumption.
  - exists img2, doc2.
    split; [rewrite K3 by elsewhere; exact Hp2|].
    split; [rewrite K3 by elsewhere; exact Hj2|].
    repeat split; assumption.
  - exists img3, doc3.
    split; [exact Hp3|]. split; [exact Hj3|].
    repeat split; assumption.
Qed.
End CommandLineFacts.

Lemma main_glyph_layout_witness :
  exists doc,
    (run (main binary64 demo_blend demo_truetype quiet
            {| arg_font := "font.ttf"; arg_size := 2; arg_style := style_smooth;
               arg_output := "out"; arg_columns := 16;
               arg_ascii_only := true |}) ∅).1 !! Path "out/atlas.json"
      = Some (File true (JsonDocument doc)) /\
    glyphs doc !! str 65 = Some (2, 1).
Proof.
  assert (Hok : (run (main binary64 demo_blend demo_truetype quiet
                        {| arg_font := "font.ttf"; arg_size := 2;
                           arg_style := style_smooth; arg_output := "out";
                           arg_columns := 16; arg_ascii_only := true |}) ∅).2
                = Ok ()) by (vm_compute; reflexivity).
  destruct (main_glyph_layout binary64 demo_blend demo_truetype quiet
              {| arg_font := "font.ttf"; arg_size := 2;
                 arg_style := style_smooth; arg_output := "out";
                 arg_columns := 16; arg_ascii_only := true |} ∅
              (run (main binary64 demo_blend demo_truetype quiet
                      {| arg_font := "font.ttf"; arg_size := 2;
                         arg_style := style_smooth; arg_output := "out";
                         arg_columns := 16; arg_ascii_only := true |}) ∅).1)
    as (img & doc & _ & Hj & _ & _ & _ & Hascii & _).
  - rewrite <- Hok. apply surjective_pairing.
  - exists doc. split; [exact Hj|]. apply (Hascii 65). lia.
Defined.

(** ** Runs that return *)

Section Returns.
Variable fl : rounding.
Variable blend : Z -> Z -> Z.
Variable truetype : string -> Z -> result Font.
Variable env : environment.
Hypothesis no_os_error : forall c, os_error env c = None.
Hypothesis no_print_error : forall line, print_error env line = None.

Lemma say_returns (line : list piece) : say env line = Ok ().
Proof. unfold say. now rewrite no_print_error. Qed.

(** With a font that loads twice and renders every requested code point,
    positive cell sizes and a positive column count, the computation of a
    run returns an image that has pixels. *)
Lemma atlas_outputs_returns (font_path : string) (target_size : Z)
    (style : string) (columns : Z) (codepoints : list Z)
    (font font' : Font) (mw ma mb font_size gw gh bo : Z) (scale : Q) :
  truetype font_path 16 = Ok font ->
  measure_font font codepoints = Ok (mw, ma, mb) ->
  calculate_dimensions fl mw ma mb target_size 16
    = Ok (font_size, gw, gh, bo, scale) ->
  truetype font_path font_size = Ok font' ->
  Forall (renders font') codepoints ->
  0 < columns -> 0 < gw -> 0 < gh -> codepoints <> [] ->
  exists img doc,
    atlas_outputs fl blend truetype env font_path target_size style columns
      codepoints = Ok (img, doc) /\
    width img <> 0 /\ height img <> 0.
Proof.
  intros Hf Hm Hc Hf' Hall Hcol Hgw Hgh Hne.
  destruct (create_atlas_ok blend font' codepoints gw gh bo columns
              ltac:(lia) ltac:(lia) ltac:(lia) Hall)
    as (gray & Ha & Hw & Hh & _).
  pose proof (create_atlas_inv _ _ _ _ _ _ _ _ _ Ha) as (_ & _ & _ & _ & _ & Hwf).
  assert (Hr : exists img, convert_to_rgba gray style = Ok img).
  { destruct (String.eqb_spec style "solid") as [->|Hstyle].
    - rewrite convert_to_rgba_solid by assumption. now eexists.
    - rewrite convert_to_rgba_not_solid by assumption. now eexists. }
  destruct Hr as [img Hr].
  destruct (convert_to_rgba_size gray style img Hwf Hr) as (Hiw & Hih & _).
  assert (Hrows : 0 < (Z.of_nat (length codepoints) + columns - 1) / columns).
  { apply Z.div_str_pos. destruct codepoints; [contradiction|].
    cbn [length]. lia. }
  unfold atlas_outputs.
  repeat (rewrite say_returns; cbn [mbind result_bind]).
  rewrite Hf. cbn [mbind result_bind]. rewrite Hm. cbn [mbind result_bind].
  repeat (rewrite say_returns; cbn [mbind result_bind]).
  rewrite Hc. cbn [mbind result_bind].
  repeat (rewrite say_returns; cbn [mbind result_bind]).
  rewrite Hf'. cbn [mbind result_bind].
  repeat (rewrite say_returns; cbn [mbind result_bind]).
  rewrite Ha. cbn [mbind result_bind]. rewrite Hr. cbn [mbind result_bind].
  unfold py_floordiv. destruct (Z.eqb_spec columns 0) as [E|_]; [lia|].
  cbn [mbind result_bind].
  repeat (rewrite say_returns; cbn [mbind result_bind]).
  eexists _, _. split; [reflexivity|].
  rewrite Hiw, Hih, Hw, Hh. nia.
Qed.

(** Such a run returns when it can create its directory and finds neither
    of its two files there, and leaves the two files in the directory. *)
Lemma generate_atlas_returns (font_path : string) (target_size : Z)
    (style output_dir : string) (columns : Z) (codepoints : option (list Z))
    (fs : filesystem)
    (font font' : Font) (mw ma mb font_size gw gh bo : Z) (scale : Q) :
  let d := Path output_dir in
  let requested := default DEFAULT_CHARSET codepoints in
  truetype font_path 16 = Ok font ->
  measure_font font requested = Ok (mw, ma, mb) ->
  calculate_dimensions fl mw ma mb target_size 16
    = Ok (font_size, gw, gh, bo, scale) ->
  truetype font_path font_size = Ok font' ->
  Forall (renders font') requested ->
  0 < columns -> 0 < gw -> 0 < gh -> requested <> [] ->
  (run (mkdir env d) fs).2 = Ok () ->
  fs !! joinpath d "atlas.png" = None ->
  fs !! joinpath d "atlas.json" = None ->
  exists img doc,
    run (generate_atlas fl blend truetype env font_path target_size style
           output_dir columns codepoints) fs
    = (<[joinpath d "atlas.json" := File true (JsonDocument doc)]>
         (<[joinpath d "atlas.png" := File true (PngImage img)]>
            (run (mkdir env d) fs).1), Ok ()).
Proof.
  intros d requested Hf Hm Hc Hf' Hall Hcol Hgw Hgh Hne Hmk Hpng Hjson.
  destruct (atlas_outputs_returns font_path target_size style columns
              requested font font' mw ma mb font_size gw gh bo scale
              Hf Hm Hc Hf' Hall Hcol Hgw Hgh Hne)
    as (img & doc & Hout & Hw0 & Hh0).
  destruct (output_paths_distinct d) as (Hpm & Hpd & Hmd).
  destruct (mkdir_keeps_outputs env d fs) as [Hka Hkm].
  pose proof (mkdir_parents_spec env d.1 (List.rev d.2) fs) as (_ & _ & Hdir).
  fold (mkdir env d) in Hdir. specialize (Hdir Hmk).
  rewrite rev_involutive in Hdir.
  replace (d.1, d.2) with d in Hdir by now destruct d.
  set (png := joinpath d "atlas.png") in *.
  set (json := joinpath d "atlas.json") in *.
  destruct (run (mkdir env d) fs) as [fs1 r] eqn:Emk. cbn [fst snd] in *.
  subst r.
  assert (Hparent : parent png = d /\ parent json = d).
  { unfold png, json. rewrite joinpath_atlas_png, joinpath_atlas_json.
    destruct d as [a l]. cbn [fst snd]. now rewrite !parent_child. }
  destruct Hparent as [Hparp Hparj].
  assert (Hnode : forall fs0, node_at fs0 png = fs0 !! png /\
                              node_at fs0 json = fs0 !! json).
  { intros fs0. unfold png, json.
    rewrite joinpath_atlas_png, joinpath_atlas_json.
    split; apply node_at_child; discriminate. }
  assert (Hd1 : node_at fs1 d = Some Directory).
  { unfold is_dir in Hdir.
    destruct (node_at fs1 d) as [[|w c]|]; [reflexivity|discriminate..]. }
  assert (Ho1 : open_error env fs1 png = None).
  { unfold open_error.
    rewrite no_os_error, Hparp, Hd1, (proj1 (Hnode fs1)), Hka, Hpng.
    reflexivity. }
  assert (Ho2 : open_error env (<[png := File true (PngImage img)]> fs1) json
                = None).
  { unfold open_error.
    rewrite no_os_error, Hparj, node_at_insert_ne, Hd1 by congruence.
    rewrite (proj2 (Hnode _)), lookup_insert_ne, Hkm, Hjson by congruence.
    reflexivity. }
  assert (Hcl : closing_lines env png json = Ok ()).
  { unfold closing_lines.
    repeat (rewrite say_returns; cbn [mbind result_bind]). reflexivity. }
  exists img, doc.
  rewrite generate_atlas_stages. cbv zeta. fold d png json requested.
  rewrite run_bind, Emk, run_lift_bind, Hout.
  cbn [run mbind io_bind Image_save open_w json_dump lift].
  rewrite Ho1.
  replace ((width img =? 0) || (height img =? 0)) with false
    by (symmetry; apply orb_false_intro; now apply Z.eqb_neq).
  rewrite no_os_error, Ho2. cbv beta iota.
  rewrite no_os_error, Hcl, insert_insert_eq. reflexivity.
Qed.
End Returns.

Lemma slim_font_renders (codepoints : list Z) :
  Forall (fun cp => 0 <= cp < 1114112) codepoints ->
  Forall (renders slim_font) codepoints.
Proof.
  intros Hall. eapply Forall_impl; [exact Hall|]. cbv beta.
  intros cp Hcp.
  exists cp, (0, -16, 1, 0), (GlyphMask 0 (-16) (Image 1 16 (replicate 16 255))).
  unfold chr.
  destruct (Z.leb_spec 0 cp); [|lia]. destruct (Z.ltb_spec cp 1114112); [|lia].
  now repeat split.
Qed.

(** The example script runs to its end in an empty working directory, with
    a font of glyphs one pixel wide and 16 pixels high. *)
Lemma example_returns :
  (run (example binary64 demo_blend slim_truetype quiet) ∅).2 = Ok ().
Proof.
  assert (Hsay : forall line, say quiet line = Ok ()) by reflexivity.
  assert (Hascii : Forall (renders slim_font) (seqZ 32 (127 - 32))).
  { apply slim_font_renders, Forall_forall. intros cp Hcp.
    apply elem_of_seqZ in Hcp. lia. }
  assert (Hdefault : Forall (renders slim_font) DEFAULT_CHARSET).
  { apply slim_font_renders.
    apply (bool_decide_unpack
             (Forall (fun cp => 0 <= cp < 1114112) DEFAULT_CHARSET)).
    vm_compute. exact I. }
  unfold example, print.
  rewrite run_lift_bind, Hsay. rewrite run_lift_bind, Hsay.
  destruct (generate_atlas_returns binary64 demo_blend slim_truetype quiet
              ltac:(reflexivity) ltac:(reflexivity)
              FONT_FILE 16 "solid"
              (path_str (joinpath OUTPUT_DIR "pixelated")) DEFAULT_COLUMNS
              (Some (seqZ 32 (127 - 32))) ∅
              slim_font slim_font 1 16 0 16 1 16 16 1%Q)
    as (img1 & doc1 & E1);
    [reflexivity|vm_compute; reflexivity|vm_compute; reflexivity|reflexivity
    |exact Hascii|reflexivity|lia|lia|discriminate
    |vm_compute; reflexivity|reflexivity|reflexivity|].
  rewrite run_bind, E1. clear E1.
  rewrite run_lift_bind, Hsay.
  match goal with |- (run _ ?fs).2 = _ => set (fs1 := fs) end.
  destruct (generate_atlas_returns binary64 demo_blend slim_truetype quiet
              ltac:(reflexivity) ltac:(reflexivity)
              FONT_FILE 24 "solid"
              (path_str (joinpath OUTPUT_DIR "clean")) DEFAULT_COLUMNS
              None fs1
              slim_font slim_font 1 16 0 24 1 24 24 (3 # 2)%Q)
    as (img2 & doc2 & E2);
    [reflexivity|vm_compute; reflexivity|vm_compute; reflexivity|reflexivity
    |exact Hdefault|reflexivity|lia|lia|discriminate
    |vm_compute; reflexivity|vm_compute; reflexivity|vm_compute; reflexivity|].
  rewrite run_bind, E2. clear E2.
  rewrite run_lift_bind, Hsay.
  match goal with |- (run _ ?fs).2 = _ => set (fs2 := fs) end.
  destruct (generate_atlas_returns binary64 demo_blend slim_truetype quiet
              ltac:(reflexivity) ltac:(reflexivity)
              FONT_FILE 32 "smooth"
              (path_str (joinpath OUTPUT_DIR "smooth")) DEFAULT_COLUMNS
              None fs2
              slim_font slim_font 1 16 0 32 2 32 32 2%Q)
    as (img3 & doc3 & E3);
    [reflexivity|vm_compute; reflexivity|vm_compute; reflexivity|reflexivity
    |exact Hdefault|reflexivity|lia|lia|discriminate
    |vm_compute; reflexivity|vm_compute; reflexivity|vm_compute; reflexivity|].
  rewrite run_bind, E3. clear E3.
  repeat rewrite run_lift_bind, Hsay.
  reflexivity.
Qed.

Lemma example_outputs_witness :
  exists img doc,
    (run (example binary64 demo_blend slim_truetype quiet) ∅).1
      !! Path "../../assets/fonts/clean/atlas.png"
      = Some (File true (PngImage img)) /\
    (run (example binary64 demo_blend slim_truetype quiet) ∅).1
      !! Path "../../assets/fonts/clean/atlas.json"
      = Some (File true (JsonDocument doc)) /\
    m_target_size (metrics doc) = 24 /\
    size (glyphs doc) = 161%nat /\
    height img = 11 * m_glyph_height (metrics doc).
Proof.
  destruct (example_outputs binary64 demo_blend slim_truetype quiet ∅
              (run (example binary64 demo_blend slim_truetype quiet) ∅).1)
    as (_ & (img & doc & Hp & Hj & Ht & _ & _ & Hn & _ & Hh) & _).
  - rewrite <- example_returns. apply surjective_pairing.
  - exists img, doc. split; [exact Hp|]. split; [exact Hj|].
    split; [exact Ht|]. split; [exact Hn|exact Hh].
Defined.
(** ** GridGeometryCalculator: integer scale factors *)

Lemma Qred_inject_Z (k : Z) : Qred (inject_Z k) = inject_Z k.
Proof.
  unfold Qred, inject_Z.
  pose proof (Z.ggcd_gcd k 1) as Hg.
  pose proof (Z.ggcd_correct_divisors k 1) as Hd.
  destruct (Z.ggcd k 1) as [g [aa bb]]. cbn [fst snd] in *.
  rewrite Z.gcd_1_r in Hg. subst g. destruct Hd as [Ha Hb].
  rewrite Z.mul_1_l in Ha, Hb. subst aa bb. reflexivity.
Qed.

Lemma Qrne_integer (y : Q) (k : Z) : (y == inject_Z k)%Q -> Qrne y = k.
Proof.
  intros Hy. unfold Qrne.
  assert (Hf : Qfloor y = k) by (rewrite (Qfloor_comp _ _ Hy); apply Qfloor_Z).
  rewrite Hf.
  destruct (Qcompare_spec (y - inject_Z k) (1 # 2)) as [E|E|E]; [lra|reflexivity|lra].
Qed.

Lemma py_int_inject_Z (k : Z) : py_int (inject_Z k) = k.
Proof. unfold py_int, inject_Z. cbn [Qnum Qden]. apply Z.quot_1_r. Qed.

(** [binary64] represents the integers below [2^53] exactly. *)
Lemma binary64_integer (x : Q) (k : Z) :
  (x == inject_Z k)%Q -> 0 <= k < 2 ^ 53 -> binary64 x = Some (inject_Z k).
Proof.
  intros Hx Hk. unfold binary64, round_to.
  destruct (Z.eq_dec k 0) as [->|Hk0].
  { change (inject_Z 0) with 0%Q in Hx. apply Qeq_bool_iff in Hx.
    now rewrite Hx. }
  assert (HkQ : (0 < inject_Z k)%Q) by (apply inject_Z_pos; lia).
  assert (Hx0 : (0 < x)%Q) by lra.
  destruct (Qeq_bool x 0) eqn:E; [apply Qeq_bool_iff in E; lra|].
  rewrite (Qabs_pos_eq x Hx0).
  destruct (ilog2_spec x Hx0) as [Hi1 _]. set (i := ilog2 x) in *.
  assert (H53 : (inject_Z k < 2 ^ 53)%Q).
  { rewrite <- (Zpower_Qpower 2 53) by lia. rewrite <- Zlt_Qlt. lia. }
  assert (Hi : i < 53).
  { destruct (Z_lt_le_dec i 53) as [|Hge]; [assumption|].
    pose proof (Qpower_le_compat_l 2 53 i Hge ltac:(discriminate)). lra. }
  set (e := Z.max (i - (53 - 1)) (-1074)).
  assert (He : -1074 <= e <= 0) by (unfold e; lia).
  pose proof (pow2_pos e) as He0.
  assert (Hpe : (2 ^ e * inject_Z (2 ^ (- e)) == 1)%Q).
  { rewrite (Zpower_Qpower 2 (- e)) by lia.
    rewrite <- Qpower_plus by apply two_neq_0.
    replace (e + - e) with 0 by lia. reflexivity. }
  assert (HP : (inject_Z (2 ^ (- e)) == / 2 ^ e)%Q).
  { apply (Qmult_inj_l _ _ (2 ^ e)%Q); [lra|]. rewrite Hpe. field. lra. }
  assert (Hy : (x / 2 ^ e == inject_Z (k * 2 ^ (- e)))%Q).
  { rewrite inject_Z_mult, Hx, HP. reflexivity. }
  rewrite (Qrne_integer _ _ Hy).
  assert (Hr : (inject_Z (k * 2 ^ (- e)) * 2 ^ e == inject_Z k)%Q).
  { rewrite inject_Z_mult.
    qreplace (inject_Z k * inject_Z (2 ^ (- e)) * 2 ^ e)%Q
             (inject_Z k * (2 ^ e * inject_Z (2 ^ (- e))))%Q.
    rewrite Hpe. ring. }
  destruct (Qle_bool (2 ^ 1024) _) eqn:Ho.
  { apply Qle_bool_iff in Ho. rewrite Hr in Ho.
    pose proof (Qpower_le_compat_l 2 53 1024 ltac:(lia) ltac:(discriminate)).
    lra. }
  assert (Hs : Qle_bool 0 x = true) by (apply Qle_bool_iff; lra).
  rewrite Hs. f_equal. rewrite (Qred_complete _ _ Hr). apply Qred_inject_Z.
Qed.

Lemma float_mul_int_integer (n k : Z) :
  0 <= n < 2 ^ 53 -> 0 <= n * k < 2 ^ 53 ->
  float_mul_int binary64 n (inject_Z k) = Some (inject_Z (n * k)).
Proof.
  intros Hn Hnk. unfold float_mul_int, float_of_int.
  rewrite (binary64_integer (inject_Z n) n) by (reflexivity || assumption).
  apply binary64_integer; [|assumption].
  now rewrite inject_Z_mult.
Qed.

(** X17. An integer scale factor is exact in the arithmetic of Python
    floats: when the target size is [k] times the larger measured extent
    (products below [2^53]), the scale is exactly [k] and the font size, the
    cell width, the cell height and the baseline offset are exactly [k]
    times the base font size and the measured maxima. *)
Theorem calculate_dimensions_integer_scale (mw ma mb k b : Z) :
  0 <= mw -> 0 <= ma -> 0 <= mb -> 0 <= b -> 0 < k ->
  0 < Z.max mw (ma + mb) ->
  Z.max mw (ma + mb) * k < 2 ^ 53 -> b * k < 2 ^ 53 ->
  calculate_dimensions binary64 mw ma mb (k * Z.max mw (ma + mb)) b
  = Ok (b * k, mw * k, (ma + mb) * k, ma * k, inject_Z k).
Proof.
  intros Hmw Hma Hmb Hb Hk Hm Hmk Hbk.
  set (m := Z.max mw (ma + mb)) in *.
  unfold calculate_dimensions, int_truediv. fold m.
  destruct (Z.eqb_spec m 0) as [E|_]; [lia|].
  assert (HmQ : (0 < inject_Z m)%Q) by (apply inject_Z_pos; lia).
  rewrite (binary64_integer (inject_Z (k * m) / inject_Z m) k);
    [|rewrite inject_Z_mult; field; lra|nia].
  cbn [mbind result_bind].
  rewrite (float_mul_int_integer b k) by nia.
  rewrite (float_mul_int_integer mw k) by nia.
  rewrite (float_mul_int_integer (ma + mb) k) by nia.
  rewrite (float_mul_int_integer ma k) by nia.
  cbn [mbind result_bind int_of_float]. now rewrite !py_int_inject_Z.
Qed.

Lemma calculate_dimensions_integer_scale_witness :
  calculate_dimensions binary64 10 13 3 (2 * Z.max 10 (13 + 3)) 16
  = Ok (16 * 2, 10 * 2, (13 + 3) * 2, 13 * 2, inject_Z 2).
Proof. apply calculate_dimensions_integer_scale; lia. Defined.

(** ** GridGeometryCalculator: the order of the sizes is kept *)

Section RoundedOrder.
Variables (fl : rounding) (u lo hi : Q) (B : Z).
Hypothesis u_nonneg : (0 <= u)%Q.
Hypothesis B_pos : 1 <= B.
Hypothesis u_tiny : (8 * u * inject_Z B <= 1)%Q.
Hypothesis lo_pos : (0 < lo)%Q.
Hypothesis lo_small : (2 * lo * inject_Z B <= 1)%Q.
Hypothesis hi_large : (2 * inject_Z B * inject_Z B <= hi)%Q.
Hypothesis fl_accurate : accurate fl u lo hi.

Local Lemma u_small' : (4 * u * inject_Z B < 1)%Q.
Proof.
  assert (1 <= inject_Z B)%Q
    by (change 1%Q with (inject_Z 1); now rewrite <- Zle_Qle).
  assert (0 <= u * inject_Z B)%Q by (apply Qmult_le_0_compat; lra).
  lra.
Qed.

(** Two sizes scaled by the same factor keep their order: the rounding
    errors of the two products are smaller than the gap between two
    different integers. *)
Lemma float_mul_int_mono (n1 n2 : Z) (s p1 p2 : Q) :
  0 <= n1 <= n2 -> n2 <= B ->
  (2 * lo * (1 - u) <= s <= inject_Z B * (1 + u))%Q ->
  float_mul_int fl n1 s = Some p1 -> float_mul_int fl n2 s = Some p2 ->
  (p1 <= p2)%Q.
Proof.
  intros Hn1 Hn2 Hs Hp1 Hp2.
  destruct (Z.eq_dec n1 n2) as [->|Hne].
  { rewrite Hp1 in Hp2. injection Hp2 as <-. lra. }
  pose proof u_small' as Hu4.
  destruct (float_mul_int_accurate fl u lo hi B u_nonneg B_pos Hu4 lo_pos
              lo_small hi_large fl_accurate n1 s ltac:(lia) Hs)
    as (f1 & q1 & Hq1 & Hf1 & Hb1 & _).
  destruct (float_mul_int_accurate fl u lo hi B u_nonneg B_pos Hu4 lo_pos
              lo_small hi_large fl_accurate n2 s ltac:(lia) Hs)
    as (f2 & q2 & Hq2 & Hf2 & Hb2 & _).
  rewrite Hp1 in Hq1. injection Hq1 as <-.
  rewrite Hp2 in Hq2. injection Hq2 as <-.
  assert (HB : (1 <= inject_Z B)%Q)
    by (change 1%Q with (inject_Z 1); now rewrite <- Zle_Qle).
  assert (Hu : (u <= 1 # 8)%Q).
  { assert ((8 * u) * 1 <= (8 * u) * inject_Z B)%Q
      by (apply Qmult_le_mono; lra).
    lra. }
  assert (Hs0 : (0 <= s)%Q).
  { assert (0 <= (2 * lo) * (1 - u))%Q by (apply Qmult_le_0_compat; lra). lra. }
  set (N1 := inject_Z n1) in *. set (N2 := inject_Z n2) in *.
  assert (HN1 : (0 <= N1)%Q) by (apply inject_Z_nonneg; lia).
  assert (HN12 : (N1 + 1 <= N2)%Q).
  { unfold N1, N2. change 1%Q with (inject_Z 1).
    rewrite <- inject_Z_plus, <- Zle_Qle. lia. }
  assert (HN1B : (N1 <= inject_Z B)%Q) by (unfold N1; rewrite <- Zle_Qle; lia).
  assert (HuN : (u * N1 <= u * inject_Z B)%Q) by (apply Qmult_le_mono; lra).
  assert (HuN0 : (0 <= u * N1)%Q) by (apply Qmult_le_0_compat; lra).
  assert (Huu : (u * u <= (1 # 8) * u)%Q) by (apply Qmult_le_r'; lra).
  assert (Huu0 : (0 <= u * u)%Q) by (apply Qmult_le_0_compat; lra).
  assert (HuuN : (u * u * N1 <= (1 # 8) * u * N1)%Q)
    by (apply Qmult_le_r'; lra).
  assert (HuN2 : (u * N1 <= u * N2)%Q) by (apply Qmult_le_mono; lra).
  assert (HuuN2 : (0 <= u * u * N2)%Q).
  { apply Qmult_le_0_compat; lra. }
  (* the two products, bounded through the common factor [s] *)
  assert (Hup : (p1 <= (N1 * (1 + u) * (1 + u)) * s)%Q).
  { assert (f1 * s <= (N1 * (1 + u)) * s)%Q by (apply Qmult_le_r'; lra).
    assert (0 <= f1)%Q.
    { assert (0 <= N1 * (1 - u))%Q by (apply Qmult_le_0_compat; lra). lra. }
    assert (0 <= f1 * s)%Q by (apply Qmult_le_0_compat; lra).
    assert (f1 * s * (1 + u) <= (N1 * (1 + u)) * s * (1 + u))%Q
      by (apply Qmult_le_r'; lra).
    qreplace (N1 * (1 + u) * (1 + u) * s)%Q (N1 * (1 + u) * s * (1 + u))%Q.
    lra. }
  assert (Hdn : ((N2 * (1 - u) * (1 - u)) * s <= p2)%Q).
  { assert ((N2 * (1 - u)) * s <= f2 * s)%Q by (apply Qmult_le_r'; lra).
    assert ((N2 * (1 - u)) * s * (1 - u) <= f2 * s * (1 - u))%Q
      by (apply Qmult_le_r'; lra).
    qreplace (N2 * (1 - u) * (1 - u) * s)%Q (N2 * (1 - u) * s * (1 - u))%Q.
    lra. }
  assert (Hmid : (N1 * (1 + u) * (1 + u) <= N2 * (1 - u) * (1 - u))%Q).
  { qreplace (N1 * (1 + u) * (1 + u))%Q (N1 + 2 * (u * N1) + u * u * N1)%Q.
    qreplace (N2 * (1 - u) * (1 - u))%Q (N2 - 2 * (u * N2) + u * u * N2)%Q.
    assert (HuN2' : (u * N2 <= u * inject_Z B)%Q).
    { apply Qmult_le_mono; [lra|]. split; [lra|].
      unfold N2. rewrite <- Zle_Qle. lia. }
    lra. }
  assert (Hmid' : ((N1 * (1 + u) * (1 + u)) * s
                   <= (N2 * (1 - u) * (1 - u)) * s)%Q)
    by (apply Qmult_le_r'; lra).
  lra.
Qed.
End RoundedOrder.

Lemma binary64_scale_range (t m : Z) (s : Q) :
  1 <= t <= 2 ^ 50 -> 1 <= m <= 2 ^ 50 ->
  binary64 (inject_Z t / inject_Z m)%Q = Some s ->
  (inject_Z t * (1 - u64) <= s * inject_Z m <= inject_Z t * (1 + u64))%Q /\
  (2 * 2 ^ (-1022) * (1 - u64) <= s <= inject_Z (2 ^ 50) * (1 + u64))%Q.
Proof.
  intros Ht Hm Hs.
  destruct binary64_sizes_accurate as (H1 & H2 & H3 & H4 & H5 & H6 & H7).
  destruct (int_truediv_accurate binary64 u64 (2 ^ (-1022)) (2 ^ 1023) (2 ^ 50)
              H2 H3 H4 H5 H6 H7 H1 t m Ht Hm) as (s' & Hs' & Hsm & Hsb).
  unfold int_truediv in Hs'. destruct (m =? 0); [discriminate|].
  rewrite Hs in Hs'. injection Hs' as <-. now split.
Qed.

(** X18. In the arithmetic of Python floats the scaling keeps the order
    of the measured sizes (sizes up to [2^50]): the baseline offset is
    between 0 and the cell height, so the baseline lies inside the cell; a
    font no wider than it is high gets a cell no wider than it is high, and
    a font no higher than it is wide a cell no higher than it is wide; and
    with nothing measured below the baseline the baseline is the bottom
    edge of the cell. *)
Theorem calculate_dimensions_keeps_order (mw ma mb t b : Z) :
  0 <= mw -> 0 <= ma -> 0 <= mb ->
  0 < Z.max mw (ma + mb) <= 2 ^ 50 -> 0 < t <= 2 ^ 50 -> 0 <= b <= 2 ^ 50 ->
  exists font_size glyph_width glyph_height baseline_offset scale,
    calculate_dimensions binary64 mw ma mb t b =
      Ok (font_size, glyph_width, glyph_height, baseline_offset, scale) /\
    0 <= baseline_offset <= glyph_height /\
    (mb = 0 -> baseline_offset = glyph_height) /\
    (mw <= ma + mb -> glyph_width <= glyph_height) /\
    (ma + mb <= mw -> glyph_height <= glyph_width).
Proof.
  intros Hmw Hma Hmb Hm Ht Hb.
  destruct (calculate_dimensions_binary64 mw ma mb t b Hmw Hma Hmb Hm Ht Hb)
    as (s & pb & pw & ph & pa & Hs & _ & Hpw & Hph & Hpa & E & _ & _ & _ & Ha
        & _).
  destruct (binary64_scale_range t (Z.max mw (ma + mb)) s ltac:(lia) ltac:(lia)
              Hs) as (_ & Hsb).
  destruct binary64_sizes_accurate as (H1 & H2 & H3 & _ & H5 & H6 & H7).
  assert (H8 : (8 * u64 * inject_Z (2 ^ 50) <= 1)%Q) by discriminate.
  pose proof (float_mul_int_mono binary64 u64 (2 ^ (-1022)) (2 ^ 1023) (2 ^ 50)
                H2 H3 H8 H5 H6 H7 H1) as Hmono.
  exists (py_int pb), (Qfloor pw), (Qfloor ph), (Qfloor pa), s.
  split; [exact E|].
  split; [split; [lia|]|split; [|split]].
  - apply Qfloor_resp_le.
    apply (Hmono ma (ma + mb) s); try assumption; lia.
  - intros ->. rewrite Z.add_0_r in Hph. rewrite Hpa in Hph.
    now injection Hph as ->.
  - intros Hle. apply Qfloor_resp_le.
    apply (Hmono mw (ma + mb) s); try assumption; lia.
  - intros Hle. apply Qfloor_resp_le.
    apply (Hmono (ma + mb) mw s); try assumption; lia.
Qed.

Lemma calculate_dimensions_keeps_order_witness :
  exists font_size glyph_width glyph_height baseline_offset scale,
    calculate_dimensions binary64 10 13 3 32 16 =
      Ok (font_size, glyph_width, glyph_height, baseline_offset, scale) /\
    0 <= baseline_offset <= glyph_height.
Proof.
  destruct (calculate_dimensions_keeps_order 10 13 3 32 16)
    as (fs & gw & gh & bo & s & E & Hbo & _); try lia.
  exists fs, gw, gh, bo, s. split; [exact E|exact Hbo].
Defined.

(** ** GridGeometryCalculator: the font size *)

Section RoundedFontSize.
Variables (fl : rounding) (u lo hi : Q) (B : Z).
Hypothesis u_nonneg : (0 <= u)%Q.
Hypothesis B_pos : 1 <= B.
Hypothesis u_small : (4 * u * inject_Z B < 1)%Q.
Hypothesis lo_pos : (0 < lo)%Q.
Hypothesis lo_small : (2 * lo * inject_Z B <= 1)%Q.
Hypothesis hi_large : (2 * inject_Z B * inject_Z B <= hi)%Q.
Hypothesis fl_accurate : accurate fl u lo hi.

(** A size [n] that may exceed the measured [m], such as the base font
    size: when [4 u n t < 1], the integer part of the product [n * s] is the
    exact floor of [n t / m] or one less. *)
Lemma float_mul_int_near_exact_any (t m n : Z) (s p : Q) :
  1 <= t <= B -> 1 <= m <= B -> 0 <= n <= B ->
  (inject_Z t * (1 - u) <= s * inject_Z m <= inject_Z t * (1 + u))%Q ->
  (2 * lo * (1 - u) <= s <= inject_Z B * (1 + u))%Q ->
  (4 * u * inject_Z (n * t) < 1)%Q ->
  float_mul_int fl n s = Some p ->
  (0 <= p)%Q /\ n * t / m - 1 <= Qfloor p <= n * t / m.
Proof.
  intros Ht Hm Hn Hsm Hs Hsmall Hp.
  assert (HBq : (1 <= inject_Z B)%Q)
    by (change 1%Q with (inject_Z 1); now rewrite <- Zle_Qle).
  assert (Huq : (0 <= u <= 1 # 4)%Q).
  { split; [assumption|].
    assert ((4 * u) * 1 <= (4 * u) * inject_Z B)%Q
      by (apply Qmult_le_mono; lra).
    lra. }
  destruct (float_mul_int_accurate fl u lo hi B u_nonneg B_pos u_small lo_pos
              lo_small hi_large fl_accurate n s Hn Hs)
    as (f & p' & Hg & Hf & Hpb & Hp0).
  rewrite Hp in Hg. injection Hg as <-.
  split; [exact Hp0|].
  assert (HT : (1 <= inject_Z t <= inject_Z B)%Q).
  { split; [change 1%Q with (inject_Z 1)|]; rewrite <- Zle_Qle; lia. }
  assert (HM : (1 <= inject_Z m <= inject_Z B)%Q).
  { split; [change 1%Q with (inject_Z 1)|]; rewrite <- Zle_Qle; lia. }
  assert (Hs0 : (0 <= s)%Q).
  { assert (0 <= (2 * lo) * (1 - u))%Q by (apply Qmult_le_0_compat; lra). lra. }
  set (q := n * t / m).
  assert (Hq : m * q <= n * t < m * q + m).
  { pose proof (Z.div_mod (n * t) m ltac:(lia)) as E.
    pose proof (Z.mod_pos_bound (n * t) m ltac:(lia)) as Hr. fold q in E. lia. }
  destruct (Z.eq_dec n 0) as [->|Hn0].
  { assert (Hf0 : (f == 0)%Q) by (change (inject_Z 0) with 0%Q in Hf; lra).
    assert (Hp00 : (p == 0)%Q).
    { rewrite Hf0 in Hpb. lra. }
    assert (Qfloor p = 0) as ->.
    { apply Z.le_antisymm.
      - change 0 with (Qfloor 0). apply Qfloor_resp_le. lra.
      - change 0 with (Qfloor 0). apply Qfloor_resp_le. lra. }
    subst q. rewrite Z.mul_0_l, Z.div_0_l by lia. lia. }
  assert (HN : (1 <= inject_Z n)%Q).
  { change 1%Q with (inject_Z 1). rewrite <- Zle_Qle. lia. }
  rewrite inject_Z_mult in Hsmall.
  set (W := inject_Z n) in *. set (T := inject_Z t) in *.
  set (M := inject_Z m) in *.
  set (X := (W * T / M)%Q).
  assert (HX : (X * M == W * T)%Q) by (unfold X; field; lra).
  assert (HWT : (0 <= W * T)%Q) by (apply Qmult_le_0_compat; lra).
  assert (HX0 : (0 <= X)%Q) by (unfold X; apply Qle_shift_div_l; lra).
  assert (HsW1 : (s * W <= X * (1 + u))%Q).
  { apply (Qmult_le_r _ _ M); [lra|].
    assert ((s * M) * W <= (T * (1 + u)) * W)%Q by (apply Qmult_le_r'; lra).
    qreplace (s * W * M)%Q (s * M * W)%Q.
    qreplace (X * (1 + u) * M)%Q (X * M * (1 + u))%Q. rewrite HX. lra. }
  assert (HsW2 : (X * (1 - u) <= s * W)%Q).
  { apply (Qmult_le_r _ _ M); [lra|].
    assert ((T * (1 - u)) * W <= (s * M) * W)%Q by (apply Qmult_le_r'; lra).
    qreplace (s * W * M)%Q (s * M * W)%Q.
    qreplace (X * (1 - u) * M)%Q (X * M * (1 - u))%Q. rewrite HX. lra. }
  assert (Hf0 : (0 <= f)%Q).
  { assert (0 <= W * (1 - u))%Q by (apply Qmult_le_0_compat; lra). lra. }
  assert (Hup : (p <= X + 4 * u * X)%Q).
  { apply (three_roundings_up X W W s f p u); lra. }
  assert (Hdn : (X - 3 * u * X <= p)%Q).
  { apply (three_roundings_down X W s f p u); lra. }
  assert (HpM1 : (p * M <= W * T + 4 * u * (W * T))%Q).
  { assert (p * M <= (X + 4 * u * X) * M)%Q by (apply Qmult_le_r'; lra).
    qreplace_in ((X + 4 * u * X) * M)%Q (X * M + 4 * u * (X * M))%Q H.
    rewrite HX in H. exact H. }
  assert (HpM2 : (W * T - 3 * u * (W * T) <= p * M)%Q).
  { assert ((X - 3 * u * X) * M <= p * M)%Q by (apply Qmult_le_r'; lra).
    qreplace_in ((X - 3 * u * X) * M)%Q (X * M - 3 * u * (X * M))%Q H.
    rewrite HX in H. exact H. }
  assert (HuX0 : (0 <= u * (W * T))%Q) by (apply Qmult_le_0_compat; lra).
  assert (Hq1 : (W * T + 1 <= (inject_Z q + 1) * M)%Q).
  { unfold W, T, M. change 1%Q with (inject_Z 1).
    rewrite <- inject_Z_mult, <- !inject_Z_plus, <- inject_Z_mult, <- Zle_Qle.
    lia. }
  assert (Hq2 : ((inject_Z q - 1) * M <= W * T - 1)%Q).
  { unfold W, T, M, Qminus. change (- (1))%Q with (inject_Z (- 1)).
    rewrite <- inject_Z_mult, <- !inject_Z_plus, <- inject_Z_mult, <- Zle_Qle.
    lia. }
  split.
  - apply Qfloor_gt_pred. apply (Qmult_lt_r _ _ M); lra.
  - apply Qfloor_lt_succ. apply (Qmult_lt_r _ _ M); lra.
Qed.
End RoundedFontSize.

(** X19. In the arithmetic of Python floats, for sizes whose products
    with the target size stay below [2^51], every integer the function
    returns is the exact floor of [n * target_size / max] or one less, for
    [n] the base font size, the measured width, the natural height and the
    height above the baseline; and the returned scale times the larger
    extent is within a relative [2^-53] of the target size. *)
Theorem calculate_dimensions_floor_or_one_less (mw ma mb t b : Z) :
  0 <= mw -> 0 <= ma -> 0 <= mb ->
  0 < Z.max mw (ma + mb) <= 2 ^ 50 -> 0 < t <= 2 ^ 50 -> 0 <= b <= 2 ^ 50 ->
  Z.max (Z.max mw (ma + mb)) b * t < 2 ^ 51 ->
  let m := Z.max mw (ma + mb) in
  exists font_size glyph_width glyph_height baseline_offset scale,
    calculate_dimensions binary64 mw ma mb t b =
      Ok (font_size, glyph_width, glyph_height, baseline_offset, scale) /\
    b * t / m - 1 <= font_size <= b * t / m /\
    mw * t / m - 1 <= glyph_width <= mw * t / m /\
    (ma + mb) * t / m - 1 <= glyph_height <= (ma + mb) * t / m /\
    ma * t / m - 1 <= baseline_offset <= ma * t / m /\
    (inject_Z t * (1 - u64) <= scale * inject_Z m <= inject_Z t * (1 + u64))%Q.
Proof.
  intros Hmw Hma Hmb Hm Ht Hb Hprod m.
  destruct (calculate_dimensions_binary64 mw ma mb t b Hmw Hma Hmb Hm Ht Hb)
    as (s & pb & pw & ph & pa & Hs & Hpb & _ & _ & _ & E & _ & _ & _ & _ & _
        & Hnear).
  fold m in Hs, Hnear, Hm, Hprod.
  destruct (binary64_scale_range t m s ltac:(lia) ltac:(lia) Hs) as (Hsm & Hsb).
  destruct binary64_sizes_accurate as (H1 & H2 & H3 & H4 & H5 & H6 & H7).
  assert (Hsmall : forall n, 0 <= n -> n * t < 2 ^ 51 ->
                   (4 * u64 * inject_Z (n * t) < 1)%Q).
  { intros n Hn Hnt.
    assert (Hlt : (inject_Z (n * t) < inject_Z (2 ^ 51))%Q)
      by (rewrite <- Zlt_Qlt; exact Hnt).
    unfold u64. change (inject_Z (2 ^ 51)) with (2251799813685248 # 1)%Q in Hlt.
    lra. }
  destruct (float_mul_int_near_exact_any binary64 u64 (2 ^ (-1022)) (2 ^ 1023)
              (2 ^ 50) H2 H3 H4 H5 H6 H7 H1 t m b s pb ltac:(lia) ltac:(lia) Hb
              Hsm Hsb (Hsmall b ltac:(lia) ltac:(nia)) Hpb) as (Hpb0 & Hfs).
  exists (py_int pb), (Qfloor pw), (Qfloor ph), (Qfloor pa), s.
  split; [exact E|].
  split; [now rewrite (py_int_floor pb Hpb0)|].
  destruct (Hnear (Hsmall m ltac:(lia) ltac:(nia))) as (Hw & Hh & Ha).
  split; [exact Hw|]. split; [exact Hh|]. split; [exact Ha|exact Hsm].
Qed.

Lemma calculate_dimensions_floor_or_one_less_witness :
  exists font_size glyph_width glyph_height baseline_offset scale,
    calculate_dimensions binary64 30 39 10 32 16 =
      Ok (font_size, glyph_width, glyph_height, baseline_offset, scale) /\
    16 * 32 / 49 - 1 <= font_size <= 16 * 32 / 49 /\
    (39 + 10) * 32 / 49 - 1 <= glyph_height <= (39 + 10) * 32 / 49.
Proof.
  destruct (calculate_dimensions_floor_or_one_less 30 39 10 32 16)
    as (fs & gw & gh & bo & s & E & Hfs & _ & Hgh & _); try lia.
  exists fs, gw, gh, bo, s. split; [exact E|]. split; [exact Hfs|exact Hgh].
Defined.
